(** * Reference explorer: edge classifier, graph builder and layout

    A shallow embedding of the algorithmic core of the RefExplorer editor
    plugin (RefExplorerEditorModule.cpp and its near-duplicate sibling that
    names everything ReferenceExplorer):

    - [FRefExplorerEditorModule_PRIVATE]: the pin-category bit set and its
      naming / colouring functions;
    - [UEdGraph_RefExplorer::GetSortedLinks]: sort, accumulate, post-filter;
    - [UEdGraph_RefExplorer::RebuildGraph] and [RecursivelyCreateNodes];
    - [SRefExplorer]: the widget's rebuild / refresh / notification handlers.

    Engine services that are not part of the plugin (the asset registry,
    [Algo::Sort], [FName::LexicalLess], [FMath], the numeric values of
    [EDependencyProperty]) are taken as parameters. *)

From Stdlib Require Import ZArith Lia Reals Lra.
From Stdlib Require OrderedTypeEx.
From stdpp Require Import base decidable option list sorting strings countable gmap sets.

Local Open Scope Z_scope.

(** ** Names *)

(** An [FName] is modelled by its text.  The engine compares names without
    regard to case ([FName::operator==]); [FName_eqb] is that comparison.
    The names the registry hands out (package, object and value names) are
    taken in one spelling each, so that for them equality of the texts is
    equality of the names. *)
Definition FName := string.
Definition NAME_None : FName := "None"%string.

Definition ToLower_ascii (c : Ascii.ascii) : Ascii.ascii :=
  let n := Ascii.nat_of_ascii c in
  if (65 <=? n)%nat && (n <=? 90)%nat then Ascii.ascii_of_nat (n + 32) else c.

Fixpoint ToLower (s : string) : string :=
  match s with
  | EmptyString => EmptyString
  | String c s => String (ToLower_ascii c) (ToLower s)
  end.

(** [FName::operator==] *)
Definition FName_eqb (A B : FName) : bool := String.eqb (ToLower A) (ToLower B).

(** ** Outcomes

    Engine code can stop on a failed [check], and two loops of the plugin need
    not terminate; both are kept apart from a normal return. *)
Inductive Outcome (A : Type) : Type :=
  | Done (a : A)
  | OutOfFuel
  | CheckFailed.
Arguments Done {A} a.
Arguments OutOfFuel {A}.
Arguments CheckFailed {A}.

#[global] Instance Outcome_ret : MRet Outcome := λ A a, Done a.
#[global] Instance Outcome_bind : MBind Outcome := λ A B k m,
  match m with
  | Done a => k a
  | OutOfFuel => OutOfFuel
  | CheckFailed => CheckFailed
  end.

(** ** Pin categories (namespace FRefExplorerEditorModule_PRIVATE) *)

Module FRefExplorerEditorModule_PRIVATE.

(** [enum class EDependencyPinCategory] with [ENUM_CLASS_FLAGS]. *)
Definition EDependencyPinCategory := Z.
Definition LinkEndPassive : EDependencyPinCategory := 0.
Definition LinkEndActive : EDependencyPinCategory := 1.
Definition LinkEndMask : EDependencyPinCategory := LinkEndActive.
Definition LinkTypeNone : EDependencyPinCategory := 0.
Definition LinkTypeUsedInGame : EDependencyPinCategory := 2.
Definition LinkTypeHard : EDependencyPinCategory := 4.
Definition LinkTypeMask : EDependencyPinCategory :=
  Z.lor LinkTypeHard LinkTypeUsedInGame.

Definition NamePassive : FName := "Passive"%string.
Definition NameHardUsedInGame : FName := "Hard"%string.
Definition NameHardEditorOnly : FName := "HardEditorOnly"%string.
Definition NameSoftUsedInGame : FName := "Soft"%string.
Definition NameSoftEditorOnly : FName := "SoftEditorOnly"%string.

(** A colour is kept as the constructor call that builds it:
    [FLinearColor(r, g, b)] or [FLinearColor(FColor(r, g, b))]. *)
Inductive FLinearColor : Type :=
  | LinearRGB (r g b : Z)
  | FromFColor (r g b : Z).

Definition ColorPassive := LinearRGB 128 128 128.
Definition ColorHardUsedInGame := FromFColor 236 252 227.
Definition ColorHardEditorOnly := FromFColor 118 126 114.
Definition ColorSoftUsedInGame := FromFColor 145 66 117.
Definition ColorSoftEditorOnly := FromFColor 73 33 58.

Definition ParseDependencyPinCategory (PinCategory : FName) : EDependencyPinCategory :=
  if FName_eqb PinCategory NameHardUsedInGame then
    Z.lor (Z.lor LinkEndActive LinkTypeHard) LinkTypeUsedInGame
  else if FName_eqb PinCategory NameHardEditorOnly then
    Z.lor LinkEndActive LinkTypeHard
  else if FName_eqb PinCategory NameSoftUsedInGame then
    Z.lor LinkEndActive LinkTypeUsedInGame
  else if FName_eqb PinCategory NameSoftEditorOnly then
    LinkEndActive
  else
    LinkEndPassive.

Definition GetName (Category : EDependencyPinCategory) : FName :=
  if Z.land Category LinkEndMask =? LinkEndPassive then NamePassive
  else
    let t := Z.land Category LinkTypeMask in
    if t =? Z.lor LinkTypeHard LinkTypeUsedInGame then NameHardUsedInGame
    else if t =? LinkTypeHard then NameHardEditorOnly
    else if t =? LinkTypeUsedInGame then NameSoftUsedInGame
    else NameSoftEditorOnly.

Definition GetColor (Category : EDependencyPinCategory) : FLinearColor :=
  if Z.land Category LinkEndMask =? LinkEndPassive then ColorPassive
  else
    let t := Z.land Category LinkTypeMask in
    if t =? Z.lor LinkTypeHard LinkTypeUsedInGame then ColorHardUsedInGame
    else if t =? LinkTypeHard then ColorHardEditorOnly
    else if t =? LinkTypeUsedInGame then ColorSoftUsedInGame
    else ColorSoftEditorOnly.

(** [FRefExplorerConnectionDrawingPolicy::DetermineWiringStyle]: the colour
    of the wire between an output and an input pin. *)
Definition DetermineWiringStyle (OutputPinCategory InputPinCategory : FName) : FLinearColor :=
  let OutputCategory := ParseDependencyPinCategory OutputPinCategory in
  let InputCategory := ParseDependencyPinCategory InputPinCategory in
  let Category :=
    if negb (Z.land OutputCategory LinkEndActive =? 0) then OutputCategory
    else InputCategory in
  GetColor Category.

End FRefExplorerEditorModule_PRIVATE.
Import FRefExplorerEditorModule_PRIVATE.

(** ** Asset identifiers and raw dependency records *)

Record FAssetIdentifier : Type := mkAssetId {
  PackageName : FName;
  ObjectName : FName;
  ValueName : FName;
}.

#[global] Instance FAssetIdentifier_eq_dec : EqDecision FAssetIdentifier.
Proof. solve_decision. Defined.

#[global] Instance FAssetIdentifier_countable : Countable FAssetIdentifier.
Proof.
  refine (inj_countable'
            (λ a, (PackageName a, ObjectName a, ValueName a))
            (λ t, mkAssetId t.1.1 t.1.2 t.2) _).
  by intros [].
Defined.

(** [FAssetIdentifier(FName InPackageName)] *)
Definition AssetId_of_package (p : FName) : FAssetIdentifier :=
  mkAssetId p NAME_None NAME_None.

Definition IsValue (a : FAssetIdentifier) : bool :=
  negb (String.eqb (ValueName a) NAME_None).

(** [UE::AssetRegistry::EDependencyCategory]: the enumerators a raw record is
    tagged with.  The engine's type is a flag enum that also has the values
    [None], [All] and every combination; the embedding of the classifier
    takes the records that carry one enumerator.  What the comparator does
    with the other values ([check(false)]) is [CategoryOrder_checked] and
    [LinkLess_checked] below. *)
Inductive EDependencyCategory : Type :=
  | Package
  | Manage
  | SearchableName.

#[global] Instance EDependencyCategory_eq_dec : EqDecision EDependencyCategory.
Proof. solve_decision. Defined.

(** [UE::AssetRegistry::EDependencyProperty] is a bit set; [None] is [0]. *)
Definition EDependencyProperty := Z.
Definition EDependencyProperty_None : EDependencyProperty := 0.

Record FAssetDependency : Type := mkDep {
  AssetId : FAssetIdentifier;
  Category : EDependencyCategory;
  Properties : EDependencyProperty;
}.

(** ** [TMap] with insertion-order iteration

    [GetSortedLinks] fills a [TMap] whose iteration order fixes the order of
    the root's children, so the map is an association list with one entry
    per key, new keys going to the end. *)
Section TMap.
Context {K V : Type} `{EqDecision K}.

Definition TMap := list (K * V).

Fixpoint Find (k : K) (m : TMap) : option V :=
  match m with
  | [] => None
  | (k', v) :: m' => if decide (k' = k) then Some v else Find k m'
  end.

Definition Contains (k : K) (m : TMap) : bool :=
  match Find k m with Some _ => true | None => false end.

(** [FindOrAdd(k, v0)]: the entry of [k], created with [v0] when absent. *)
Fixpoint FindOrAdd (k : K) (v0 : V) (m : TMap) : TMap :=
  match m with
  | [] => [(k, v0)]
  | (k', v) :: m' =>
      if decide (k' = k) then (k', v) :: m' else (k', v) :: FindOrAdd k v0 m'
  end.

(** Writing through the reference [FindOrAdd] returned. *)
Fixpoint Modify (k : K) (f : V → V) (m : TMap) : TMap :=
  match m with
  | [] => []
  | (k', v) :: m' =>
      if decide (k' = k) then (k', f v) :: m' else (k', v) :: Modify k f m'
  end.

Definition GenerateKeyArray (m : TMap) : list K := m.*1.

(** A [TIterator] pass that calls [RemoveCurrent] where [keep] is false. *)
Definition RemoveWhereNot (keep : K → bool) (m : TMap) : TMap :=
  List.filter (λ p, keep p.1) m.
End TMap.
Arguments TMap : clear implicits.


(** ** Engine services *)

(** What the plugin uses of the engine's core library.  The values of the
    [EDependencyProperty] flags live in an engine header, [LexicalLess] is
    [FName::LexicalLess], and [Algo_Sort] is [Algo::Sort] (an unstable
    comparison sort). *)
Class Engine : Type := {
  EDependencyProperty_Hard : EDependencyProperty;
  EDependencyProperty_Game : EDependencyProperty;
  EDependencyProperty_Direct : EDependencyProperty;
  LexicalLess : FName → FName → bool;
  Algo_Sort : ∀ T : Type, (T → T → bool) → list T → list T;
}.

Record FAssetPackageData : Type := { DiskSize : Z }.

Record FAssetData : Type := mkAssetData {
  Asset_PackageName : FName;
  Asset_AssetName : FName;
  Asset_AssetClassPath : FName;
  Asset_IsRedirector : bool;
}.

(** [FAssetData()] *)
Definition FAssetData_default : FAssetData :=
  mkAssetData NAME_None NAME_None NAME_None false.

(** The asset registry as the plugin queries it.  [GetReferencers] is the
    overload that fills a [TArray<FAssetDependency>], [GetReferencerIds] the
    one that fills a [TArray<FAssetIdentifier>]; both are always called with
    [EDependencyQuery::NoRequirements]. *)
Record IAssetRegistry : Type := {
  GetReferencers : FAssetIdentifier → list EDependencyCategory → list FAssetDependency;
  GetReferencerIds : FAssetIdentifier → list EDependencyCategory → list FAssetIdentifier;
  GetAssetPackageDataCopy : FName → option FAssetPackageData;
  GetAssetsByPackageName : FName → list FAssetData;
  GetAssetForPackages : gset FName → gmap FName FAssetData;
}.

(** ** [UEdGraph_RefExplorer::GetSortedLinks] *)

Section GetSortedLinks.
Context {E : Engine} (AssetRegistry : IAssetRegistry).

(** The lambda [CategoryOrder] on the three enumerators.  Its branch
    [default: check(false)] is reached by the other values of the flag enum
    only; [CategoryOrder_checked] is the lambda on every value. *)
Definition CategoryOrder (InCategory : EDependencyCategory) : Z :=
  match InCategory with
  | Package => 0
  | Manage => 1
  | SearchableName => 2
  end.

(** The lambda [IsHard]. *)
Definition IsHard (Props : EDependencyProperty) : bool :=
  negb (Z.land Props EDependencyProperty_Hard =? EDependencyProperty_None)
  || negb (Z.land Props EDependencyProperty_Direct =? EDependencyProperty_None).

(** The comparator handed to [Algo::Sort]. *)
Definition LinkLess (A B : FAssetDependency) : bool :=
  if negb (bool_decide (Category A = Category B)) then
    CategoryOrder (Category A) <? CategoryOrder (Category B)
  else
    let byName := LexicalLess (PackageName (AssetId A)) (PackageName (AssetId B)) in
    if negb (Properties A =? Properties B) then
      let bAIsHard := IsHard (Properties A) in
      let bBIsHard := IsHard (Properties B) in
      if negb (eqb bAIsHard bBIsHard) then bAIsHard else byName
    else byName.

(** [EDependencyCategory Categories = Package | Manage] *)
Definition Categories : list EDependencyCategory := [Package; Manage].

(** One round of the loop over the sorted records. *)
Definition AccumulateLink (OutLinks : TMap FAssetIdentifier EDependencyPinCategory)
    (LinkToAsset : FAssetDependency) : TMap FAssetIdentifier EDependencyPinCategory :=
  let OutLinks := FindOrAdd (AssetId LinkToAsset) LinkEndActive OutLinks in
  let bIsHard := IsHard (Properties LinkToAsset) in
  let bIsUsedInGame :=
    negb (bool_decide (Category LinkToAsset = Package))
    || negb (Z.land (Properties LinkToAsset) EDependencyProperty_Game =? EDependencyProperty_None) in
  Modify (AssetId LinkToAsset)
    (λ Category,
       let Category := Z.lor Category LinkEndActive in
       let Category := Z.lor Category (if bIsHard then LinkTypeHard else LinkTypeNone) in
       Z.lor Category (if bIsUsedInGame then LinkTypeUsedInGame else LinkTypeNone))
    OutLinks.

Definition AccumulateLinks (OutLinks : TMap FAssetIdentifier EDependencyPinCategory)
    (LinksToAsset : list FAssetDependency) : TMap FAssetIdentifier EDependencyPinCategory :=
  foldl AccumulateLink OutLinks LinksToAsset.

(** [TArray::RemoveAt(Index)] and [TArray::Insert(Items, Index)]. *)
Definition RemoveAt {A} (Index : Z) (l : list A) : list A :=
  take (Z.to_nat Index) l ++ drop (S (Z.to_nat Index)) l.
Definition Insert {A} (Items : list A) (Index : Z) (l : list A) : list A :=
  take (Z.to_nat Index) l ++ Items ++ drop (Z.to_nat Index) l.

(** [!assetPackageData.GetPtrOrNull() || assetPackageData.GetPtrOrNull()->DiskSize < 0] *)
Definition BadPackage (Name : FName) : bool :=
  match GetAssetPackageDataCopy AssetRegistry Name with
  | None => true
  | Some assetPackageData => DiskSize assetPackageData <? 0
  end.

(** The body of the loop over [ReferenceIds]: the new array and the value
    [Index] has when the body ends (before the loop's own [Index++]). *)
Definition FilterBody (ReferenceIds : list FAssetIdentifier) (Index : Z)
    (Id : FAssetIdentifier) : list FAssetIdentifier * Z :=
  let Name := PackageName Id in
  if negb (String.eqb Name NAME_None) then
    if BadPackage Name then
      let ReferenceIds := RemoveAt Index ReferenceIds in
      let Assets := GetAssetsByPackageName AssetRegistry Name in
      let ReferenceIds :=
        match List.find Asset_IsRedirector Assets with
        | Some _ =>
            let FoundReferences :=
              GetReferencerIds AssetRegistry (AssetId_of_package Name) Categories in
            Insert FoundReferences Index ReferenceIds
        | None => ReferenceIds
        end in
      (ReferenceIds, Index - 1)
    else (ReferenceIds, Index)
  else (ReferenceIds, Index).

(** [for (int32 Index = ...; Index < ReferenceIds.Num(); Index++)].  The
    array can grow in the body, so the loop runs on fuel. *)
Fixpoint FilterLoop (fuel : nat) (ReferenceIds : list FAssetIdentifier) (Index : Z)
    : Outcome (list FAssetIdentifier) :=
  match fuel with
  | O => OutOfFuel
  | S fuel =>
      if Index <? Z.of_nat (length ReferenceIds) then
        match ReferenceIds !! Z.to_nat Index with
        | None => CheckFailed
        | Some Id =>
            let '(ReferenceIds, Index) := FilterBody ReferenceIds Index Id in
            FilterLoop fuel ReferenceIds (Index + 1)
        end
      else Done ReferenceIds
  end.

(** The sort and the accumulation into [OutLinks], which is empty on entry. *)
Definition ClassifyLinks (LinksToAsset : list FAssetDependency)
    : TMap FAssetIdentifier EDependencyPinCategory :=
  let LinksToAsset := Algo_Sort _ LinkLess LinksToAsset in
  AccumulateLinks [] LinksToAsset.

Definition GetSortedLinks (fuel : nat) (GraphRootIdentifier : FAssetIdentifier)
    : Outcome (TMap FAssetIdentifier EDependencyPinCategory) :=
  let LinksToAsset := GetReferencers AssetRegistry GraphRootIdentifier Categories in
  let OutLinks := ClassifyLinks LinksToAsset in
  let ReferenceIds := GenerateKeyArray OutLinks in
  ReferenceIds ← FilterLoop fuel ReferenceIds 0;
  mret (RemoveWhereNot (λ Key, bool_decide (Key ∈ ReferenceIds)) OutLinks).

End GetSortedLinks.

(** A record as the array [LinksToAsset] holds it: its category is a value
    of the flag enum, an enumerator's or any other. *)
Record FAssetDependency_raw : Type := mkRaw {
  Raw_AssetId : FAssetIdentifier;
  Raw_Category : Z;
  Raw_Properties : EDependencyProperty;
}.

Section CheckedComparator.
Context {E : Engine}.
(** The values of the enumerators are the engine's. *)
Context (ValueOf : EDependencyCategory → Z).

(** The lambda [CategoryOrder], with its branch [default: check(false)]. *)
Definition CategoryOrder_checked (InCategory : Z) : Outcome Z :=
  if InCategory =? ValueOf Package then Done 0
  else if InCategory =? ValueOf Manage then Done 1
  else if InCategory =? ValueOf SearchableName then Done 2
  else CheckFailed.

(** The comparator handed to [Algo::Sort], with the check. *)
Definition LinkLess_checked (A B : FAssetDependency_raw) : Outcome bool :=
  if negb (Raw_Category A =? Raw_Category B) then
    OrderA ← CategoryOrder_checked (Raw_Category A);
    OrderB ← CategoryOrder_checked (Raw_Category B);
    mret (OrderA <? OrderB)
  else
    let byName :=
      LexicalLess (PackageName (Raw_AssetId A)) (PackageName (Raw_AssetId B)) in
    if negb (Raw_Properties A =? Raw_Properties B) then
      let bAIsHard := IsHard (Raw_Properties A) in
      let bBIsHard := IsHard (Raw_Properties B) in
      if negb (eqb bAIsHard bBIsHard) then mret bAIsHard else mret byName
    else mret byName.

Definition IsEnumerator (v : Z) : bool :=
  (v =? ValueOf Package) || (v =? ValueOf Manage) || (v =? ValueOf SearchableName).

(** A record of the embedding, as the array holds it. *)
Definition Raw (L : FAssetDependency) : FAssetDependency_raw :=
  mkRaw (AssetId L) (ValueOf (Category L)) (Properties L).

End CheckedComparator.

(** ** Node table and visual nodes *)

(** [FRefExplorerNodeInfo] *)
Record FRefExplorerNodeInfo : Type := mkNodeInfo {
  NodeInfo_AssetId : FAssetIdentifier;
  NodeInfo_AssetData : FAssetData;
  Children : list (FAssetIdentifier * EDependencyPinCategory);
  Parents : gset FAssetIdentifier;
}.

(** [FRefExplorerNodeInfo(const FAssetIdentifier& InAssetId)] *)
Definition NewNodeInfo (InAssetId : FAssetIdentifier) : FRefExplorerNodeInfo :=
  mkNodeInfo InAssetId FAssetData_default [] ∅.

Definition AddParent (P : FAssetIdentifier) (ni : FRefExplorerNodeInfo) : FRefExplorerNodeInfo :=
  mkNodeInfo (NodeInfo_AssetId ni) (NodeInfo_AssetData ni) (Children ni) ({[P]} ∪ Parents ni).
Definition EmplaceChild (Pair : FAssetIdentifier * EDependencyPinCategory)
    (ni : FRefExplorerNodeInfo) : FRefExplorerNodeInfo :=
  mkNodeInfo (NodeInfo_AssetId ni) (NodeInfo_AssetData ni) (Children ni ++ [Pair]) (Parents ni).
Definition SetAssetData (d : FAssetData) (ni : FRefExplorerNodeInfo) : FRefExplorerNodeInfo :=
  mkNodeInfo (NodeInfo_AssetId ni) d (Children ni) (Parents ni).

(** A pin; the pins it is linked to are named by the index of their node in
    the graph's [Nodes] array. *)
Record UEdGraphPin : Type := mkPin {
  PinCategory : FName;
  bHidden : bool;
  LinkedTo : list nat;
}.

(** [UEdGraphNode_RefExplorer], without title, icon and thumbnail;
    [SetupAssetData] is the [InAssetData] the node was set up with. *)
Record UEdGraphNode_RefExplorer : Type := mkNode {
  NodePosX : Z;
  NodePosY : Z;
  Identifier : FAssetIdentifier;
  SetupAssetData : FAssetData;
  DependencyPin : UEdGraphPin;
  ReferencerPin : UEdGraphPin;
}.

(** [UEdGraph_RefExplorer] *)
Record UEdGraph_RefExplorer : Type := mkGraph {
  CurrentGraphRootIdentifier : FAssetIdentifier;
  CurrentGraphRootOrigin : Z * Z;
  RefExplorerNodeInfos : gmap FAssetIdentifier FRefExplorerNodeInfo;
  Nodes : list UEdGraphNode_RefExplorer;
}.

(** The plugin holds the graph code twice: [UEdGraph_RefExplorer] and
    [UEdGraph_ReferenceExplorer].  The two differ in the names and in how
    [RecursivelyCreateNodes] places a child. *)
Inductive Implementation : Type :=
  | RefExplorer
  | ReferenceExplorer.

(** [FMath] and the arithmetic of [float], with the conversions C++ inserts
    between [int32] and [float]. *)
Class FMath : Type := {
  float : Type;
  UE_PI : float;
  float_of_int32 : Z → float;
  int32_of_float : float → Z;
  fadd : float → float → float;
  fsub : float → float → float;
  fmul : float → float → float;
  fdiv : float → float → float;
  FMath_Cos : float → float;
  FMath_Sin : float → float;
  FMath_Abs : float → float;
  FMath_Max : float → float → float;
}.

(** [int32] arithmetic: the result of an operation is brought back into
    [-2^31, 2^31) by two's-complement wrap-around, which is what the
    compiled code does. *)
Definition Int32 (z : Z) : Z := (z + 2147483648) mod 4294967296 - 2147483648.

Section Layout.
Context {M : FMath}.

Definition WidthStep : Z := 256.
Definition HeightStep : Z := 400.
Definition NodeRadius : Z := 400.

(** [Num] is [InNodeInfos[InAssetId].Children.Num()]. *)
Definition DeltaAngle (Num : Z) : float := fdiv UE_PI (float_of_int32 Num).
Definition LastAngle (Num : Z) : float :=
  fmul (DeltaAngle Num) (float_of_int32 (if Num =? 1 then 0 else Num - 1)).
Definition Radius (Step Num : Z) : float :=
  fdiv (float_of_int32 Step)
    (FMath_Max (FMath_Abs (fsub (float_of_int32 1) (FMath_Cos (DeltaAngle Num))))
               (FMath_Abs (FMath_Sin (DeltaAngle Num)))).
Definition AccumAngle (Num ChildIdx : Z) : float :=
  fmul (float_of_int32 ChildIdx) (DeltaAngle Num).
(** [AccumAngle + (UE_PI - LastAngle / 2)] *)
Definition ChildAngle (Num ChildIdx : Z) : float :=
  fadd (AccumAngle Num ChildIdx) (fsub UE_PI (fdiv (LastAngle Num) (float_of_int32 2))).

(** The two assignments to [ChildLoc] in the loop of [RecursivelyCreateNodes].
    [ChildIdx] and [Num] are an index and the length of a [TArray], so
    [Min (ChildIdx, Num - ChildIdx - 1) + 1] stays in range; the product
    with [WidthStep] and the difference are [int32] operations. *)
Definition ChildLoc (impl : Implementation) (InNodeLoc : Z * Z) (Num ChildIdx : Z) : Z * Z :=
  match impl with
  | RefExplorer =>
      (Int32 (InNodeLoc.1 - Int32 ((Z.min ChildIdx (Num - ChildIdx - 1) + 1) * WidthStep)),
       int32_of_float
         (fsub (float_of_int32 InNodeLoc.2)
               (fmul (Radius HeightStep Num) (FMath_Sin (ChildAngle Num ChildIdx)))))
  | ReferenceExplorer =>
      (int32_of_float
         (fadd (float_of_int32 InNodeLoc.1)
               (fmul (Radius NodeRadius Num) (FMath_Cos (ChildAngle Num ChildIdx)))),
       int32_of_float
         (fsub (float_of_int32 InNodeLoc.2)
               (fmul (Radius NodeRadius Num) (FMath_Sin (ChildAngle Num ChildIdx)))))
  end.

End Layout.

(** ** Creating visual nodes *)

(** [AllocateDefaultPins]: both pins hidden and named after [LinkEndPassive]. *)
Definition AllocateDefaultPins : UEdGraphPin :=
  mkPin (GetName LinkEndPassive) true [].

(** [CreateNode] followed by [SetupRefExplorerNode]: the node is appended to
    [Nodes]; its index stands for the pointer the code returns. *)
Definition CreateAndSetupNode (NodeLoc : Z * Z) (NewIdentifier : FAssetIdentifier)
    (InAssetData : FAssetData) (Nodes : list UEdGraphNode_RefExplorer)
    : list UEdGraphNode_RefExplorer * nat :=
  (Nodes ++ [mkNode NodeLoc.1 NodeLoc.2 NewIdentifier InAssetData
               AllocateDefaultPins AllocateDefaultPins],
   length Nodes).

Definition SetDependencyPinCategory (c : FName) (n : UEdGraphNode_RefExplorer) :=
  mkNode (NodePosX n) (NodePosY n) (Identifier n) (SetupAssetData n)
    (mkPin c (bHidden (DependencyPin n)) (LinkedTo (DependencyPin n))) (ReferencerPin n).

(** [UEdGraphPin::MakeLinkTo] adds the other pin once. *)
Definition MakeLinkTo (other : nat) (p : UEdGraphPin) : UEdGraphPin :=
  mkPin (PinCategory p) (bHidden p)
    (if bool_decide (other ∈ LinkedTo p) then LinkedTo p else LinkedTo p ++ [other]).
Definition Unhide (p : UEdGraphPin) : UEdGraphPin :=
  mkPin (PinCategory p) false (LinkedTo p).

(** [This->AddReferencer(ReferencerNode)], on node indices. *)
Definition AddReferencer (This ReferencerNode : nat)
    (Nodes : list UEdGraphNode_RefExplorer) : list UEdGraphNode_RefExplorer :=
  let Nodes :=
    alter (λ n, mkNode (NodePosX n) (NodePosY n) (Identifier n) (SetupAssetData n)
                  (MakeLinkTo This (Unhide (DependencyPin n))) (ReferencerPin n))
          ReferencerNode Nodes in
  alter (λ n, mkNode (NodePosX n) (NodePosY n) (Identifier n) (SetupAssetData n)
                (DependencyPin n) (MakeLinkTo ReferencerNode (Unhide (ReferencerPin n))))
        This Nodes.

Section Graph.
Context {E : Engine} {M : FMath} (AssetRegistry : IAssetRegistry) (impl : Implementation).

(** The [for] loop over the children of [RecursivelyCreateNodes]; [recurse] is
    the recursive call, [loc ChildIdx] the child's location. *)
Fixpoint CreateChildren
    (recurse : FAssetIdentifier → Z * Z → list UEdGraphNode_RefExplorer →
               Outcome (list UEdGraphNode_RefExplorer * nat))
    (loc : Z → Z * Z) (NewNode : nat)
    (Rest : list (FAssetIdentifier * EDependencyPinCategory)) (ChildIdx : Z)
    (Nodes : list UEdGraphNode_RefExplorer) : Outcome (list UEdGraphNode_RefExplorer) :=
  match Rest with
  | [] => Done Nodes
  | Pair :: Rest =>
      r ← recurse Pair.1 (loc ChildIdx) Nodes;
      let Nodes := alter (SetDependencyPinCategory (GetName Pair.2)) r.2 r.1 in
      let Nodes := AddReferencer NewNode r.2 Nodes in
      CreateChildren recurse loc NewNode Rest (ChildIdx + 1) Nodes
  end.

(** [RecursivelyCreateNodes]; the recursion follows the table, so it runs on
    fuel.  [check(InNodeInfos.Contains(InAssetId))] is the [CheckFailed].
    The parameter [InParentId], which the body never reads, is left out. *)
Fixpoint RecursivelyCreateNodes (fuel : nat) (InAssetId : FAssetIdentifier)
    (InNodeLoc : Z * Z) (InParentNode : nat)
    (InNodeInfos : gmap FAssetIdentifier FRefExplorerNodeInfo) (bIsRoot : bool)
    (Nodes : list UEdGraphNode_RefExplorer)
    : Outcome (list UEdGraphNode_RefExplorer * nat) :=
  match fuel with
  | O => OutOfFuel
  | S fuel =>
      match InNodeInfos !! InAssetId with
      | None => CheckFailed
      | Some NodeInfo =>
          let '(Nodes, NewNode) :=
            if bIsRoot then (Nodes, InParentNode)
            else CreateAndSetupNode InNodeLoc InAssetId (NodeInfo_AssetData NodeInfo) Nodes in
          let Num := Z.of_nat (length (Children NodeInfo)) in
          Nodes ← CreateChildren
                    (λ ChildId ChildLoc Nodes,
                       RecursivelyCreateNodes fuel ChildId ChildLoc NewNode InNodeInfos false Nodes)
                    (ChildLoc impl InNodeLoc Num) NewNode (Children NodeInfo) 0 Nodes;
          mret (Nodes, NewNode)
      end
  end.

(** One round of the loop over [ReferenceLinks] in [RebuildGraph]. *)
Definition PopulateLink (Root : FAssetIdentifier)
    (Infos : gmap FAssetIdentifier FRefExplorerNodeInfo)
    (Pair : FAssetIdentifier * EDependencyPinCategory)
    : gmap FAssetIdentifier FRefExplorerNodeInfo :=
  let ChildId := Pair.1 in
  match Infos !! ChildId with
  | None =>
      let Infos := <[ChildId := NewNodeInfo ChildId]> Infos in
      let Infos := alter (AddParent Root) ChildId Infos in
      alter (EmplaceChild Pair) Root Infos
  | Some ChildInfo =>
      if negb (bool_decide (Root ∈ Parents ChildInfo)) then
        let Infos := alter (AddParent Root) ChildId Infos in
        alter (EmplaceChild Pair) Root Infos
      else Infos
  end.

(** The package names handed to [GetAssetForPackages]. *)
Definition AllPackageNames (Infos : gmap FAssetIdentifier FRefExplorerNodeInfo) : gset FName :=
  set_map PackageName
    (filter (λ Key, IsValue Key = false ∧ PackageName Key ≠ NAME_None) (dom Infos)).

(** [InfoPair.Value.AssetData = PackagesToAssetDataMap.FindRef(InfoPair.Key.PackageName)] *)
Definition AttachAssetData (PackagesToAssetDataMap : gmap FName FAssetData)
    (Infos : gmap FAssetIdentifier FRefExplorerNodeInfo)
    : gmap FAssetIdentifier FRefExplorerNodeInfo :=
  map_imap (λ Key Info,
              Some (SetAssetData
                      (default FAssetData_default (PackagesToAssetDataMap !! PackageName Key))
                      Info))
           Infos.

(** The table [RebuildGraph] has built when it starts to create nodes. *)
Definition BuildNodeInfos (Root : FAssetIdentifier)
    (ReferenceLinks : TMap FAssetIdentifier EDependencyPinCategory)
    : gmap FAssetIdentifier FRefExplorerNodeInfo :=
  let Infos : gmap FAssetIdentifier FRefExplorerNodeInfo := ∅ in
  let Infos := <[Root := NewNodeInfo Root]> Infos in
  let Infos := foldl (PopulateLink Root) Infos ReferenceLinks in
  AttachAssetData (GetAssetForPackages AssetRegistry (AllPackageNames Infos)) Infos.

(** [UEdGraph_RefExplorer::RebuildGraph]: the new graph and [RootNode]. *)
Definition RebuildGraph (fuel : nat) (G : UEdGraph_RefExplorer)
    : Outcome (UEdGraph_RefExplorer * option nat) :=
  let Root := CurrentGraphRootIdentifier G in
  let Origin := CurrentGraphRootOrigin G in
  let Nodes : list UEdGraphNode_RefExplorer := [] in
  ReferenceLinks ← GetSortedLinks AssetRegistry fuel Root;
  let Infos := BuildNodeInfos Root ReferenceLinks in
  if bool_decide (Infos = ∅) then
    mret (mkGraph Root Origin Infos Nodes, None)
  else
    match Infos !! Root with
    | None => CheckFailed
    | Some NodeInfo =>
        let '(Nodes, RootNode) :=
          CreateAndSetupNode Origin Root (NodeInfo_AssetData NodeInfo) Nodes in
        r ← RecursivelyCreateNodes fuel Root Origin RootNode Infos true Nodes;
        mret (mkGraph Root Origin Infos r.1, Some RootNode)
    end.

End Graph.

(** ** The widget [SRefExplorer] *)

(** The asset-registry module as the widget sees it: the query interface,
    whether the initial scan is still running, and for each multicast
    delegate the objects bound to it (one entry per binding). *)
Record FAssetRegistryModule : Type := mkModule {
  Registry : IAssetRegistry;
  IsLoadingAssets : bool;
  OnFilesLoaded : list nat;
  OnAssetUpdated : list nat;
  OnAssetAdded : list nat;
  OnAssetRemoved : list nat;
}.

Record SRefExplorer : Type := mkWidget {
  GraphObj : option UEdGraph_RefExplorer;
  bDirtyResults : bool;
  AssetRefreshHandle_IsValid : bool;
}.

(** [UEdGraph_RefExplorer::SetGraphRoot]; [GraphRootOrigin] defaults to
    [FIntPoint(ForceInitToZero)]. *)
Definition SetGraphRoot (GraphRootIdentifier : FAssetIdentifier) (GraphRootOrigin : Z * Z)
    (G : UEdGraph_RefExplorer) : UEdGraph_RefExplorer :=
  mkGraph GraphRootIdentifier GraphRootOrigin (RefExplorerNodeInfos G) (Nodes G).

Section Widget.
Context {E : Engine} {M : FMath} (impl : Implementation).
(** [this], as the delegates know it. *)
Variable this : nat.

Definition World : Type := FAssetRegistryModule * SRefExplorer.

(** [SRefExplorer::RebuildGraph] *)
Definition SRefExplorer_RebuildGraph (fuel : nat) (s : World) : Outcome World :=
  let '(ARM, W) := s in
  if IsLoadingAssets ARM then
    if negb (bool_decide (this ∈ OnFilesLoaded ARM)) then
      mret (mkModule (Registry ARM) (IsLoadingAssets ARM) (OnFilesLoaded ARM ++ [this])
              (OnAssetUpdated ARM) (OnAssetAdded ARM) (OnAssetRemoved ARM), W)
    else mret (ARM, W)
  else
    G ← match GraphObj W with
        | Some G => r ← RebuildGraph (Registry ARM) impl fuel G; mret (Some r.1)
        | None => mret None
        end;
    if negb (AssetRefreshHandle_IsValid W) then
      mret (mkModule (Registry ARM) (IsLoadingAssets ARM) (OnFilesLoaded ARM)
              (OnAssetUpdated ARM ++ [this]) (OnAssetAdded ARM ++ [this])
              (OnAssetRemoved ARM ++ [this]),
            mkWidget G false true)
    else mret (ARM, mkWidget G false (AssetRefreshHandle_IsValid W)).

(** [SRefExplorer::SetGraphRootIdentifier]; [GraphObj] is dereferenced
    without a test. *)
Definition SetGraphRootIdentifier (fuel : nat) (NewGraphRootIdentifier : FAssetIdentifier)
    (s : World) : Outcome World :=
  let '(ARM, W) := s in
  match GraphObj W with
  | None => CheckFailed
  | Some G =>
      SRefExplorer_RebuildGraph fuel
        (ARM, mkWidget (Some (SetGraphRoot NewGraphRootIdentifier (0, 0) G))
                (bDirtyResults W) (AssetRefreshHandle_IsValid W))
  end.

(** [SRefExplorer::RefreshClicked] *)
Definition RefreshClicked (fuel : nat) (s : World) : Outcome World :=
  SRefExplorer_RebuildGraph fuel s.

(** [SRefExplorer::OnAssetRegistryChanged], bound to [OnAssetUpdated],
    [OnAssetAdded] and [OnAssetRemoved]. *)
Definition OnAssetRegistryChanged (AssetData : FAssetData) (s : World) : World :=
  let '(ARM, W) := s in
  (ARM, mkWidget (GraphObj W) true (AssetRefreshHandle_IsValid W)).

(** [SRefExplorer::OnInitialAssetRegistrySearchComplete] *)
Definition OnInitialAssetRegistrySearchComplete (fuel : nat) (s : World) : Outcome World :=
  let '(ARM, W) := s in
  match GraphObj W with
  | Some G =>
      r ← RebuildGraph (Registry ARM) impl fuel G;
      mret (ARM, mkWidget (Some r.1) (bDirtyResults W) (AssetRefreshHandle_IsValid W))
  | None => mret (ARM, W)
  end.

(** [SRefExplorer::OnNodeDoubleClicked], for a node of the graph. *)
Definition OnNodeDoubleClicked (fuel : nat) (Node : UEdGraphNode_RefExplorer)
    (s : World) : Outcome World :=
  let '(ARM, W) := s in
  match GraphObj W with
  | Some G =>
      r ← RebuildGraph (Registry ARM) impl fuel (SetGraphRoot (Identifier Node) (0, 0) G);
      mret (ARM, mkWidget (Some r.1) (bDirtyResults W) (AssetRefreshHandle_IsValid W))
  | None => mret (ARM, W)
  end.

(** [SRefExplorer::OnFindPathAssetSelected]; [GraphObj] is dereferenced
    without a test. *)
Definition OnFindPathAssetSelected (fuel : nat) (AssetData : FAssetData) (s : World)
    : Outcome World :=
  let '(ARM, W) := s in
  match GraphObj W with
  | None => CheckFailed
  | Some G =>
      r ← RebuildGraph (Registry ARM) impl fuel
             (SetGraphRoot (AssetId_of_package (Asset_PackageName AssetData)) (0, 0) G);
      mret (ARM, mkWidget (Some r.1) (bDirtyResults W) (AssetRefreshHandle_IsValid W))
  end.

(** [SRefExplorer::OnFindPathAssetEnterPressed] *)
Definition OnFindPathAssetEnterPressed (fuel : nat) (AssetData : list FAssetData) (s : World)
    : Outcome World :=
  let '(ARM, W) := s in
  match AssetData with
  | AssetData_0 :: _ =>
      match GraphObj W with
      | None => CheckFailed
      | Some G =>
          r ← RebuildGraph (Registry ARM) impl fuel
                 (SetGraphRoot (AssetId_of_package (Asset_PackageName AssetData_0)) (0, 0) G);
          mret (ARM, mkWidget (Some r.1) (bDirtyResults W) (AssetRefreshHandle_IsValid W))
      end
  | [] => mret (ARM, W)
  end.

(** The registry finishes its scan and broadcasts [OnFilesLoaded]: the
    handler runs once for every binding of [this]. *)
Fixpoint Broadcast (fuel : nat) (Bound : list nat) (s : World) : Outcome World :=
  match Bound with
  | [] => mret s
  | o :: Bound =>
      s ← (if bool_decide (o = this)
           then OnInitialAssetRegistrySearchComplete fuel s else mret s);
      Broadcast fuel Bound s
  end.

Definition FilesLoaded (fuel : nat) (s : World) : Outcome World :=
  let '(ARM, W) := s in
  Broadcast fuel (OnFilesLoaded ARM)
    (mkModule (Registry ARM) false (OnFilesLoaded ARM)
       (OnAssetUpdated ARM) (OnAssetAdded ARM) (OnAssetRemoved ARM), W).

(** The requests that reach [SRefExplorer::RebuildGraph]. *)
Inductive RebuildRequest : Type :=
  | ReqSetGraphRootIdentifier (NewGraphRootIdentifier : FAssetIdentifier)
  | ReqRefreshClicked.

Definition Request (fuel : nat) (r : RebuildRequest) (s : World) : Outcome World :=
  match r with
  | ReqSetGraphRootIdentifier Id => SetGraphRootIdentifier fuel Id s
  | ReqRefreshClicked => RefreshClicked fuel s
  end.

Fixpoint Requests (fuel : nat) (rs : list RebuildRequest) (s : World) : Outcome World :=
  match rs with
  | [] => mret s
  | r :: rs => s ← Request fuel r s; Requests fuel rs s
  end.

(** Everything that makes the widget rebuild its graph: the requests above,
    a double click on a node, and the two handlers of the find-path
    picker, which call [GraphObj->RebuildGraph()] themselves. *)
Inductive RebuildTrigger : Type :=
  | ByRequest (r : RebuildRequest)
  | ByNodeDoubleClicked (Node : UEdGraphNode_RefExplorer)
  | ByFindPathAssetSelected (AssetData : FAssetData)
  | ByFindPathAssetEnterPressed (AssetData : list FAssetData).

Definition Trigger (fuel : nat) (t : RebuildTrigger) (s : World) : Outcome World :=
  match t with
  | ByRequest r => Request fuel r s
  | ByNodeDoubleClicked Node => OnNodeDoubleClicked fuel Node s
  | ByFindPathAssetSelected AssetData => OnFindPathAssetSelected fuel AssetData s
  | ByFindPathAssetEnterPressed AssetData => OnFindPathAssetEnterPressed fuel AssetData s
  end.

End Widget.

(** * Properties *)

(** ** [TMap] *)

Section TMapFacts.
Context {K V : Type} `{EqDecision K}.
Implicit Types (m : TMap K V) (k : K) (v : V).

Lemma Find_FindOrAdd k k' v0 m :
  Find k' (FindOrAdd k v0 m) =
  if decide (k = k') then Some (default v0 (Find k m)) else Find k' m.
Proof.
  induction m as [|[k1 v1] m IH]; simpl.
  - repeat case_decide; congruence.
  - destruct (decide (k1 = k)); simpl;
      destruct (decide (k1 = k')), (decide (k = k')); simplify_eq/=;
      rewrite ?IH; repeat case_decide; try done.
Qed.

Lemma Find_Modify k k' f m :
  Find k' (Modify k f m) = if decide (k = k') then f <$> Find k m else Find k' m.
Proof.
  induction m as [|[k1 v1] m IH]; simpl.
  - by case_decide.
  - destruct (decide (k1 = k)); simpl;
      destruct (decide (k1 = k')), (decide (k = k')); simplify_eq/=;
      rewrite ?IH; repeat case_decide; try done.
Qed.

Lemma keys_FindOrAdd k v0 m :
  (FindOrAdd k v0 m).*1 = if bool_decide (k ∈ m.*1) then m.*1 else m.*1 ++ [k].
Proof.
  induction m as [|[k1 v1] m IH]; simpl; [done|].
  destruct (decide (k1 = k)); simplify_eq/=.
  - rewrite bool_decide_eq_true_2; [done|set_solver].
  - rewrite IH. repeat case_bool_decide; set_solver.
Qed.

Lemma keys_Modify k f m : (Modify k f m).*1 = m.*1.
Proof.
  induction m as [|[k1 v1] m IH]; simpl; [done|].
  destruct (decide (k1 = k)); simpl; [done | f_equal; exact IH].
Qed.

Lemma Find_Some_elem_of k v m : Find k m = Some v → (k, v) ∈ m.
Proof.
  induction m as [|[k1 v1] m IH]; simpl; [done|].
  case_decide; intros; simplify_eq; [left|right; auto].
Qed.

Lemma Find_None k m : Find k m = None ↔ k ∉ m.*1.
Proof.
  induction m as [|[k1 v1] m IH]; simpl; [set_solver|].
  case_decide; simplify_eq; [set_solver|].
  rewrite IH. set_solver.
Qed.

Lemma elem_of_Find k v m : NoDup m.*1 → (k, v) ∈ m → Find k m = Some v.
Proof.
  induction m as [|[k1 v1] m IH]; simpl; [set_solver|].
  rewrite NoDup_cons. intros [Hk Hnd] Hin.
  apply elem_of_cons in Hin as [?|Hin]; simplify_eq.
  - by rewrite decide_True.
  - case_decide; simplify_eq; [|by auto].
    destruct Hk. apply list_elem_of_fmap. by exists (k, v).
Qed.

Lemma Find_RemoveWhereNot k keep m :
  Find k (RemoveWhereNot keep m) = if keep k then Find k m else None.
Proof.
  induction m as [|[k1 v1] m IH]; [by destruct (keep k)|].
  cbn [RemoveWhereNot List.filter fst Find] in *.
  destruct (keep k1) eqn:Hk1; cbn [Find]; rewrite ?IH;
    destruct (decide (k1 = k)); simplify_eq; rewrite ?Hk1; try done.
  by rewrite Hk1 in IH.
Qed.

End TMapFacts.

(** ** The contract of the engine's sort *)

(** A strict weak ordering, as [Algo::Sort] expects of its predicate. *)
Record StrictWeakOrder {T : Type} (less : T → T → bool) : Prop := {
  swo_irrefl : ∀ a, less a a = false;
  swo_trans : ∀ a b c, less a b = true → less b c = true → less a c = true;
  swo_incomp : ∀ a b c, less a c = true → less a b = true ∨ less b c = true;
}.

(** [Algo::Sort] rearranges the array so that no element is less than one
    before it; [FName::LexicalLess] is a strict weak ordering. *)
Class EngineLaws (E : Engine) : Prop := {
  LexicalLess_swo : StrictWeakOrder LexicalLess;
  Algo_Sort_Permutation : ∀ (T : Type) (less : T → T → bool) (l : list T),
    StrictWeakOrder less → Algo_Sort T less l ≡ₚ l;
  Algo_Sort_Sorted : ∀ (T : Type) (less : T → T → bool) (l : list T),
    StrictWeakOrder less →
    StronglySorted (λ a b, less b a = false) (Algo_Sort T less l);
}.

(** ** The accumulation loop *)

Section Accumulate.
Context {E : Engine}.
Implicit Types (L : FAssetDependency) (t : FAssetIdentifier)
  (m : TMap FAssetIdentifier EDependencyPinCategory).

(** The bits one record contributes. *)
Definition LinkBits L : EDependencyPinCategory :=
  Z.lor (Z.lor LinkEndActive (if IsHard (Properties L) then LinkTypeHard else LinkTypeNone))
    (if negb (bool_decide (Category L = Package))
        || negb (Z.land (Properties L) EDependencyProperty_Game =? EDependencyProperty_None)
     then LinkTypeUsedInGame else LinkTypeNone).

(** The effect of one record on the category of [t]. *)
Definition MergeStep t (o : option EDependencyPinCategory) L : option EDependencyPinCategory :=
  if decide (AssetId L = t) then Some (Z.lor (default LinkEndActive o) (LinkBits L)) else o.

Lemma Find_AccumulateLink t m L :
  Find t (AccumulateLink m L) = MergeStep t (Find t m) L.
Proof.
  unfold AccumulateLink, MergeStep, LinkBits.
  rewrite Find_Modify.
  destruct (decide (AssetId L = t)) as [->|];
    rewrite Find_FindOrAdd; [rewrite decide_True by done|by rewrite decide_False].
  simpl. f_equal. by rewrite <- !Z.lor_assoc.
Qed.

Lemma Find_AccumulateLinks t l m :
  Find t (AccumulateLinks m l) = foldl (MergeStep t) (Find t m) l.
Proof.
  unfold AccumulateLinks. revert m.
  induction l as [|L l IH]; intros m; simpl; [done|].
  by rewrite IH, Find_AccumulateLink.
Qed.

Lemma MergeStep_comm t o L1 L2 :
  MergeStep t (MergeStep t o L1) L2 = MergeStep t (MergeStep t o L2) L1.
Proof.
  unfold MergeStep. repeat case_decide; simpl; try done.
  f_equal. rewrite <- !Z.lor_assoc. f_equal. apply Z.lor_comm.
Qed.

Lemma MergeStep_idemp t o L :
  MergeStep t (MergeStep t o L) L = MergeStep t o L.
Proof.
  unfold MergeStep. case_decide; simpl; [|done].
  f_equal. by rewrite <- Z.lor_assoc, Z.lor_diag.
Qed.

Lemma foldl_MergeStep_Permutation t l1 l2 :
  l1 ≡ₚ l2 → ∀ o, foldl (MergeStep t) o l1 = foldl (MergeStep t) o l2.
Proof.
  induction 1 as [|L l1 l2 _ IH|L1 L2 l|l1 l2 l3 _ IH1 _ IH2]; intros o; simpl.
  - done.
  - apply IH.
  - by rewrite MergeStep_comm.
  - by rewrite IH1.
Qed.

Lemma AccumulateLinks_Permutation t l1 l2 :
  l1 ≡ₚ l2 → Find t (AccumulateLinks [] l1) = Find t (AccumulateLinks [] l2).
Proof.
  intros Hp. rewrite !Find_AccumulateLinks. by apply foldl_MergeStep_Permutation.
Qed.

(** The keys of the map are the targets of the records, each once. *)
Lemma keys_AccumulateLink m L :
  (AccumulateLink m L).*1 =
  if bool_decide (AssetId L ∈ m.*1) then m.*1 else m.*1 ++ [AssetId L].
Proof. unfold AccumulateLink. by rewrite keys_Modify, keys_FindOrAdd. Qed.

Lemma NoDup_keys_AccumulateLinks l m :
  NoDup m.*1 → NoDup (AccumulateLinks m l).*1.
Proof.
  unfold AccumulateLinks. revert m.
  induction l as [|L l IH]; intros m Hm; simpl; [done|].
  apply IH. rewrite keys_AccumulateLink. case_bool_decide; [done|].
  apply NoDup_app. split_and!; [done|set_solver|apply NoDup_singleton].
Qed.

Lemma elem_of_keys_AccumulateLinks t l m :
  t ∈ (AccumulateLinks m l).*1 ↔ t ∈ m.*1 ∨ t ∈ AssetId <$> l.
Proof.
  unfold AccumulateLinks. revert m.
  induction l as [|L l IH]; intros m; simpl; [set_solver|].
  rewrite IH, keys_AccumulateLink. case_bool_decide; set_solver.
Qed.

End Accumulate.

(** ** Active categories *)

Section Active.
Context {E : Engine}.

Definition IsActive (c : EDependencyPinCategory) : Prop :=
  Z.land c LinkEndActive = LinkEndActive.

Lemma IsActive_testbit c : IsActive c ↔ Z.testbit c 0 = true.
Proof.
  unfold IsActive, LinkEndActive. split.
  - intros H. apply (f_equal (λ z, Z.testbit z 0)) in H.
    rewrite Z.land_spec in H. simpl in H. by rewrite andb_true_r in H.
  - intros H. apply Z.bits_inj'. intros n Hn. rewrite Z.land_spec.
    destruct (decide (n = 0)) as [->|]; [by rewrite H|].
    replace (Z.testbit 1 n) with false; [by rewrite andb_false_r|].
    symmetry. apply (Z.bits_above_log2 1 n); simpl; lia.
Qed.

Lemma IsActive_lor_l c d : IsActive c → IsActive (Z.lor c d).
Proof. rewrite !IsActive_testbit, Z.lor_spec. by intros ->. Qed.

Lemma IsActive_LinkBits L : IsActive (LinkBits L).
Proof. unfold LinkBits. by do 2 apply IsActive_lor_l. Qed.

Lemma IsActive_lor_r c d : IsActive d → IsActive (Z.lor c d).
Proof. rewrite Z.lor_comm. apply IsActive_lor_l. Qed.

Lemma MergeStep_active t o L :
  (∀ c, o = Some c → IsActive c) → ∀ c, MergeStep t o L = Some c → IsActive c.
Proof.
  unfold MergeStep. intros Ho c. case_decide; [|by auto].
  intros [= <-]. apply IsActive_lor_r, IsActive_LinkBits.
Qed.

Lemma AccumulateLinks_active l t c :
  Find t (AccumulateLinks [] l) = Some c → IsActive c.
Proof.
  rewrite Find_AccumulateLinks. simpl.
  assert (∀ c, (None : option EDependencyPinCategory) = Some c → IsActive c) as Ho by done.
  revert Ho. generalize (None : option EDependencyPinCategory) as o.
  revert c. induction l as [|L l IH]; intros c o Ho; simpl.
  - apply Ho.
  - apply IH. by apply MergeStep_active.
Qed.

Lemma IsActive_not_passive c :
  IsActive c → (Z.land c LinkEndMask =? LinkEndPassive) = false.
Proof. unfold IsActive, LinkEndMask. by intros ->. Qed.

Lemma GetName_active c : IsActive c → GetName c ≠ NamePassive.
Proof.
  intros Hc. unfold GetName. rewrite (IsActive_not_passive _ Hc). simpl.
  repeat case_match; done.
Qed.

Lemma GetColor_active c : IsActive c → GetColor c ≠ ColorPassive.
Proof.
  intros Hc. unfold GetColor. rewrite (IsActive_not_passive _ Hc). simpl.
  repeat case_match; done.
Qed.

(** A name [GetName] gives to an active category parses back to an active
    category. *)
Lemma Parse_GetName_active c : IsActive c → IsActive (ParseDependencyPinCategory (GetName c)).
Proof.
  intros Hc. unfold GetName. rewrite (IsActive_not_passive _ Hc). simpl.
  repeat case_match; done.
Qed.

Lemma DetermineWiringStyle_active c InputPinCategory :
  IsActive c → DetermineWiringStyle (GetName c) InputPinCategory ≠ ColorPassive.
Proof.
  intros Hc. unfold DetermineWiringStyle.
  pose proof (Parse_GetName_active c Hc) as Hp.
  unfold IsActive in Hp. rewrite Hp. simpl.
  by apply GetColor_active.
Qed.

End Active.

(** ** The post-filter over [ReferenceIds] *)

Section Filter.
Context {E : Engine} (AR : IAssetRegistry).
Implicit Types (x r : FAssetIdentifier) (kept todo : list FAssetIdentifier).

(** The identifiers the loop leaves in place. *)
Definition Passes x : bool :=
  String.eqb (PackageName x) NAME_None || negb (BadPackage AR (PackageName x)).

(** What the loop puts in the place of an identifier it removes. *)
Definition Refs x : list FAssetIdentifier :=
  match List.find Asset_IsRedirector (GetAssetsByPackageName AR (PackageName x)) with
  | Some _ => GetReferencerIds AR (AssetId_of_package (PackageName x)) Categories
  | None => []
  end.

Lemma FilterLoop_end fuel kept :
  FilterLoop AR (S fuel) kept (Z.of_nat (length kept)) = Done kept.
Proof. simpl. by rewrite Z.ltb_irrefl. Qed.

Lemma RemoveAt_middle {A} (l1 l2 : list A) a :
  RemoveAt (Z.of_nat (length l1)) (l1 ++ a :: l2) = l1 ++ l2.
Proof.
  unfold RemoveAt. rewrite Nat2Z.id, take_app_length. f_equal.
  by rewrite (cons_middle a l1 l2), (assoc_L (++)), drop_app_length'
    by (rewrite length_app; simpl; lia).
Qed.

Lemma Insert_middle {A} (l1 l2 Items : list A) :
  Insert Items (Z.of_nat (length l1)) (l1 ++ l2) = l1 ++ Items ++ l2.
Proof. unfold Insert. by rewrite Nat2Z.id, take_app_length, drop_app_length. Qed.

Lemma FilterLoop_step fuel kept x todo :
  FilterLoop AR (S fuel) (kept ++ x :: todo) (Z.of_nat (length kept)) =
  if Passes x then FilterLoop AR fuel ((kept ++ [x]) ++ todo) (Z.of_nat (length (kept ++ [x])))
  else FilterLoop AR fuel (kept ++ (Refs x ++ todo)) (Z.of_nat (length kept)).
Proof.
  cbn [FilterLoop].
  rewrite (proj2 (Z.ltb_lt _ _)) by (rewrite length_app; simpl; lia).
  rewrite Nat2Z.id, list_lookup_middle by done.
  unfold FilterBody, Passes, Refs.
  rewrite RemoveAt_middle, Insert_middle.
  destruct (String.eqb (PackageName x) NAME_None); simpl.
  { rewrite length_app, <- (assoc_L (++)). simpl. do 2 f_equal. lia. }
  destruct (BadPackage AR (PackageName x)); simpl.
  2:{ rewrite length_app, <- (assoc_L (++)). simpl. do 2 f_equal. lia. }
  destruct (List.find _ _); simpl; f_equal; lia.
Qed.

(** Whatever the loop returns holds only identifiers that pass, and every
    identifier of the array that passes is still there. *)
Lemma FilterLoop_spec fuel : ∀ kept todo res,
  Forall (λ x, Passes x = true) kept →
  FilterLoop AR fuel (kept ++ todo) (Z.of_nat (length kept)) = Done res →
  Forall (λ x, Passes x = true) res ∧
  (∀ x, x ∈ kept ++ todo → Passes x = true → x ∈ res).
Proof.
  induction fuel as [|fuel IH]; intros kept todo res Hdone Hrun; [done|].
  destruct todo as [|x todo].
  - rewrite app_nil_r in *. rewrite FilterLoop_end in Hrun. by simplify_eq.
  - rewrite FilterLoop_step in Hrun. destruct (Passes x) eqn:Hx.
    + apply IH in Hrun as [? Hin].
      * split; [done|]. intros y Hy. apply Hin. by rewrite <- (assoc_L (++)).
      * apply Forall_app. by split; [|repeat constructor].
    + apply IH in Hrun as [? Hin]; [|done].
      split; [done|]. intros y Hy Hpass. apply Hin; [|done].
      rewrite !elem_of_app. rewrite elem_of_app, elem_of_cons in Hy.
      destruct Hy as [?|[->|?]]; [by left|congruence|by right; right].
Qed.

(** The steps one identifier costs when redirectors nest at most [d] deep. *)
Fixpoint Cost (d : nat) x : nat :=
  match d with
  | O => if Passes x then 1%nat else S (length (Refs x))
  | S d => if Passes x then 1%nat else S (sum_list (Cost d <$> Refs x))
  end.

(** Redirectors do not refer to each other in a cycle: along the references
    the loop follows, [rank] falls. *)
Definition Acyclic (rank : FAssetIdentifier → nat) : Prop :=
  ∀ x r, Passes x = false → r ∈ Refs x → Passes r = false → (rank r < rank x)%nat.

Section Termination.
Context (rank : FAssetIdentifier → nat) (Hrank : Acyclic rank).

Lemma sum_Cost_passing d l :
  Forall (λ r, Passes r = true) l → sum_list (Cost d <$> l) = length l.
Proof.
  induction 1 as [|r l Hr _ IH]; [done|].
  rewrite fmap_cons. cbn [sum_list length]. rewrite IH.
  by destruct d; simpl; rewrite Hr.
Qed.

Lemma Refs_rank_0 x :
  Passes x = false → rank x = 0%nat → Forall (λ r, Passes r = true) (Refs x).
Proof.
  intros Hp Hx. apply Forall_forall. intros r Hr.
  destruct (Passes r) eqn:Hpr; [done|].
  pose proof (Hrank x r Hp Hr Hpr). lia.
Qed.

Lemma Cost_S d x :
  Cost (S d) x = if Passes x then 1%nat else S (sum_list (Cost d <$> Refs x)).
Proof. done. Qed.

Lemma Cost_passing d x : Passes x = true → Cost d x = 1%nat.
Proof. intros Hp. destruct d; simpl; by rewrite Hp. Qed.

Lemma Cost_stable d x : (rank x ≤ d)%nat → Cost (S d) x = Cost d x.
Proof.
  revert x. induction d as [|d IH]; intros x Hx.
  - rewrite Cost_S. simpl. destruct (Passes x) eqn:Hp; [done|]. f_equal.
    apply (sum_Cost_passing 0 (Refs x)), Refs_rank_0; [done|lia].
  - rewrite (Cost_S (S d) x), (Cost_S d x).
    destruct (Passes x) eqn:Hp; [done|]. do 2 f_equal.
    apply list_fmap_ext. intros i r Hr.
    apply list_elem_of_lookup_2 in Hr.
    destruct (Passes r) eqn:Hpr; [by rewrite !Cost_passing|].
    apply IH. pose proof (Hrank x r Hp Hr Hpr). lia.
Qed.

Lemma Cost_Refs d x :
  Passes x = false → (rank x ≤ d)%nat → Cost d x = S (sum_list (Cost d <$> Refs x)).
Proof.
  intros Hp Hx. destruct d as [|d].
  - cbn [Cost]. rewrite Hp. f_equal. symmetry.
    apply (sum_Cost_passing 0 (Refs x)), Refs_rank_0; [done|lia].
  - rewrite Cost_S, Hp. do 2 f_equal. apply list_fmap_ext. intros i r Hr.
    apply list_elem_of_lookup_2 in Hr. symmetry.
    destruct (Passes r) eqn:Hpr.
    + by rewrite !Cost_passing.
    + apply Cost_stable. pose proof (Hrank x r Hp Hr Hpr). lia.
Qed.

Lemma Cost_pos d x : (0 < Cost d x)%nat.
Proof. destruct d; simpl; destruct (Passes x); lia. Qed.

(** With more fuel than the cost of what is left, the loop returns. *)
Lemma FilterLoop_returns d fuel : ∀ kept todo,
  (∀ x, x ∈ todo → Passes x = false → (rank x ≤ d)%nat) →
  (sum_list (Cost d <$> todo) < fuel)%nat →
  ∃ res, FilterLoop AR fuel (kept ++ todo) (Z.of_nat (length kept)) = Done res.
Proof.
  induction fuel as [|fuel IH]; intros kept todo Hd Hfuel; [lia|].
  destruct todo as [|x todo].
  - rewrite app_nil_r, FilterLoop_end. by eexists.
  - rewrite FilterLoop_step. rewrite fmap_cons in Hfuel. simpl in Hfuel.
    pose proof (Cost_pos d x).
    destruct (Passes x) eqn:Hp.
    + apply IH; [set_solver|lia].
    + apply IH.
      * intros r [Hr| Hr]%elem_of_app Hpr; [|set_solver].
        pose proof (Hrank x r Hp Hr Hpr).
        assert (rank x ≤ d)%nat by set_solver. lia.
      * rewrite fmap_app, sum_list_with_app.
        rewrite (Cost_Refs d x Hp) in Hfuel by set_solver. lia.
Qed.

End Termination.
End Filter.

(** ** What [GetSortedLinks] returns *)

Section GetSortedLinksFacts.
Context {E : Engine} (AR : IAssetRegistry).
Implicit Types (root t : FAssetIdentifier)
  (links : TMap FAssetIdentifier EDependencyPinCategory).

(** The map before the post-filter. *)
Definition Classified root : TMap FAssetIdentifier EDependencyPinCategory :=
  ClassifyLinks (GetReferencers AR root Categories).

(** The result is the classified map without the entries that do not pass:
    what the loop splices into [ReferenceIds] adds no entry. *)
Lemma GetSortedLinks_Done fuel root links :
  GetSortedLinks AR fuel root = Done links →
  links = List.filter (λ p, Passes AR p.1) (Classified root).
Proof.
  unfold GetSortedLinks. fold (Classified root).
  destruct (FilterLoop _ _ _ _) as [res| |] eqn:Hrun; simpl; try done.
  intros [= <-].
  apply (FilterLoop_spec AR fuel [] _ res) in Hrun as [Hres Hin]; [|done].
  unfold RemoveWhereNot. apply List.filter_ext_in. intros [k c] Hk. simpl.
  apply list_elem_of_In in Hk.
  destruct (Passes AR k) eqn:Hp.
  - apply bool_decide_eq_true_2, Hin; [|done]. simpl.
    unfold GenerateKeyArray. apply list_elem_of_fmap. by exists (k, c).
  - apply bool_decide_eq_false_2. intros Hk'.
    rewrite Forall_forall in Hres. specialize (Hres _ Hk'). congruence.
Qed.

(** Fuel that is enough for the post-filter at [root]. *)
Definition FuelBound (rank : FAssetIdentifier → nat) root : nat :=
  let ReferenceIds := GenerateKeyArray (Classified root) in
  sum_list (Cost AR (max_list (rank <$> ReferenceIds)) <$> ReferenceIds).

Lemma GetSortedLinks_returns rank root fuel :
  Acyclic AR rank → (FuelBound rank root < fuel)%nat →
  GetSortedLinks AR fuel root =
  Done (List.filter (λ p, Passes AR p.1) (Classified root)).
Proof.
  intros Hrank Hfuel.
  destruct (FilterLoop_returns AR rank Hrank
              (max_list (rank <$> GenerateKeyArray (Classified root)))
              fuel [] (GenerateKeyArray (Classified root)))
    as [res Hres]; [|exact Hfuel|].
  { intros x Hx _. apply max_list_elem_of_le, list_elem_of_fmap. by exists x. }
  destruct (GetSortedLinks AR fuel root) as [links| |] eqn:Hrun.
  - by rewrite (GetSortedLinks_Done _ _ _ Hrun).
  - unfold GetSortedLinks in Hrun. fold (Classified root) in Hrun.
    change (FilterLoop AR fuel (GenerateKeyArray (Classified root)) 0 = Done res) in Hres.
    by rewrite Hres in Hrun.
  - unfold GetSortedLinks in Hrun. fold (Classified root) in Hrun.
    change (FilterLoop AR fuel (GenerateKeyArray (Classified root)) 0 = Done res) in Hres.
    by rewrite Hres in Hrun.
Qed.

Lemma NoDup_keys_Classified root : NoDup (Classified root).*1.
Proof. apply NoDup_keys_AccumulateLinks. constructor. Qed.

Lemma NoDup_keys_filter {A B} (f : A * B → bool) (m : list (A * B)) :
  NoDup m.*1 → NoDup (List.filter f m).*1.
Proof.
  induction m as [|p m IH]; simpl; [done|].
  rewrite NoDup_cons. intros [Hp Hm].
  destruct (f p); simpl; [|by auto].
  apply NoDup_cons. split; [|by auto].
  intros Hin. apply Hp. apply list_elem_of_fmap in Hin as (q & -> & Hq).
  apply list_elem_of_fmap. exists q. split; [done|].
  apply list_elem_of_In, List.filter_In in Hq as [Hq _]. by apply list_elem_of_In.
Qed.

Lemma GetSortedLinks_NoDup fuel root links :
  GetSortedLinks AR fuel root = Done links → NoDup links.*1.
Proof.
  intros ->%GetSortedLinks_Done. apply NoDup_keys_filter, NoDup_keys_Classified.
Qed.

Lemma GetSortedLinks_active fuel root links t c :
  GetSortedLinks AR fuel root = Done links → (t, c) ∈ links → IsActive c.
Proof.
  intros ->%GetSortedLinks_Done Hin.
  apply list_elem_of_In, List.filter_In in Hin as [Hin _].
  apply list_elem_of_In in Hin.
  eapply (AccumulateLinks_active _ t).
  apply elem_of_Find; [|exact Hin]. apply NoDup_keys_Classified.
Qed.

End GetSortedLinksFacts.

(** ** The order of the sorted records *)

Section Sorting.
Context {E : Engine}.
Implicit Types (A B C : FAssetDependency).

(** The three sort keys of a record. *)
Definition SortKey A : Z * bool * FName :=
  (CategoryOrder (Category A), IsHard (Properties A), PackageName (AssetId A)).

(** Category ascending, then hard before soft, then name ascending. *)
Definition KeyLess (k1 k2 : Z * bool * FName) : bool :=
  if k1.1.1 =? k2.1.1 then
    if eqb k1.1.2 k2.1.2 then LexicalLess k1.2 k2.2 else k1.1.2
  else k1.1.1 <? k2.1.1.

Lemma LinkLess_KeyLess A B : LinkLess A B = KeyLess (SortKey A) (SortKey B).
Proof.
  unfold LinkLess, KeyLess, SortKey. simpl.
  destruct (decide (Category A = Category B)) as [Hc|Hc].
  - rewrite bool_decide_eq_true_2, Hc, Z.eqb_refl by done. simpl.
    destruct (Z.eqb_spec (Properties A) (Properties B)) as [->|]; simpl.
    + by rewrite eqb_reflx.
    + by destruct (eqb _ _).
  - rewrite bool_decide_eq_false_2 by done. simpl.
    destruct (Category A), (Category B); done.
Qed.

Lemma KeyLess_swo : StrictWeakOrder LexicalLess → StrictWeakOrder KeyLess.
Proof.
  intros [Hirr Htr Hinc]. unfold KeyLess. split.
  - intros [[o h] n]. simpl. by rewrite Z.eqb_refl, eqb_reflx.
  - intros [[o1 h1] n1] [[o2 h2] n2] [[o3 h3] n3]. simpl.
    destruct (Z.eqb_spec o1 o2), (Z.eqb_spec o2 o3), (Z.eqb_spec o1 o3);
      rewrite ?Z.ltb_lt; try lia;
      destruct h1, h2, h3; simpl; try done; eauto.
  - intros [[o1 h1] n1] [[o2 h2] n2] [[o3 h3] n3]. simpl.
    destruct (Z.eqb_spec o1 o2), (Z.eqb_spec o2 o3), (Z.eqb_spec o1 o3);
      rewrite ?Z.ltb_lt; try lia;
      destruct h1, h2, h3; simpl; try done; eauto; try (right; lia); try (left; lia).
Qed.

Lemma LinkLess_swo : StrictWeakOrder LexicalLess → StrictWeakOrder LinkLess.
Proof.
  intros [Hirr Htr Hinc]%KeyLess_swo. split.
  - intros A. by rewrite LinkLess_KeyLess.
  - intros A B C. rewrite !LinkLess_KeyLess. apply Htr.
  - intros A B C. rewrite !LinkLess_KeyLess. apply Hinc.
Qed.

(** What [LinkLess B A = false], the relation between an earlier [A] and a
    later [B] of the sorted array, says about their keys. *)
Lemma not_LinkLess_keys A B :
  LinkLess B A = false →
  CategoryOrder (Category A) ≤ CategoryOrder (Category B) ∧
  (Category A = Category B →
     (IsHard (Properties B) = true → IsHard (Properties A) = true) ∧
     (IsHard (Properties A) = IsHard (Properties B) →
        LexicalLess (PackageName (AssetId B)) (PackageName (AssetId A)) = false)).
Proof.
  rewrite LinkLess_KeyLess. unfold KeyLess, SortKey. simpl.
  destruct (Z.eqb_spec (CategoryOrder (Category B)) (CategoryOrder (Category A))) as [Ho|Ho].
  - split; [lia|]. intros _.
    destruct (IsHard (Properties A)), (IsHard (Properties B)); simpl; done.
  - rewrite Z.ltb_ge. intros Hle. split; [lia|]. intros Hc. by rewrite Hc in Ho.
Qed.

Lemma StronglySorted_lookup {T} (R : relation T) (l : list T) i j a b :
  StronglySorted R l → (i < j)%nat → l !! i = Some a → l !! j = Some b → R a b.
Proof.
  intros Hl. revert i j. induction Hl as [|x l Hl IH Hx]; intros i j Hij Hi Hj; [done|].
  destruct j as [|j]; [lia|]. destruct i as [|i]; simpl in *.
  - simplify_eq. rewrite Forall_forall in Hx. apply Hx. by eapply list_elem_of_lookup_2.
  - apply (IH i j); [lia|done..].
Qed.

(** A sorted arrangement of a hard [Package] record, a soft [Package]
    record and a hard [Manage] record has them in this order. *)
Lemma sorted_three A B C (l : list FAssetDependency) :
  Category A = Package → IsHard (Properties A) = true →
  Category B = Package → IsHard (Properties B) = false →
  Category C = Manage →
  l ≡ₚ [A; B; C] → StronglySorted (λ a b, LinkLess b a = false) l →
  l = [A; B; C].
Proof.
  intros HcA HhA HcB HhB HcC Hp Hs.
  assert (LinkLess A B = true) as HAB.
  { rewrite LinkLess_KeyLess. unfold KeyLess, SortKey. simpl.
    by rewrite HcA, HcB, HhA, HhB. }
  assert (LinkLess A C = true) as HAC.
  { rewrite LinkLess_KeyLess. unfold KeyLess, SortKey. simpl. by rewrite HcA, HcC. }
  assert (LinkLess B C = true) as HBC.
  { rewrite LinkLess_KeyLess. unfold KeyLess, SortKey. simpl. by rewrite HcB, HcC. }
  pose proof (Permutation_length Hp) as Hlen.
  destruct l as [|x [|y [|z [|? ?]]]]; try done.
  apply StronglySorted_inv in Hs as [Hs Hx].
  apply StronglySorted_inv in Hs as [_ Hy].
  apply Forall_cons in Hx as [Hxy Hx]. apply Forall_cons in Hx as [Hxz _].
  apply Forall_cons in Hy as [Hyz _].
  assert (A ∈ [x; y; z]) as HA by (rewrite Hp; set_solver).
  assert (B ∈ [x; y; z]) as HB by (rewrite Hp; set_solver).
  assert (C ∈ [x; y; z]) as HC by (rewrite Hp; set_solver).
  assert (x ∈ [A; B; C]) as Hx' by (rewrite <- Hp; set_solver).
  assert (y ∈ [A; B; C]) as Hy' by (rewrite <- Hp; set_solver).
  assert (z ∈ [A; B; C]) as Hz' by (rewrite <- Hp; set_solver).
  rewrite !elem_of_cons, elem_of_nil in Hx', Hy', Hz'.
  destruct Hx' as [->|[->|[->|[]]]], Hy' as [->|[->|[->|[]]]], Hz' as [->|[->|[->|[]]]];
    try congruence.
  all: exfalso; clear -HA HB HC HcA HcB HcC HhA HhB;
    rewrite !elem_of_cons, elem_of_nil in HA, HB, HC;
    destruct HA as [?|[?|[?|[]]]], HB as [?|[?|[?|[]]]], HC as [?|[?|[?|[]]]];
    congruence.
Qed.

End Sorting.

(** ** Instances of the engine services

    A stand-in for the engine, used where a statement is evaluated on
    concrete data: the flag values of the engine's header, the lexical order
    of strings, merge sort, and arithmetic on real numbers with truncation
    toward zero for the conversion to [int32]. *)

Definition MergeSortBy (T : Type) (less : T → T → bool) : list T → list T :=
  @merge_sort T (λ a b, less b a = false) (λ a b, decide (less b a = false)).

#[global] Instance StdEngine : Engine := {|
  EDependencyProperty_Hard := 1;
  EDependencyProperty_Game := 2;
  EDependencyProperty_Direct := 8;
  LexicalLess := String.ltb;
  Algo_Sort := MergeSortBy;
|}.

Definition Truncate (r : R) : Z :=
  if Rle_dec 0 r then Int_part r else - Int_part (- r).

Definition ExactMath : FMath := {|
  float := R;
  UE_PI := PI;
  float_of_int32 := IZR;
  int32_of_float := Truncate;
  fadd := Rplus;
  fsub := Rminus;
  fmul := Rmult;
  fdiv := Rdiv;
  FMath_Cos := cos;
  FMath_Sin := sin;
  FMath_Abs := Rabs;
  FMath_Max := Rmax;
|}.

Lemma String_ltb_swo : StrictWeakOrder String.ltb.
Proof.
  assert (∀ a b, String.ltb a b = true ↔ OrderedTypeEx.String_as_OT.lt a b) as Hlt.
  { intros a b. rewrite <- OrderedTypeEx.String_as_OT.cmp_lt.
    unfold String.ltb, OrderedTypeEx.String_as_OT.cmp.
    destruct (String.compare a b); split; congruence. }
  split.
  - intros a. unfold String.ltb.
    pose proof (proj2 (OrderedTypeEx.String_as_OT.cmp_eq a a) eq_refl) as Haa.
    unfold OrderedTypeEx.String_as_OT.cmp in Haa. by rewrite Haa.
  - intros a b c. rewrite !Hlt. apply OrderedTypeEx.String_as_OT.lt_trans.
  - intros a b c Hac.
    destruct (String.compare a b) eqn:Hab.
    + apply OrderedTypeEx.String_as_OT.cmp_eq in Hab as ->. by right.
    + left. unfold String.ltb. by rewrite Hab.
    + right. rewrite Hlt in *.
      apply OrderedTypeEx.String_as_OT.lt_trans with a; [|done].
      apply OrderedTypeEx.String_as_OT.cmp_lt.
      unfold OrderedTypeEx.String_as_OT.cmp.
      by rewrite String.compare_antisym, Hab.
Qed.

Lemma MergeSortBy_Sorted (T : Type) (less : T → T → bool) (l : list T) :
  StrictWeakOrder less →
  StronglySorted (λ a b, less b a = false) (MergeSortBy T less l).
Proof.
  intros [Hirr Htr Hinc]. unfold MergeSortBy.
  apply @StronglySorted_merge_sort.
  - intros a b c Hba Hcb. destruct (less c a) eqn:Hca; [|done].
    destruct (Hinc _ b _ Hca); congruence.
  - intros a b. destruct (less b a) eqn:Hba; [|by left].
    right. destruct (less a b) eqn:Hab; [|done].
    rewrite <- (Hirr a). symmetry. by apply Htr with b.
Qed.

#[global] Instance StdEngine_laws : EngineLaws StdEngine.
Proof.
  split.
  - apply String_ltb_swo.
  - intros T less l _. apply merge_sort_Permutation.
  - apply MergeSortBy_Sorted.
Qed.

(** ** The node table [RebuildGraph] builds *)

Section NodeInfos.
Context (AR : IAssetRegistry) (Root : FAssetIdentifier).
Implicit Types (Infos : gmap FAssetIdentifier FRefExplorerNodeInfo)
  (cs links : list (FAssetIdentifier * EDependencyPinCategory))
  (p : FAssetIdentifier * EDependencyPinCategory) (t : FAssetIdentifier).

(** The pairs that reach [Children] of the root: the first one per target. *)
Definition FirstPerTarget cs links : list (FAssetIdentifier * EDependencyPinCategory) :=
  foldl (λ acc p, if bool_decide (p.1 ∈ acc.*1) then acc else acc ++ [p]) cs links.

(** The parents of the root: itself, once it is among its own children. *)
Definition RootParents cs : gset FAssetIdentifier :=
  if bool_decide (Root ∈ cs.*1) then {[Root]} else ∅.

(** The table while the loop runs, [cs] being the root's children so far. *)
Definition TableInv Infos cs : Prop :=
  Infos !! Root = Some (mkNodeInfo Root FAssetData_default cs (RootParents cs)) ∧
  ∀ t, t ≠ Root →
    Infos !! t = if bool_decide (t ∈ cs.*1)
                 then Some (mkNodeInfo t FAssetData_default [] {[Root]}) else None.

Lemma TableInv_init : TableInv (<[Root := NewNodeInfo Root]> ∅) [].
Proof.
  split.
  - by rewrite lookup_insert_eq.
  - intros t Ht. by rewrite lookup_insert_ne.
Qed.

Lemma TableInv_PopulateLink Infos cs p :
  TableInv Infos cs →
  TableInv (PopulateLink Root Infos p)
           (if bool_decide (p.1 ∈ cs.*1) then cs else cs ++ [p]).
Proof.
  intros [Hroot Hother]. destruct p as [t c]. unfold PopulateLink. simpl.
  unfold TableInv, RootParents in *.
  destruct (decide (t = Root)) as [->|Ht].
  - rewrite Hroot. simpl.
    destruct (bool_decide (Root ∈ cs.*1)) eqn:Hb.
    { rewrite (bool_decide_eq_true_2 (Root ∈ ({[Root]} : gset _))) by set_solver.
      simpl. rewrite Hb. by split. }
    rewrite (bool_decide_eq_false_2 (Root ∈ (∅ : gset _))) by set_solver. simpl.
    apply bool_decide_eq_false in Hb.
    split.
    + rewrite lookup_alter_eq, lookup_alter_eq, Hroot. simpl.
      unfold EmplaceChild, AddParent. simpl. f_equal. f_equal.
      rewrite fmap_app. simpl.
      rewrite bool_decide_eq_true_2 by set_solver. set_solver.
    + intros t Ht. rewrite !lookup_alter_ne by done. rewrite (Hother t Ht).
      rewrite fmap_app. simpl.
      by rewrite (bool_decide_ext (t ∈ cs.*1 ++ [Root]) (t ∈ cs.*1)) by set_solver.
  - rewrite (Hother t Ht).
    destruct (bool_decide (t ∈ cs.*1)) eqn:Hb; simpl.
    { rewrite (bool_decide_eq_true_2 (Root ∈ ({[Root]} : gset _))) by set_solver.
      simpl. by split. }
    apply bool_decide_eq_false in Hb. split.
    + rewrite lookup_alter_eq, lookup_alter_ne, lookup_insert_ne, Hroot by done.
      simpl. unfold EmplaceChild. simpl. do 2 f_equal.
      rewrite fmap_app. simpl.
      by rewrite (bool_decide_ext (Root ∈ cs.*1 ++ [t]) (Root ∈ cs.*1)) by set_solver.
    + intros t' Ht'. rewrite lookup_alter_ne by done.
      rewrite fmap_app. simpl.
      destruct (decide (t' = t)) as [->|Hne].
      * rewrite lookup_alter_eq, lookup_insert_eq. simpl.
        rewrite bool_decide_eq_true_2 by set_solver.
        unfold AddParent, NewNodeInfo. simpl. do 2 f_equal. set_solver.
      * rewrite lookup_alter_ne, lookup_insert_ne, (Hother t' Ht') by done.
        by rewrite (bool_decide_ext (t' ∈ cs.*1 ++ [t]) (t' ∈ cs.*1)) by set_solver.
Qed.

Lemma TableInv_foldl links : ∀ Infos cs,
  TableInv Infos cs →
  TableInv (foldl (PopulateLink Root) Infos links) (FirstPerTarget cs links).
Proof.
  induction links as [|p links IH]; intros Infos cs Hinv; simpl; [done|].
  by apply IH, TableInv_PopulateLink.
Qed.

Lemma FirstPerTarget_NoDup links : ∀ cs,
  NoDup (cs ++ links).*1 → FirstPerTarget cs links = cs ++ links.
Proof.
  induction links as [|p links IH]; intros cs Hnd; simpl.
  - by rewrite app_nil_r.
  - rewrite bool_decide_eq_false_2.
    + rewrite IH; rewrite <- (assoc_L (++)); done.
    + rewrite fmap_app, fmap_cons in Hnd.
      apply NoDup_app in Hnd as (_ & Hdisj & _). intros Hin.
      apply (Hdisj _ Hin). left.
Qed.

Lemma keys_FirstPerTarget links : ∀ cs t,
  t ∈ (FirstPerTarget cs links).*1 ↔ t ∈ cs.*1 ∨ t ∈ links.*1.
Proof.
  induction links as [|p links IH]; intros cs t; simpl; [set_solver|].
  rewrite IH. case_bool_decide; rewrite ?fmap_app; set_solver.
Qed.

Lemma NoDup_FirstPerTarget links : ∀ cs,
  NoDup cs.*1 → NoDup (FirstPerTarget cs links).*1.
Proof.
  induction links as [|p links IH]; intros cs Hnd; simpl; [done|].
  apply IH. case_bool_decide; [done|].
  rewrite fmap_app. apply NoDup_app. split_and!; [done|set_solver|apply NoDup_singleton].
Qed.

(** What [AttachAssetData] writes into the entry of [t]. *)
Definition DataFor links t : FAssetData :=
  default FAssetData_default
    (GetAssetForPackages AR
       (AllPackageNames (foldl (PopulateLink Root) (<[Root := NewNodeInfo Root]> ∅) links))
     !! PackageName t).

Lemma BuildNodeInfos_root links :
  BuildNodeInfos AR Root links !! Root =
  Some (mkNodeInfo Root (DataFor links Root) (FirstPerTarget [] links)
          (RootParents (FirstPerTarget [] links))).
Proof.
  destruct (TableInv_foldl links _ _ TableInv_init) as [Hroot _].
  unfold BuildNodeInfos, AttachAssetData. rewrite map_lookup_imap, Hroot. done.
Qed.

Lemma BuildNodeInfos_other links t :
  t ≠ Root →
  BuildNodeInfos AR Root links !! t =
  if bool_decide (t ∈ links.*1)
  then Some (mkNodeInfo t (DataFor links t) [] {[Root]}) else None.
Proof.
  intros Ht. destruct (TableInv_foldl links _ _ TableInv_init) as [_ Hother].
  unfold BuildNodeInfos, AttachAssetData. rewrite map_lookup_imap, (Hother t Ht).
  assert (t ∈ (FirstPerTarget [] links).*1 ↔ t ∈ links.*1) as Hiff
    by (rewrite keys_FirstPerTarget; set_solver).
  repeat case_bool_decide; naive_solver.
Qed.

End NodeInfos.

(** ** Creating the nodes of a parent whose children are leaves *)

Section CreateNodes.
Context {E : Engine} {M : FMath} (impl : Implementation).
Implicit Types (Infos : gmap FAssetIdentifier FRefExplorerNodeInfo)
  (Nodes : list UEdGraphNode_RefExplorer)
  (Rest : list (FAssetIdentifier * EDependencyPinCategory)).

(** The asset data the table holds for an identifier. *)
Definition InfoData Infos (Id : FAssetIdentifier) : FAssetData :=
  match Infos !! Id with
  | Some Info => NodeInfo_AssetData Info
  | None => FAssetData_default
  end.

(** The node of a child without children, once it is linked to [NewNode]. *)
Definition LeafNode (NewNode : nat) (Loc : Z * Z)
    (Pair : FAssetIdentifier * EDependencyPinCategory) (Data : FAssetData)
    : UEdGraphNode_RefExplorer :=
  mkNode Loc.1 Loc.2 Pair.1 Data (mkPin (GetName Pair.2) false [NewNode]) AllocateDefaultPins.

(** A change of a node that touches its referencer pin only. *)
Definition OnlyReferencerPin (F : UEdGraphNode_RefExplorer → UEdGraphNode_RefExplorer) : Prop :=
  ∀ n, NodePosX (F n) = NodePosX n ∧ NodePosY (F n) = NodePosY n ∧
       Identifier (F n) = Identifier n ∧ SetupAssetData (F n) = SetupAssetData n ∧
       DependencyPin (F n) = DependencyPin n.

Definition IsLeaf Infos (Id : FAssetIdentifier) : Prop :=
  ∃ Info, Infos !! Id = Some Info ∧ Children Info = [].

Lemma RecursivelyCreateNodes_S fuel Infos Id Loc Parent bIsRoot Nodes :
  RecursivelyCreateNodes impl (S fuel) Id Loc Parent Infos bIsRoot Nodes =
  match Infos !! Id with
  | None => CheckFailed
  | Some NodeInfo =>
      let '(Nodes, NewNode) :=
        if bIsRoot then (Nodes, Parent)
        else CreateAndSetupNode Loc Id (NodeInfo_AssetData NodeInfo) Nodes in
      let Num := Z.of_nat (length (Children NodeInfo)) in
      Nodes ← CreateChildren
                (λ ChildId ChildLoc Nodes,
                   RecursivelyCreateNodes impl fuel ChildId ChildLoc NewNode Infos false Nodes)
                (ChildLoc impl Loc Num) NewNode (Children NodeInfo) 0 Nodes;
      mret (Nodes, NewNode)
  end.
Proof. done. Qed.

Lemma RecursivelyCreateNodes_leaf fuel Infos Id Loc Parent Nodes :
  IsLeaf Infos Id →
  RecursivelyCreateNodes impl (S fuel) Id Loc Parent Infos false Nodes =
  Done (Nodes ++ [mkNode Loc.1 Loc.2 Id (InfoData Infos Id)
                    AllocateDefaultPins AllocateDefaultPins], length Nodes).
Proof.
  intros (Info & HInfo & Hcs). unfold InfoData. simpl. rewrite HInfo, Hcs. done.
Qed.

Lemma CreateChildren_leaves fuel Infos (loc : Z → Z * Z) NewNode Rest :
  ∀ ChildIdx Nodes,
  (NewNode < length Nodes)%nat →
  Forall (λ Pair, IsLeaf Infos Pair.1) Rest →
  ∃ F, OnlyReferencerPin F ∧
    CreateChildren
      (λ ChildId ChildLoc Nodes,
         RecursivelyCreateNodes impl (S fuel) ChildId ChildLoc NewNode Infos false Nodes)
      loc NewNode Rest ChildIdx Nodes =
    Done (alter F NewNode Nodes ++
          imap (λ i Pair, LeafNode NewNode (loc (ChildIdx + Z.of_nat i)) Pair
                            (InfoData Infos Pair.1)) Rest).
Proof.
  induction Rest as [|Pair Rest IH]; intros ChildIdx Nodes HNew Hleaves.
  - exists (λ n, n). split; [done|]. simpl. by rewrite app_nil_r, list_alter_id.
  - apply Forall_cons in Hleaves as [Hleaf Hleaves].
    cbn [CreateChildren]. rewrite RecursivelyCreateNodes_leaf by done.
    cbn [mbind Outcome_bind fst snd].
    set (g := λ n : UEdGraphNode_RefExplorer,
           mkNode (NodePosX n) (NodePosY n) (Identifier n) (SetupAssetData n)
             (DependencyPin n) (MakeLinkTo (length Nodes) (Unhide (ReferencerPin n)))).
    assert (AddReferencer NewNode (length Nodes)
              (alter (SetDependencyPinCategory (GetName Pair.2)) (length Nodes)
                 (Nodes ++ [mkNode (loc ChildIdx).1 (loc ChildIdx).2 Pair.1
                              (InfoData Infos Pair.1)
                              AllocateDefaultPins AllocateDefaultPins])) =
            alter g NewNode Nodes ++
            [LeafNode NewNode (loc ChildIdx) Pair (InfoData Infos Pair.1)]) as ->.
    { unfold AddReferencer. fold g.
      rewrite <- (Nat.add_0_r (length Nodes)) at 1 2.
      rewrite !alter_app_r. simpl. by rewrite alter_app_l. }
    destruct (IH (ChildIdx + 1) (alter g NewNode Nodes ++
                [LeafNode NewNode (loc ChildIdx) Pair (InfoData Infos Pair.1)]))
      as (F & HF & ->); [|done|].
    { rewrite length_app, length_alter. lia. }
    exists (F ∘ g). split.
    + intros n. unfold compose.
      destruct (HF (g n)) as (H1 & H2 & H3 & H4 & H5). by rewrite H1, H2, H3, H4, H5.
    + f_equal. rewrite alter_app_l by (by rewrite length_alter).
      rewrite list_alter_alter_eq, <- (assoc_L (++)). f_equal.
      rewrite imap_cons. simpl. rewrite Z.add_0_r. f_equal.
      apply imap_ext. intros i x _. simpl. do 2 f_equal. lia.
Qed.

(** The nodes [RecursivelyCreateNodes] leaves behind for a parent all of
    whose children are leaves: the parent [NewNode], then one node per
    child, in the order of [Children], each at its [ChildLoc]. *)
Lemma RecursivelyCreateNodes_leaves fuel Infos Id Info Loc Parent bIsRoot Nodes :
  Infos !! Id = Some Info →
  Forall (λ Pair, IsLeaf Infos Pair.1) (Children Info) →
  (bIsRoot = true → (Parent < length Nodes)%nat) →
  let Base := if bIsRoot then Nodes
              else Nodes ++ [mkNode Loc.1 Loc.2 Id (NodeInfo_AssetData Info)
                               AllocateDefaultPins AllocateDefaultPins] in
  let NewNode := if bIsRoot then Parent else length Nodes in
  let Num := Z.of_nat (length (Children Info)) in
  ∃ F, OnlyReferencerPin F ∧
    RecursivelyCreateNodes impl (S (S fuel)) Id Loc Parent Infos bIsRoot Nodes =
    Done (alter F NewNode Base ++
          imap (λ i Pair, LeafNode NewNode (ChildLoc impl Loc Num (Z.of_nat i)) Pair
                            (InfoData Infos Pair.1)) (Children Info),
          NewNode).
Proof.
  intros HInfo Hleaves HParent Base NewNode Num.
  destruct (CreateChildren_leaves fuel Infos (ChildLoc impl Loc Num) NewNode
              (Children Info) 0 Base) as (F & HF & Hrun); [|done|].
  { subst Base NewNode. destruct bIsRoot; [by auto|].
    rewrite length_app. simpl. lia. }
  exists F. split; [done|].
  rewrite RecursivelyCreateNodes_S, HInfo.
  subst Base NewNode Num. destruct bIsRoot; cbn [CreateAndSetupNode].
  - rewrite Hrun. done.
  - rewrite Hrun. done.
Qed.

End CreateNodes.

(** ** Recursion through the table *)

Section Recursion.
Context {E : Engine} {M : FMath} (impl : Implementation).
Implicit Types (Infos : gmap FAssetIdentifier FRefExplorerNodeInfo)
  (Nodes : list UEdGraphNode_RefExplorer)
  (Rest : list (FAssetIdentifier * EDependencyPinCategory)).

Definition Returns {A} (o : Outcome A) : Prop := ∃ a, o = Done a.

(** The loop over the children does not return when the recursive call on
    one of them does not. *)
Lemma CreateChildren_stuck recurse loc NewNode Id Rest :
  Id ∈ Rest.*1 →
  (∀ Loc Nodes, ¬ Returns (recurse Id Loc Nodes)) →
  ∀ ChildIdx Nodes, ¬ Returns (CreateChildren recurse loc NewNode Rest ChildIdx Nodes).
Proof.
  intros Hin Hrec. induction Rest as [|Pair Rest IH]; intros ChildIdx Nodes; [set_solver|].
  cbn [CreateChildren].
  destruct (decide (Pair.1 = Id)) as [HId|HId].
  - rewrite HId. intros [a Ha]. apply (Hrec (loc ChildIdx) Nodes).
    destruct (recurse Id (loc ChildIdx) Nodes); [by eexists|done..].
  - destruct (recurse Pair.1 (loc ChildIdx) Nodes); simpl; [|by intros [? ?]..].
    apply IH. set_solver.
Qed.

(** A node that is listed among its own children is never finished. *)
Lemma RecursivelyCreateNodes_own_child Infos Id Info :
  Infos !! Id = Some Info → Id ∈ (Children Info).*1 →
  ∀ fuel Loc Parent bIsRoot Nodes,
    ¬ Returns (RecursivelyCreateNodes impl fuel Id Loc Parent Infos bIsRoot Nodes).
Proof.
  intros HInfo Hown. induction fuel as [|fuel IH]; intros Loc Parent bIsRoot Nodes.
  - by intros [? ?].
  - rewrite RecursivelyCreateNodes_S, HInfo.
    destruct (if bIsRoot then _ else _) as [Nodes' NewNode].
    intros [a Ha]. cbv zeta in Ha.
    destruct (CreateChildren _ _ _ _ _ _) as [N| |] eqn:Hc; [|done..].
    pose proof (ex_intro _ N Hc : Returns _) as HR. revert HR.
    apply CreateChildren_stuck with Id; [done|].
    intros Loc' Nodes''. apply IH.
Qed.

(** With the node first among its own children the recursion only ever
    runs out of fuel. *)
Lemma RecursivelyCreateNodes_own_first_child Infos Id Info c Rest :
  Infos !! Id = Some Info → Children Info = (Id, c) :: Rest →
  ∀ fuel Loc Parent bIsRoot Nodes,
    RecursivelyCreateNodes impl fuel Id Loc Parent Infos bIsRoot Nodes = OutOfFuel.
Proof.
  intros HInfo Hcs. induction fuel as [|fuel IH]; intros Loc Parent bIsRoot Nodes; [done|].
  rewrite RecursivelyCreateNodes_S, HInfo, Hcs.
  destruct (if bIsRoot then _ else _) as [Nodes' NewNode].
  cbn [CreateChildren fst]. by rewrite IH.
Qed.

(** *** Linked dependency pins carry an active name *)

Definition EdgeNamed (n : UEdGraphNode_RefExplorer) : Prop :=
  LinkedTo (DependencyPin n) ≠ [] →
  IsActive (ParseDependencyPinCategory (PinCategory (DependencyPin n))) ∧
  PinCategory (DependencyPin n) ≠ NamePassive.

Definition TableActive Infos : Prop :=
  ∀ Id Info, Infos !! Id = Some Info → Forall (λ Pair, IsActive Pair.2) (Children Info).

Lemma EdgeNamed_link c This ReferencerNode Nodes :
  IsActive c → Forall EdgeNamed Nodes →
  Forall EdgeNamed
    (AddReferencer This ReferencerNode
       (alter (SetDependencyPinCategory (GetName c)) ReferencerNode Nodes)).
Proof.
  intros Hc HNodes. unfold AddReferencer.
  rewrite list_alter_alter_eq.
  apply Forall_alter; [apply Forall_alter; [done|]|].
  - intros n _ _ _. simpl. split; [by apply Parse_GetName_active|by apply GetName_active].
  - intros n _ Hn. apply Hn.
Qed.

Lemma CreateChildren_EdgeNamed recurse loc NewNode Rest :
  (∀ Id Loc Nodes r, Forall EdgeNamed Nodes → recurse Id Loc Nodes = Done r →
     Forall EdgeNamed r.1) →
  Forall (λ Pair, IsActive Pair.2) Rest →
  ∀ ChildIdx Nodes Nodes',
    Forall EdgeNamed Nodes →
    CreateChildren recurse loc NewNode Rest ChildIdx Nodes = Done Nodes' →
    Forall EdgeNamed Nodes'.
Proof.
  intros Hrec. induction 1 as [|Pair Rest Hc _ IH]; intros ChildIdx Nodes Nodes' HNodes.
  - by intros [= <-].
  - cbn [CreateChildren].
    destruct (recurse Pair.1 (loc ChildIdx) Nodes) as [r| |] eqn:Hr; simpl; [|done..].
    apply IH. apply EdgeNamed_link; [done|]. by eapply Hrec.
Qed.

Lemma RecursivelyCreateNodes_EdgeNamed Infos :
  TableActive Infos →
  ∀ fuel Id Loc Parent bIsRoot Nodes r,
    Forall EdgeNamed Nodes →
    RecursivelyCreateNodes impl fuel Id Loc Parent Infos bIsRoot Nodes = Done r →
    Forall EdgeNamed r.1.
Proof.
  intros HInfos. induction fuel as [|fuel IH]; intros Id Loc Parent bIsRoot Nodes r HNodes;
    [done|].
  rewrite RecursivelyCreateNodes_S.
  destruct (Infos !! Id) as [Info|] eqn:HInfo; [|done].
  assert (Forall EdgeNamed
            (if bIsRoot then (Nodes, Parent)
             else CreateAndSetupNode Loc Id (NodeInfo_AssetData Info) Nodes).1) as HBase.
  { destruct bIsRoot; simpl; [done|]. apply Forall_app. split; [done|].
    apply Forall_singleton. intros Hl. by destruct Hl. }
  destruct (if bIsRoot then _ else _) as [Nodes0 NewNode]. simpl in HBase.
  cbv zeta.
  destruct (CreateChildren _ _ _ _ _ _) as [Nodes'| |] eqn:Hc; simpl; [|done..].
  intros [= <-]. simpl. revert Hc.
  apply CreateChildren_EdgeNamed; [|by eapply HInfos|exact HBase].
  intros Id' Loc' Nodes1 r1. apply IH.
Qed.

End Recursion.

(** ** [RebuildGraph] as a whole *)

Section RebuildGraphFacts.
Context {E : Engine} {M : FMath} (AR : IAssetRegistry) (impl : Implementation).
Implicit Types (G : UEdGraph_RefExplorer)
  (links : TMap FAssetIdentifier EDependencyPinCategory).

(** The node [RebuildGraph] creates for the root. *)
Definition RootNodeOf G links : UEdGraphNode_RefExplorer :=
  mkNode (CurrentGraphRootOrigin G).1 (CurrentGraphRootOrigin G).2
    (CurrentGraphRootIdentifier G)
    (DataFor AR (CurrentGraphRootIdentifier G) links (CurrentGraphRootIdentifier G))
    AllocateDefaultPins AllocateDefaultPins.

Lemma RebuildGraph_unfold fuel G links :
  GetSortedLinks AR fuel (CurrentGraphRootIdentifier G) = Done links →
  RebuildGraph AR impl fuel G =
  (r ← RecursivelyCreateNodes impl fuel (CurrentGraphRootIdentifier G)
         (CurrentGraphRootOrigin G) 0%nat
         (BuildNodeInfos AR (CurrentGraphRootIdentifier G) links) true [RootNodeOf G links];
   mret (mkGraph (CurrentGraphRootIdentifier G) (CurrentGraphRootOrigin G)
           (BuildNodeInfos AR (CurrentGraphRootIdentifier G) links) r.1, Some 0%nat)).
Proof.
  intros Hlinks. unfold RebuildGraph. rewrite Hlinks. cbn [mbind Outcome_bind].
  pose proof (BuildNodeInfos_root AR (CurrentGraphRootIdentifier G) links) as Hroot.
  rewrite bool_decide_eq_false_2.
  2:{ intros Hempty. rewrite Hempty, lookup_empty in Hroot. done. }
  rewrite Hroot. done.
Qed.

Lemma RebuildGraph_links fuel G r :
  RebuildGraph AR impl fuel G = Done r →
  ∃ links, GetSortedLinks AR fuel (CurrentGraphRootIdentifier G) = Done links.
Proof.
  unfold RebuildGraph.
  destruct (GetSortedLinks AR fuel (CurrentGraphRootIdentifier G)) as [links| |];
    [by eexists|done..].
Qed.

(** When the root is not among its own referencers, fuel for the post-filter
    and two levels of recursion are enough, and the graph is the root
    followed by one leaf per link. *)
Lemma RebuildGraph_returns fuel G links :
  GetSortedLinks AR (S (S fuel)) (CurrentGraphRootIdentifier G) = Done links →
  CurrentGraphRootIdentifier G ∉ links.*1 →
  let Root := CurrentGraphRootIdentifier G in
  let Origin := CurrentGraphRootOrigin G in
  let Infos := BuildNodeInfos AR Root links in
  ∃ F, OnlyReferencerPin F ∧
    RebuildGraph AR impl (S (S fuel)) G =
    Done (mkGraph Root Origin Infos
            (F (RootNodeOf G links) ::
             imap (λ i Pair, LeafNode 0 (ChildLoc impl Origin (Z.of_nat (length links))
                                           (Z.of_nat i)) Pair (InfoData Infos Pair.1))
                  links),
          Some 0%nat).
Proof.
  intros Hlinks Hroot Root Origin Infos.
  pose proof (GetSortedLinks_NoDup _ _ _ _ Hlinks) as Hnd.
  pose proof (BuildNodeInfos_root AR Root links) as HInfo.
  rewrite (FirstPerTarget_NoDup links []) in HInfo by done. simpl in HInfo.
  destruct (RecursivelyCreateNodes_leaves impl fuel Infos Root _ Origin 0%nat true
              [RootNodeOf G links] HInfo) as (F & HF & Hrun).
  { simpl. apply Forall_forall. intros [t c] Hin. simpl.
    assert (t ∈ links.*1) as Ht by (apply list_elem_of_fmap; by exists (t, c)).
    assert (t ≠ Root) as Hne by (intros ->; done).
    eexists. split.
    - unfold Infos. rewrite (BuildNodeInfos_other AR Root links t Hne).
      by rewrite bool_decide_eq_true_2.
    - done. }
  { simpl. lia. }
  exists F. split; [done|].
  rewrite (RebuildGraph_unfold _ _ _ Hlinks). fold Root Origin Infos.
  cbv zeta in Hrun. rewrite Hrun. reflexivity.
Qed.

(** When the root is among its own referencers, [RebuildGraph] never
    returns. *)
Lemma RebuildGraph_self_reference fuel G links :
  GetSortedLinks AR fuel (CurrentGraphRootIdentifier G) = Done links →
  CurrentGraphRootIdentifier G ∈ links.*1 →
  ¬ Returns (RebuildGraph AR impl fuel G).
Proof.
  intros Hlinks Hroot [r Hr]. rewrite (RebuildGraph_unfold _ _ _ Hlinks) in Hr.
  destruct (RecursivelyCreateNodes _ _ _ _ _ _ _ _) as [r'| |] eqn:Hrun; [|done..].
  eapply (RecursivelyCreateNodes_own_child impl _ _ _
            (BuildNodeInfos_root AR (CurrentGraphRootIdentifier G) links)).
  - simpl. apply keys_FirstPerTarget. by right.
  - by eexists.
Qed.

Lemma BuildNodeInfos_TableActive Root links :
  Forall (λ Pair, IsActive Pair.2) links → TableActive (BuildNodeInfos AR Root links).
Proof.
  intros Hact t Info Ht.
  destruct (decide (t = Root)) as [->|Hne].
  - rewrite BuildNodeInfos_root in Ht. simplify_eq. simpl.
    assert (∀ cs, Forall (λ Pair : FAssetIdentifier * EDependencyPinCategory,
                            IsActive Pair.2) cs →
                  Forall (λ Pair : FAssetIdentifier * EDependencyPinCategory,
                            IsActive Pair.2) (FirstPerTarget cs links)) as Hgen.
    { induction Hact as [|Pair links HPair _ IH]; intros cs Hcs; simpl; [done|].
      apply IH. case_bool_decide; [done|]. apply Forall_app. by split; [|constructor]. }
    by apply Hgen.
  - rewrite BuildNodeInfos_other in Ht by done.
    case_bool_decide; simplify_eq. simpl. constructor.
Qed.

Lemma RebuildGraph_EdgeNamed fuel G G' r :
  RebuildGraph AR impl fuel G = Done (G', r) → Forall EdgeNamed (Nodes G').
Proof.
  intros Hrun. destruct (RebuildGraph_links _ _ _ Hrun) as [links Hlinks].
  rewrite (RebuildGraph_unfold _ _ _ Hlinks) in Hrun.
  destruct (RecursivelyCreateNodes _ _ _ _ _ _ _ _) as [r'| |] eqn:Hrec; [|done..].
  injection Hrun as <- <-. simpl.
  eapply (RecursivelyCreateNodes_EdgeNamed impl); [| |exact Hrec].
  - apply BuildNodeInfos_TableActive, Forall_forall. intros [t c] Hin. simpl.
    by eapply GetSortedLinks_active.
  - apply Forall_singleton. intros Hl. by destruct Hl.
Qed.

End RebuildGraphFacts.

(** ** Sample registries *)

Module Sample.

Definition Root : FAssetIdentifier := AssetId_of_package "/Game/Root".
Definition A : FAssetIdentifier := AssetId_of_package "/Game/A".
Definition B : FAssetIdentifier := AssetId_of_package "/Game/B".
Definition T : FAssetIdentifier := AssetId_of_package "/Game/T".
Definition R1 : FAssetIdentifier := AssetId_of_package "/Game/R1".
Definition R2 : FAssetIdentifier := AssetId_of_package "/Game/R2".

(** Flag sets of raw records, in the values of [StdEngine]. *)
Definition Hard : EDependencyProperty := 1.
Definition Soft : EDependencyProperty := 0.
Definition HardGame : EDependencyProperty := 3.

(** Every package is on disk, except [/Game/T]. *)
Definition PackageData (Name : FName) : option FAssetPackageData :=
  if String.eqb Name "/Game/T" then None else Some {| DiskSize := 100 |}.

(** [/Game/T] holds a redirector. *)
Definition Assets (Name : FName) : list FAssetData :=
  if String.eqb Name "/Game/T"
  then [mkAssetData Name "T" "/Script/CoreUObject.ObjectRedirector" true]
  else [mkAssetData Name "Asset" "/Script/Engine.Blueprint" false].

Definition RegistryOf (Referencers : FAssetIdentifier → list FAssetDependency)
    (ReferencerIds : FAssetIdentifier → list FAssetIdentifier) : IAssetRegistry := {|
  GetReferencers Id _ := Referencers Id;
  GetReferencerIds Id _ := ReferencerIds Id;
  GetAssetPackageDataCopy := PackageData;
  GetAssetsByPackageName := Assets;
  GetAssetForPackages _ := ∅;
|}.

(** The root is referenced by the redirector [T], which [R1] and [R2]
    reference. *)
Definition Redirected : IAssetRegistry :=
  RegistryOf
    (λ Id, if decide (Id = Root) then [mkDep T Package Hard] else [])
    (λ Id, if decide (Id = T) then [R1; R2] else []).

(** The index reports [A] three times and [B] once. *)
Definition Repeated : IAssetRegistry :=
  RegistryOf
    (λ Id, if decide (Id = Root)
           then [mkDep A Package Hard; mkDep B Manage Soft;
                 mkDep A Package Hard; mkDep A Package Soft]
           else [])
    (λ _, []).

(** The index reports the root as a referencer of itself. *)
Definition SelfReferencing : IAssetRegistry :=
  RegistryOf
    (λ Id, if decide (Id = Root) then [mkDep Root Package Hard] else [])
    (λ _, []).

Definition EmptyGraph : UEdGraph_RefExplorer := mkGraph Root (0, 0) ∅ [].

(** A table in which the root has the single child [A]. *)
Definition OneChild : gmap FAssetIdentifier FRefExplorerNodeInfo :=
  <[Root := mkNodeInfo Root FAssetData_default [(A, 5)] ∅]>
    (<[A := mkNodeInfo A FAssetData_default [] {[Root]}]> ∅).

End Sample.

Example GetSortedLinks_Redirected :
  GetSortedLinks Sample.Redirected 10 Sample.Root = Done [].
Proof. vm_compute. reflexivity. Qed.

Example GetSortedLinks_Repeated :
  GetSortedLinks Sample.Repeated 10 Sample.Root = Done [(Sample.A, 5); (Sample.B, 3)].
Proof. vm_compute. reflexivity. Qed.

Example GetSortedLinks_SelfReferencing :
  GetSortedLinks Sample.SelfReferencing 10 Sample.Root = Done [(Sample.Root, 5)].
Proof. vm_compute. reflexivity. Qed.

(** ** [int32] arithmetic *)

Lemma Int32_in_range z : -2147483648 ≤ z ≤ 2147483647 → Int32 z = z.
Proof. intros Hz. unfold Int32. rewrite Z.mod_small; lia. Qed.

Lemma Int32_range z : -2147483648 ≤ Int32 z ≤ 2147483647.
Proof. unfold Int32. pose proof (Z.mod_pos_bound (z + 2147483648) 4294967296). lia. Qed.

(** Wrapping an operand first changes nothing of the wrapped difference. *)
Lemma Int32_sub_Int32 a b : Int32 (a - Int32 b) = Int32 (a - b).
Proof.
  unfold Int32.
  replace (a - ((b + 2147483648) mod 4294967296 - 2147483648) + 2147483648)
    with ((a + 2147483648 + 2147483648) - (b + 2147483648) mod 4294967296) by lia.
  rewrite Zminus_mod_idemp_r. do 2 f_equal. lia.
Qed.

(** * The specification's claims *)

(** ** C1: the layout of the children *)

(** The layout rule in the words of the specification, over the real
    numbers, with [FixedStep] = 400. *)
Module SpecLayout.
Local Open Scope R_scope.

Definition FixedStep : R := 400.
Definition deltaAngle (n : Z) : R := PI / IZR n.
Definition lastAngle (n : Z) : R := deltaAngle n * IZR (if (n =? 1)%Z then 0 else n - 1).
Definition radius (n : Z) : R :=
  FixedStep / Rmax (Rabs (1 - cos (deltaAngle n))) (Rabs (sin (deltaAngle n))).
Definition x (parentX n i : Z) : R :=
  IZR parentX + radius n * cos (IZR i * deltaAngle n + (PI - lastAngle n / 2)).
Definition y (parentY n i : Z) : R :=
  IZR parentY - radius n * sin (IZR i * deltaAngle n + (PI - lastAngle n / 2)).

End SpecLayout.

Lemma SpecLayout_x_single : SpecLayout.x 0 1 0 = (-200)%R.
Proof.
  unfold SpecLayout.x, SpecLayout.radius, SpecLayout.lastAngle, SpecLayout.deltaAngle,
    SpecLayout.FixedStep. simpl.
  replace (PI / 1)%R with PI by lra.
  replace (0 * PI + (PI - PI * 0 / 2))%R with PI by lra.
  rewrite cos_PI, sin_PI.
  replace (1 - -1)%R with 2%R by lra.
  rewrite (Rabs_right 2) by lra. rewrite Rabs_R0.
  rewrite Rmax_left by lra. lra.
Qed.

(** C1, counterexample: for a single child of a parent at (0, 0) the rule of
    the claim puts the child at x = -200, while [UEdGraph_RefExplorer] puts
    it at x = -256; no rounding of [float] accounts for the difference, and
    no [int32] operation wraps here. *)
Lemma layout_x_counterexample :
  (ChildLoc (M := ExactMath) RefExplorer (0, 0) 1 0).1 = -256 ∧
  SpecLayout.x 0 1 0 = (-200)%R ∧
  (Rabs (IZR (ChildLoc (M := ExactMath) RefExplorer (0%Z, 0%Z) 1%Z 0%Z).1
         - SpecLayout.x 0 1 0) > 1)%R.
Proof.
  split; [reflexivity|]. split; [apply SpecLayout_x_single|].
  rewrite SpecLayout_x_single.
  change (ChildLoc (M := ExactMath) RefExplorer (0, 0) 1 0).1 with (-256).
  replace (-256 - -200)%R with (-56)%R by lra.
  rewrite Rabs_left by lra. lra.
Qed.

(** C1, as amended: a parent at [Loc] with [n] > 0 children, all of them
    leaves of the table, gets one node per child, in the order of its
    [Children]; the node of child [i] lies at
    y = Loc.y - radius * sin (i * deltaAngle + (pi - lastAngle / 2)) and, in
    [UEdGraph_ReferenceExplorer], at
    x = Loc.x + radius * cos (i * deltaAngle + (pi - lastAngle / 2)), with
    deltaAngle = pi / n, lastAngle = deltaAngle * (n == 1 ? 0 : n - 1) and
    radius = 400 / max (|1 - cos deltaAngle|, |sin deltaAngle|), all in
    [float] and converted to [int32]; in [UEdGraph_RefExplorer] x is
    Loc.x - (min (i, n - i - 1) + 1) * 256 instead, in [int32] arithmetic:
    the value wrapped into [-2^31, 2^31), which is the exact value whenever
    that lies in this range. *)
Theorem child_positions {E : Engine} {M : FMath} (impl : Implementation) (fuel : nat)
    (Infos : gmap FAssetIdentifier FRefExplorerNodeInfo)
    (Id : FAssetIdentifier) (Info : FRefExplorerNodeInfo) (Loc : Z * Z)
    (Parent : nat) (bIsRoot : bool) (Nodes : list UEdGraphNode_RefExplorer)
    (i : nat) (Pair : FAssetIdentifier * EDependencyPinCategory) :
  Infos !! Id = Some Info →
  Forall (λ Pair, IsLeaf Infos Pair.1) (Children Info) →
  (bIsRoot = true → (Parent < length Nodes)%nat) →
  Children Info !! i = Some Pair →
  let n := Z.of_nat (length (Children Info)) in
  let deltaAngle := fdiv UE_PI (float_of_int32 n) in
  let lastAngle := fmul deltaAngle (float_of_int32 (if n =? 1 then 0 else n - 1)) in
  let radius :=
    fdiv (float_of_int32 400)
      (FMath_Max (FMath_Abs (fsub (float_of_int32 1) (FMath_Cos deltaAngle)))
                 (FMath_Abs (FMath_Sin deltaAngle))) in
  let angle :=
    fadd (fmul (float_of_int32 (Z.of_nat i)) deltaAngle)
         (fsub UE_PI (fdiv lastAngle (float_of_int32 2))) in
  let First := if bIsRoot then length Nodes else S (length Nodes) in
  ∃ Nodes' NewNode Child,
    RecursivelyCreateNodes impl (S (S fuel)) Id Loc Parent Infos bIsRoot Nodes =
      Done (Nodes', NewNode) ∧
    length Nodes' = (First + length (Children Info))%nat ∧
    Nodes' !! (First + i)%nat = Some Child ∧
    Identifier Child = Pair.1 ∧
    NodePosY Child =
      int32_of_float (fsub (float_of_int32 Loc.2) (fmul radius (FMath_Sin angle))) ∧
    NodePosX Child =
      match impl with
      | ReferenceExplorer =>
          int32_of_float (fadd (float_of_int32 Loc.1) (fmul radius (FMath_Cos angle)))
      | RefExplorer =>
          Int32 (Loc.1 - (Z.min (Z.of_nat i) (n - Z.of_nat i - 1) + 1) * 256)
      end ∧
    (impl = RefExplorer →
     -2147483648 ≤ Loc.1 - (Z.min (Z.of_nat i) (n - Z.of_nat i - 1) + 1) * 256 ≤ 2147483647 →
     NodePosX Child = Loc.1 - (Z.min (Z.of_nat i) (n - Z.of_nat i - 1) + 1) * 256).
Proof.
  intros HInfo Hleaves HParent HPair n deltaAngle lastAngle radius angle First.
  destruct (RecursivelyCreateNodes_leaves impl fuel Infos Id Info Loc Parent bIsRoot Nodes
              HInfo Hleaves HParent) as (F & _ & Hrun).
  cbv zeta in Hrun.
  eexists _, _, (LeafNode _ (ChildLoc impl Loc n (Z.of_nat i)) Pair (InfoData Infos Pair.1)).
  split; [exact Hrun|].
  assert (length (alter F (if bIsRoot then Parent else length Nodes)
                    (if bIsRoot then Nodes
                     else Nodes ++ [mkNode Loc.1 Loc.2 Id (NodeInfo_AssetData Info)
                                      AllocateDefaultPins AllocateDefaultPins])) = First)
    as HFirst.
  { rewrite length_alter. subst First. destruct bIsRoot; [done|].
    rewrite length_app. simpl. lia. }
  split_and!.
  - by rewrite length_app, length_imap, HFirst.
  - rewrite lookup_app_r by lia. rewrite HFirst, Nat.add_sub', list_lookup_imap, HPair. done.
  - done.
  - by destruct impl.
  - destruct impl; [|done]. cbn [LeafNode NodePosX ChildLoc fst]. apply Int32_sub_Int32.
  - intros -> Hrange. cbn [LeafNode NodePosX ChildLoc fst].
    rewrite Int32_sub_Int32. by apply Int32_in_range.
Qed.

(** A witness for [child_positions]: the root of [Sample.OneChild] at (0, 0)
    in [UEdGraph_RefExplorer]; its only child lands at x = -256. *)
Lemma child_positions_witness :
  ∃ Nodes' NewNode Child,
    RecursivelyCreateNodes (M := ExactMath) RefExplorer 2 Sample.Root (0, 0) 0
      Sample.OneChild true
      [mkNode 0 0 Sample.Root FAssetData_default AllocateDefaultPins AllocateDefaultPins]
    = Done (Nodes', NewNode) ∧
    Nodes' !! 1%nat = Some Child ∧ Identifier Child = Sample.A ∧ NodePosX Child = -256.
Proof.
  destruct (child_positions (M := ExactMath) RefExplorer 0 Sample.OneChild Sample.Root
              (mkNodeInfo Sample.Root FAssetData_default [(Sample.A, 5)] ∅) (0, 0) 0 true
              [mkNode 0 0 Sample.Root FAssetData_default AllocateDefaultPins
                 AllocateDefaultPins]
              0 (Sample.A, 5))
    as (Nodes' & NewNode & Child & Hrun & _ & HChild & HId & _ & HX & _).
  - reflexivity.
  - repeat constructor. eexists. split; [reflexivity|reflexivity].
  - intros _. simpl. lia.
  - reflexivity.
  - exists Nodes', NewNode, Child. split_and!; [exact Hrun|exact HChild|exact HId|exact HX].
Defined.

(** ** C2: targets without package data, and redirectors *)

(** C2, at the failing input: the root's only referencer [T] has no package
    data and is a redirector that [R1] and [R2] reference, both on disk.
    The loop removes [T] from [ReferenceIds] and inserts [R1] and [R2] in
    its place (the comment in the code: "If this is a redirector replace
    with references"), but [OutLinks] only ever loses entries: the final
    edge set is empty, so [T] is gone and [R1] and [R2] have not taken its
    place. *)
Theorem redirector_referencers_lost :
  BadPackage Sample.Redirected (PackageName Sample.T) = true ∧
  Refs Sample.Redirected Sample.T = [Sample.R1; Sample.R2] ∧
  Passes Sample.Redirected Sample.R1 = true ∧
  Passes Sample.Redirected Sample.R2 = true ∧
  (Classified Sample.Redirected Sample.Root).*1 = [Sample.T] ∧
  ∃ links,
    GetSortedLinks Sample.Redirected 10 Sample.Root = Done links ∧
    Sample.T ∉ links.*1 ∧ Sample.R1 ∉ links.*1 ∧ Sample.R2 ∉ links.*1.
Proof.
  split_and!; [reflexivity..|].
  exists []. split; [exact GetSortedLinks_Redirected|].
  split_and!; apply not_elem_of_nil.
Qed.

(** The part of C2 the code keeps: when redirectors do not refer to each
    other in a cycle, [GetSortedLinks] returns, and what it returns is the
    classified edge set without the targets that have a package name other
    than [None] and no package data or a negative size on disk.  Such a
    target [T] is absent.  What the loop inserts into [ReferenceIds] never
    adds an entry. *)
Lemma post_filter_only_removes {E : Engine} (AR : IAssetRegistry)
    (rank : FAssetIdentifier → nat) (root : FAssetIdentifier) (fuel : nat) :
  Acyclic AR rank → (FuelBound AR rank root < fuel)%nat →
  ∃ links,
    GetSortedLinks AR fuel root = Done links ∧
    links = List.filter (λ p, Passes AR p.1) (Classified AR root) ∧
    (∀ T, PackageName T ≠ NAME_None → BadPackage AR (PackageName T) = true →
          T ∉ links.*1) ∧
    (∀ R, R ∈ links.*1 ↔ R ∈ (Classified AR root).*1 ∧ Passes AR R = true).
Proof.
  intros Hrank Hfuel. eexists. split; [by apply GetSortedLinks_returns with rank|].
  split; [done|].
  assert (∀ R, R ∈ (List.filter (λ p, Passes AR p.1) (Classified AR root)).*1 ↔
               R ∈ (Classified AR root).*1 ∧ Passes AR R = true) as Hkeys.
  { intros R. rewrite !list_elem_of_fmap. split.
    - intros ([k c] & -> & Hin). apply list_elem_of_In, List.filter_In in Hin as [Hin Hp].
      split; [|done]. exists (k, c). split; [done|]. by apply list_elem_of_In.
    - intros [([k c] & -> & Hin) Hp]. exists (k, c). split; [done|].
      apply list_elem_of_In, List.filter_In. split; [by apply list_elem_of_In|done]. }
  split; [|done].
  intros T HName HBad [_ HT]%Hkeys. unfold Passes in HT.
  rewrite HBad, orb_false_r in HT. by apply String.eqb_eq in HT.
Qed.

(** The rank of redirectors in [Sample.Redirected]. *)
Definition RedirectedRank (x : FAssetIdentifier) : nat :=
  if String.eqb (PackageName x) "/Game/T" then 1%nat else 0%nat.

Lemma Redirected_Acyclic : Acyclic Sample.Redirected RedirectedRank.
Proof.
  intros x r Hx Hr Hpr.
  assert (PackageName x = "/Game/T"%string) as Hname.
  { unfold Passes, BadPackage in Hx. simpl in Hx. unfold Sample.PackageData in Hx.
    destruct (String.eqb_spec (PackageName x) "/Game/T"); [done|].
    by rewrite orb_true_r in Hx. }
  unfold Refs in Hr. rewrite Hname in Hr. simpl in Hr.
  apply elem_of_cons in Hr as [->|Hr]; [done|].
  apply elem_of_cons in Hr as [->|Hr]; [done|].
  by apply elem_of_nil in Hr.
Qed.

(** [post_filter_only_removes] at [Sample.Redirected]. *)
Lemma post_filter_only_removes_witness :
  ∃ links,
    GetSortedLinks Sample.Redirected 10 Sample.Root = Done links ∧
    links = List.filter (λ p, Passes Sample.Redirected p.1)
              (Classified Sample.Redirected Sample.Root) ∧
    (∀ T, PackageName T ≠ NAME_None →
          BadPackage Sample.Redirected (PackageName T) = true → T ∉ links.*1) ∧
    (∀ R, R ∈ links.*1 ↔
          R ∈ (Classified Sample.Redirected Sample.Root).*1 ∧
          Passes Sample.Redirected R = true).
Proof.
  apply (post_filter_only_removes Sample.Redirected RedirectedRank Sample.Root 10).
  - exact Redirected_Acyclic.
  - vm_compute. lia.
Defined.

(** ** C3: one entry and one edge per target *)

Lemma Classified_keys {E : Engine} `{!EngineLaws E} (AR : IAssetRegistry)
    (root : FAssetIdentifier) (Link : FAssetDependency) :
  Link ∈ GetReferencers AR root Categories → AssetId Link ∈ (Classified AR root).*1.
Proof.
  intros Hin. unfold Classified, ClassifyLinks.
  apply elem_of_keys_AccumulateLinks. right.
  apply list_elem_of_fmap. exists Link. split; [done|].
  rewrite Algo_Sort_Permutation; [done|]. apply LinkLess_swo, LexicalLess_swo.
Qed.

Lemma filter_key_once {V} (l : list (FAssetIdentifier * V)) (t : FAssetIdentifier) :
  NoDup l.*1 → t ∈ l.*1 → length (filter (λ Pair, Pair.1 = t) l) = 1%nat.
Proof.
  induction l as [|[k v] l IH]; simpl; [by intros _ ?%elem_of_nil|].
  rewrite NoDup_cons. intros [Hk Hnd] Hin.
  rewrite filter_cons. simpl. case_decide as Hkt.
  - subst k. simpl. f_equal.
    clear IH Hin. induction l as [|[k' v'] l IH]; [done|].
    rewrite filter_cons. simpl. case_decide.
    + subst. destruct Hk. simpl. left.
    + apply IH; [set_solver|]. by apply NoDup_cons in Hnd as [_ ?].
  - apply IH; [done|]. set_solver.
Qed.

(** Adding a link whose target the root is already a parent of changes
    nothing. *)
Lemma PopulateLink_again (Root : FAssetIdentifier)
    (Infos : gmap FAssetIdentifier FRefExplorerNodeInfo)
    (Pair Pair' : FAssetIdentifier * EDependencyPinCategory) :
  Pair'.1 = Pair.1 →
  PopulateLink Root (PopulateLink Root Infos Pair) Pair' = PopulateLink Root Infos Pair.
Proof.
  intros Hkey.
  assert (∃ ChildInfo, PopulateLink Root Infos Pair !! Pair.1 = Some ChildInfo ∧
                       Root ∈ Parents ChildInfo) as (ChildInfo & HChild & HParent).
  { unfold PopulateLink.
    destruct (Infos !! Pair.1) as [ChildInfo|] eqn:HInfo.
    - destruct (decide (Root ∈ Parents ChildInfo)) as [Hin|Hin].
      + rewrite bool_decide_eq_true_2 by done. simpl. by exists ChildInfo.
      + rewrite bool_decide_eq_false_2 by done. simpl.
        destruct (decide (Pair.1 = Root)) as [HR|HR].
        * rewrite HR in *. rewrite !lookup_alter_eq, HInfo. simpl.
          eexists. split; [done|]. simpl. set_solver.
        * rewrite lookup_alter_ne, lookup_alter_eq, HInfo by done. simpl.
          eexists. split; [done|]. simpl. set_solver.
    - destruct (decide (Pair.1 = Root)) as [HR|HR].
      + rewrite HR in *. rewrite !lookup_alter_eq, lookup_insert_eq. simpl.
        eexists. split; [done|]. simpl. set_solver.
      + rewrite lookup_alter_ne, lookup_alter_eq, lookup_insert_eq by done. simpl.
        eexists. split; [done|]. simpl. set_solver. }
  unfold PopulateLink at 1. rewrite Hkey, HChild.
  by rewrite bool_decide_eq_true_2.
Qed.

(** The index reports the referencer [T] twice; the package of [T] is not
    on disk. *)
Definition RepeatedMissing : IAssetRegistry :=
  Sample.RegistryOf
    (λ Id, if decide (Id = Sample.Root)
           then [mkDep Sample.T Package Sample.Hard; mkDep Sample.T Package Sample.Hard]
           else [])
    (λ _, []).

Example GetSortedLinks_RepeatedMissing :
  GetSortedLinks RepeatedMissing 10 Sample.Root = Done [].
Proof. vm_compute. reflexivity. Qed.

(** C3, counterexample: the index reports the pair (root, [T]) twice, and
    [T] has no package data.  [RebuildGraph] returns a table without an
    entry for [T] and a root without children: the target is recorded not
    once but not at all. *)
Lemma missing_package_counterexample :
  length (filter (λ L, AssetId L = Sample.T)
            (GetReferencers RepeatedMissing Sample.Root Categories)) = 2%nat ∧
  ∃ G' RootInfo,
    RebuildGraph (M := ExactMath) RepeatedMissing RefExplorer 10 Sample.EmptyGraph
    = Done (G', Some 0%nat) ∧
    RefExplorerNodeInfos G' !! Sample.T = None ∧
    RefExplorerNodeInfos G' !! Sample.Root = Some RootInfo ∧
    Children RootInfo = [].
Proof.
  split; [reflexivity|].
  destruct (RebuildGraph_returns (M := ExactMath) RepeatedMissing RefExplorer 8
              Sample.EmptyGraph [] GetSortedLinks_RepeatedMissing)
    as (F & _ & Hrun); [apply not_elem_of_nil|].
  eexists _, _. split; [exact Hrun|]. cbn [RefExplorerNodeInfos].
  split_and!.
  - by rewrite BuildNodeInfos_other.
  - apply BuildNodeInfos_root.
  - reflexivity.
Qed.

(** C3, as amended: [RebuildGraph] returns when redirectors do not refer to
    each other in a cycle and the root is not reported as a referencer of
    itself; and whenever it returns, then for every referencer [Link] the
    index reports for the root, however often it reports it: if the target
    passes the post-filter (no package name, or package data with a size on
    disk that is not negative), the table holds an entry for the target,
    the root's [Children] hold exactly one edge to it, and the root is in
    the target's [Parents] (a set); if the target does not pass, the root's
    [Children] hold no edge to it and the table holds no entry for it.
    Adding a link again leaves the table as it is. *)
Theorem edges_recorded_once {E : Engine} `{!EngineLaws E} {M : FMath}
    (AR : IAssetRegistry) (impl : Implementation) (fuel : nat)
    (G : UEdGraph_RefExplorer) (Link : FAssetDependency) :
  let Root := CurrentGraphRootIdentifier G in
  Link ∈ GetReferencers AR Root Categories →
  (∀ rank, Acyclic AR rank → Root ∉ AssetId <$> GetReferencers AR Root Categories →
     (FuelBound AR rank Root < fuel)%nat → (1 < fuel)%nat →
     ∃ G' r, RebuildGraph AR impl fuel G = Done (G', r)) ∧
  (∀ G' r, RebuildGraph AR impl fuel G = Done (G', r) →
     let Infos := RefExplorerNodeInfos G' in
     (Passes AR (AssetId Link) = true →
      ∃ RootInfo TargetInfo,
        Infos !! Root = Some RootInfo ∧
        Infos !! AssetId Link = Some TargetInfo ∧
        NodeInfo_AssetId TargetInfo = AssetId Link ∧
        length (filter (λ Pair, Pair.1 = AssetId Link) (Children RootInfo)) = 1%nat ∧
        Root ∈ Parents TargetInfo) ∧
     (Passes AR (AssetId Link) = false →
      ∃ RootInfo,
        Infos !! Root = Some RootInfo ∧
        filter (λ Pair, Pair.1 = AssetId Link) (Children RootInfo) = [] ∧
        (AssetId Link ≠ Root → Infos !! AssetId Link = None))) ∧
  (∀ Infos0 Pair Pair', Pair'.1 = Pair.1 →
     PopulateLink Root (PopulateLink Root Infos0 Pair) Pair' = PopulateLink Root Infos0 Pair).
Proof.
  intros Root HLink. split_and!; [| |apply PopulateLink_again].
  { intros rank Hrank Hself Hfuel Htwo.
    destruct fuel as [|[|fuel]]; [lia..|].
    pose proof (GetSortedLinks_returns AR rank Root _ Hrank Hfuel) as Hlinks.
    destruct (RebuildGraph_returns AR impl fuel G _ Hlinks) as (F & _ & Hrun).
    - fold Root. intros Hin. apply Hself.
      apply list_elem_of_fmap in Hin as ([k c] & Hk & Hkc). simpl in Hk. subst k.
      apply list_elem_of_In, List.filter_In in Hkc as [Hkc _].
      assert (Root ∈ (Classified AR Root).*1) as Hkey.
      { apply list_elem_of_fmap. exists (Root, c). split; [done|]. by apply list_elem_of_In. }
      unfold Classified, ClassifyLinks in Hkey.
      apply elem_of_keys_AccumulateLinks in Hkey as [Hkey|Hkey]; [by apply elem_of_nil in Hkey|].
      apply list_elem_of_fmap in Hkey as (L & HL & HLin).
      apply list_elem_of_fmap. exists L. split; [done|].
      rewrite Algo_Sort_Permutation in HLin; [done|]. apply LinkLess_swo, LexicalLess_swo.
    - eexists _, _. exact Hrun. }
  intros G' r Hrun Infos.
  destruct (RebuildGraph_links AR impl fuel G _ Hrun) as [links Hlinks].
  assert (Infos = BuildNodeInfos AR Root links) as HInfos.
  { rewrite (RebuildGraph_unfold AR impl fuel G links Hlinks) in Hrun.
    destruct (RecursivelyCreateNodes _ _ _ _ _ _ _ _); [|done..].
    unfold Infos. by injection Hrun as <- <-. }
  pose proof (GetSortedLinks_NoDup _ _ _ _ Hlinks) as Hnd.
  pose proof (BuildNodeInfos_root AR Root links) as HRoot.
  rewrite (FirstPerTarget_NoDup links []) in HRoot by done. simpl in HRoot.
  assert (AssetId Link ∈ links.*1 ↔ Passes AR (AssetId Link) = true) as Hiff.
  { rewrite (GetSortedLinks_Done _ _ _ _ Hlinks). rewrite list_elem_of_fmap. split.
    - intros ([k c] & Hk & Hkc). simpl in Hk. subst k.
      by apply list_elem_of_In, List.filter_In in Hkc as [_ Hp].
    - intros HPass.
      pose proof (Classified_keys AR Root Link HLink) as Hk.
      apply list_elem_of_fmap in Hk as ([k c] & Hk & Hkc). simpl in Hk. subst k.
      exists (AssetId Link, c). split; [done|].
      apply list_elem_of_In, List.filter_In. split; [by apply list_elem_of_In|done]. }
  rewrite HInfos. split.
  - intros HPass. apply Hiff in HPass as Hin.
    destruct (decide (AssetId Link = Root)) as [Heq|Hne].
    + eexists _, _. split; [exact HRoot|]. rewrite Heq. split; [exact HRoot|].
      simpl. split; [done|]. split.
      * rewrite <- Heq. by apply filter_key_once.
      * unfold RootParents. rewrite bool_decide_eq_true_2; [set_solver|].
        by rewrite <- Heq.
    + eexists _, _. split; [exact HRoot|]. split.
      { rewrite (BuildNodeInfos_other AR Root links _ Hne).
        by rewrite bool_decide_eq_true_2. }
      simpl. split; [done|]. split; [by apply filter_key_once|set_solver].
  - intros HFail.
    assert (AssetId Link ∉ links.*1) as Hout by (rewrite Hiff; congruence).
    eexists. split; [exact HRoot|]. cbn [Children]. split.
    + clear -Hout. induction links as [|[k c] links IH]; [done|].
      rewrite filter_cons. cbn [fst]. rewrite fmap_cons, not_elem_of_cons in Hout.
      destruct Hout as [Hk Hout]. rewrite decide_False by done. by apply IH.
    + intros Hne. rewrite (BuildNodeInfos_other AR Root links _ Hne).
      by rewrite bool_decide_eq_false_2.
Qed.

(** A witness for [edges_recorded_once]: [Sample.Repeated] reports [A]
    three times; [RebuildGraph] returns, with one entry and one edge for
    [A]. *)
Lemma edges_recorded_once_witness :
  ∃ G' r RootInfo TargetInfo,
    RebuildGraph (M := ExactMath) Sample.Repeated RefExplorer 10 Sample.EmptyGraph
    = Done (G', r) ∧
    RefExplorerNodeInfos G' !! Sample.Root = Some RootInfo ∧
    RefExplorerNodeInfos G' !! Sample.A = Some TargetInfo ∧
    length (filter (λ Pair, Pair.1 = Sample.A) (Children RootInfo)) = 1%nat ∧
    Sample.Root ∈ Parents TargetInfo.
Proof.
  destruct (edges_recorded_once (M := ExactMath) Sample.Repeated RefExplorer 10
              Sample.EmptyGraph (mkDep Sample.A Package Sample.Hard))
    as (Hreturns & Hrecorded & _).
  { simpl. left. }
  destruct (Hreturns (λ _, 0%nat)) as (G' & r & Hrun).
  - intros x y Hx Hy _.
    assert (PackageName x = "/Game/T"%string) as Hname.
    { unfold Passes, BadPackage in Hx. simpl in Hx. unfold Sample.PackageData in Hx.
      destruct (String.eqb_spec (PackageName x) "/Game/T"); [done|].
      by rewrite orb_true_r in Hx. }
    unfold Refs in Hy. rewrite Hname in Hy. simpl in Hy.
    by apply elem_of_nil in Hy.
  - vm_compute. intros Hin. repeat (apply elem_of_cons in Hin as [Hin|Hin]; [done|]).
    by apply elem_of_nil in Hin.
  - vm_compute. lia.
  - lia.
  - destruct (Hrecorded G' r Hrun)
      as ((RootInfo & TargetInfo & HRoot & HTarget & _ & HOnce & HParent) & _).
    + reflexivity.
    + eexists G', r, RootInfo, TargetInfo.
      split_and!; [exact Hrun|exact HRoot|exact HTarget|exact HOnce|exact HParent].
Defined.

(** ** C4: the order of the sorted records *)

(** With one record per target, the keys of the map are the targets in the
    order of the records. *)
Lemma keys_AccumulateLinks_distinct {E : Engine} (l : list FAssetDependency) :
  ∀ m : TMap FAssetIdentifier EDependencyPinCategory,
  NoDup (m.*1 ++ (AssetId <$> l)) → (AccumulateLinks m l).*1 = m.*1 ++ (AssetId <$> l).
Proof.
  unfold AccumulateLinks. induction l as [|L l IH]; intros m Hnd; simpl.
  - by rewrite app_nil_r.
  - rewrite fmap_cons in Hnd.
    assert (AssetId L ∉ m.*1) as Hout.
    { apply NoDup_app in Hnd as (_ & Hdisj & _). intros Hin.
      apply (Hdisj _ Hin). left. }
    rewrite IH; rewrite keys_AccumulateLink, bool_decide_eq_false_2 by done;
      rewrite <- (assoc_L (++)); done.
Qed.

(** C4: the classifier accumulates its records from an array [sorted] that
    holds the records the index reported and in which, of two records, the
    earlier one has the smaller category order
    ([Package] < [Manage] < [SearchableName]); within a category no soft
    record precedes a hard one ([Hard] or [Direct] present), and for equal
    hardness the later record's package name is not lexically less than the
    earlier one's.  When no two records share a target, the keys of the
    classifier's map are the targets in this order.  A hard [Package]
    record, a soft [Package] record and a hard [Manage] record, in whatever
    order the index reports them, are accumulated in this order. *)
Theorem links_sorted_by_category_hardness_name {E : Engine} `{!EngineLaws E}
    (l : list FAssetDependency) :
  ∃ sorted,
    ClassifyLinks l = AccumulateLinks [] sorted ∧
    sorted ≡ₚ l ∧
    (∀ i j A B, (i < j)%nat → sorted !! i = Some A → sorted !! j = Some B →
       CategoryOrder (Category A) ≤ CategoryOrder (Category B) ∧
       (Category A = Category B →
          (IsHard (Properties B) = true → IsHard (Properties A) = true) ∧
          (IsHard (Properties A) = IsHard (Properties B) →
             LexicalLess (PackageName (AssetId B)) (PackageName (AssetId A)) = false))) ∧
    CategoryOrder Package < CategoryOrder Manage < CategoryOrder SearchableName ∧
    (NoDup (AssetId <$> l) → (ClassifyLinks l).*1 = AssetId <$> sorted) ∧
    (∀ PH PS MH,
       Category PH = Package → IsHard (Properties PH) = true →
       Category PS = Package → IsHard (Properties PS) = false →
       Category MH = Manage → IsHard (Properties MH) = true →
       l ≡ₚ [PH; PS; MH] →
       sorted = [PH; PS; MH] ∧
       (NoDup [AssetId PH; AssetId PS; AssetId MH] →
        (ClassifyLinks l).*1 = [AssetId PH; AssetId PS; AssetId MH])).
Proof.
  exists (Algo_Sort _ LinkLess l).
  pose proof (LinkLess_swo LexicalLess_swo) as Hswo.
  pose proof (Algo_Sort_Permutation _ LinkLess l Hswo) as Hperm.
  pose proof (Algo_Sort_Sorted _ LinkLess l Hswo) as Hsorted.
  assert (NoDup (AssetId <$> l) →
          (ClassifyLinks l).*1 = AssetId <$> Algo_Sort _ LinkLess l) as Hkeys.
  { intros Hnd. unfold ClassifyLinks.
    rewrite (keys_AccumulateLinks_distinct _ []); [done|]. simpl. by rewrite Hperm. }
  split_and!.
  - reflexivity.
  - exact Hperm.
  - intros i j A B Hij HA HB. apply not_LinkLess_keys.
    exact (StronglySorted_lookup _ _ i j A B Hsorted Hij HA HB).
  - simpl. lia.
  - simpl. lia.
  - exact Hkeys.
  - intros PH PS MH HcPH HhPH HcPS HhPS HcMH _ Hl.
    assert (Algo_Sort _ LinkLess l = [PH; PS; MH]) as Hthree.
    { apply sorted_three; try done. by rewrite <- Hl. }
    split; [exact Hthree|]. intros Hnd. rewrite Hkeys, Hthree; [done|].
    by rewrite Hl.
Qed.

(** A witness for [links_sorted_by_category_hardness_name]: the three
    records of the claim, reported in the reverse order; the classifier's
    map lists their targets hard [Package] first, soft [Package] second,
    hard [Manage] last. *)
Lemma links_sorted_witness :
  (ClassifyLinks (E := StdEngine)
     [mkDep Sample.A Manage 8; mkDep Sample.B Package 0; mkDep Sample.T Package 1]).*1
  = [Sample.T; Sample.B; Sample.A].
Proof.
  destruct (links_sorted_by_category_hardness_name
              [mkDep Sample.A Manage 8; mkDep Sample.B Package 0; mkDep Sample.T Package 1])
    as (sorted & _ & _ & _ & _ & _ & Hthree).
  apply (Hthree (mkDep Sample.T Package 1) (mkDep Sample.B Package 0)
           (mkDep Sample.A Manage 8) eq_refl eq_refl eq_refl eq_refl eq_refl eq_refl).
  - exact (Permutation_rev
             [mkDep Sample.A Manage 8; mkDep Sample.B Package 0; mkDep Sample.T Package 1]).
  - compute_done.
Defined.

(** ** C5: the accumulated category does not depend on the order *)

Lemma ClassifyLinks_Permutation {E : Engine} `{!EngineLaws E}
    (l1 l2 : list FAssetDependency) (t : FAssetIdentifier) :
  l1 ≡ₚ l2 → Find t (ClassifyLinks l1) = Find t (ClassifyLinks l2).
Proof.
  intros Hl. unfold ClassifyLinks. apply AccumulateLinks_Permutation.
  pose proof (LinkLess_swo LexicalLess_swo) as Hswo.
  by rewrite !Algo_Sort_Permutation.
Qed.

(** C5: for every target [t], the category that classifying a list of raw
    records gives [t] is the same for every arrangement of the list, in
    particular for [A; B] and [B; A]; each record ORs its bits into the
    entry, so a record that is reported twice counts as once. *)
Theorem category_merge_order_independent {E : Engine} `{!EngineLaws E}
    (l1 l2 : list FAssetDependency) (A B : FAssetDependency) (t : FAssetIdentifier) :
  l1 ≡ₚ l2 →
  Find t (ClassifyLinks l1) = Find t (ClassifyLinks l2) ∧
  Find t (AccumulateLinks [] l1) = Find t (AccumulateLinks [] l2) ∧
  Find t (ClassifyLinks [A; B]) = Find t (ClassifyLinks [B; A]) ∧
  Find t (AccumulateLinks [] [A; B]) = Find t (AccumulateLinks [] [B; A]) ∧
  Find t (AccumulateLinks [] (A :: A :: l1)) = Find t (AccumulateLinks [] (A :: l1)) ∧
  Find t (ClassifyLinks (A :: A :: l1)) = Find t (ClassifyLinks (A :: l1)) ∧
  (AssetId A = t → AssetId B = t →
   Find t (AccumulateLinks [] [A; B]) = Some (Z.lor (LinkBits A) (LinkBits B))).
Proof.
  intros Hl. split_and!.
  - by apply ClassifyLinks_Permutation.
  - by apply AccumulateLinks_Permutation.
  - apply ClassifyLinks_Permutation, Permutation_swap.
  - apply AccumulateLinks_Permutation, Permutation_swap.
  - rewrite !Find_AccumulateLinks. simpl. by rewrite MergeStep_idemp.
  - unfold ClassifyLinks.
    pose proof (LinkLess_swo LexicalLess_swo) as Hswo.
    rewrite (AccumulateLinks_Permutation t _ _ (Algo_Sort_Permutation _ _ (A :: A :: l1) Hswo)).
    rewrite (AccumulateLinks_Permutation t _ _ (Algo_Sort_Permutation _ _ (A :: l1) Hswo)).
    rewrite !Find_AccumulateLinks. simpl. by rewrite MergeStep_idemp.
  - intros HA HB. rewrite Find_AccumulateLinks. simpl. unfold MergeStep.
    rewrite !decide_True by done. simpl. f_equal. f_equal.
    unfold LinkBits. by rewrite !Z.lor_assoc, Z.lor_diag.
Qed.

(** A witness for [category_merge_order_independent]: a soft and a hard
    record of the same target, in both orders. *)
Lemma category_merge_witness :
  Find Sample.A (ClassifyLinks (E := StdEngine)
                   [mkDep Sample.A Package 0; mkDep Sample.A Package 3]) =
  Find Sample.A (ClassifyLinks (E := StdEngine)
                   [mkDep Sample.A Package 3; mkDep Sample.A Package 0]).
Proof.
  apply (category_merge_order_independent
           [mkDep Sample.A Package 0; mkDep Sample.A Package 3]
           [mkDep Sample.A Package 3; mkDep Sample.A Package 0]
           (mkDep Sample.A Package 0) (mkDep Sample.A Package 3) Sample.A).
  apply Permutation_swap.
Defined.

(** ** C6: a target that only soft records reach *)

(** C6, counterexample: a [SearchableName] record without any flag gives its
    target the category [LinkEndActive | LinkTypeUsedInGame], not
    [LinkEndActive | LinkTypeNone]. *)
Lemma searchable_name_counterexample :
  Z.land 0 (EDependencyProperty_Hard (Engine := StdEngine)) = 0 ∧
  Z.land 0 (EDependencyProperty_Game (Engine := StdEngine)) = 0 ∧
  ClassifyLinks (E := StdEngine) [mkDep Sample.A SearchableName 0] =
    [(Sample.A, Z.lor LinkEndActive LinkTypeUsedInGame)] ∧
  Z.lor LinkEndActive LinkTypeUsedInGame ≠ Z.lor LinkEndActive LinkTypeNone.
Proof. split_and!; [reflexivity..|done]. Qed.

Section SoftTargets.
Context {E : Engine}.

Lemma foldl_MergeStep_constant t v l :
  Z.lor LinkEndActive v = v →
  (∀ L, L ∈ l → AssetId L = t → LinkBits L = v) →
  ∀ o, o = None ∨ o = Some v →
    foldl (MergeStep t) o l = if bool_decide (t ∈ AssetId <$> l) then Some v else o.
Proof.
  intros Hv. induction l as [|L l IH]; intros Hl o Ho; [done|].
  rewrite fmap_cons. cbn [foldl]. rewrite IH.
  - unfold MergeStep. destruct (decide (AssetId L = t)) as [HL|HL].
    + rewrite (bool_decide_eq_true_2 (t ∈ AssetId L :: (AssetId <$> l))) by set_solver.
      destruct (bool_decide (t ∈ AssetId <$> l)); [done|].
      f_equal. rewrite (Hl L) by (done || left).
      destruct Ho as [->| ->]; simpl; [done|apply Z.lor_diag].
    + rewrite (bool_decide_ext (t ∈ AssetId L :: (AssetId <$> l)) (t ∈ AssetId <$> l))
        by set_solver. done.
  - intros L' HL'. apply Hl. by right.
  - unfold MergeStep. destruct (decide (AssetId L = t)) as [HL|HL]; [|done].
    right. f_equal. rewrite (Hl L) by (done || left).
    destruct Ho as [->| ->]; simpl; [done|apply Z.lor_diag].
Qed.

Lemma not_IsHard Props :
  Z.land Props EDependencyProperty_Hard = 0 →
  Z.land Props EDependencyProperty_Direct = 0 →
  IsHard Props = false.
Proof. unfold IsHard, EDependencyProperty_None. by intros -> ->. Qed.

End SoftTargets.

(** C6, as amended: a target that is reached only by [SearchableName]
    records carrying neither the [Hard] nor the [Direct] flag is classified
    [LinkEndActive | LinkTypeUsedInGame], soft and used in game, whatever the
    [Game] flag: every record of a category other than [Package] sets
    [LinkTypeUsedInGame].  [LinkEndActive | LinkTypeNone], soft and editor
    only, is the category of a target reached only by [Package] records
    carrying none of [Hard], [Direct] and [Game]. *)
Theorem soft_target_category {E : Engine} `{!EngineLaws E}
    (l : list FAssetDependency) (t : FAssetIdentifier) :
  t ∈ AssetId <$> l →
  (∀ L, L ∈ l → AssetId L = t →
     Z.land (Properties L) EDependencyProperty_Hard = 0 ∧
     Z.land (Properties L) EDependencyProperty_Direct = 0) →
  ((∀ L, L ∈ l → AssetId L = t → Category L = SearchableName) →
   Find t (ClassifyLinks l) = Some (Z.lor LinkEndActive LinkTypeUsedInGame)) ∧
  ((∀ L, L ∈ l → AssetId L = t →
      Category L = Package ∧ Z.land (Properties L) EDependencyProperty_Game = 0) →
   Find t (ClassifyLinks l) = Some (Z.lor LinkEndActive LinkTypeNone)).
Proof.
  intros Ht Hsoft.
  pose proof (LinkLess_swo LexicalLess_swo) as Hswo.
  assert (∀ v, Z.lor LinkEndActive v = v →
               (∀ L, L ∈ l → AssetId L = t → LinkBits L = v) →
               Find t (ClassifyLinks l) = Some v) as Hgen.
  { intros v Hv Hbits. unfold ClassifyLinks.
    rewrite (AccumulateLinks_Permutation t _ _ (Algo_Sort_Permutation _ _ l Hswo)).
    rewrite Find_AccumulateLinks. simpl.
    rewrite (foldl_MergeStep_constant t v l Hv Hbits) by (by left).
    by rewrite bool_decide_eq_true_2. }
  split.
  - intros Hcat. apply Hgen; [done|]. intros L HL HLt.
    destruct (Hsoft L HL HLt) as [Hh Hd]. unfold LinkBits.
    by rewrite (not_IsHard _ Hh Hd), (Hcat L HL HLt).
  - intros Hcat. apply Hgen; [done|]. intros L HL HLt.
    destruct (Hsoft L HL HLt) as [Hh Hd]. destruct (Hcat L HL HLt) as [Hc Hg].
    unfold LinkBits, EDependencyProperty_None.
    by rewrite (not_IsHard _ Hh Hd), Hc, Hg.
Qed.

(** A witness for [soft_target_category]: one [SearchableName] record with
    only the [Game] flag. *)
Lemma soft_target_category_witness :
  Find Sample.A (ClassifyLinks (E := StdEngine) [mkDep Sample.A SearchableName 2]) =
  Some (Z.lor LinkEndActive LinkTypeUsedInGame).
Proof.
  apply (soft_target_category [mkDep Sample.A SearchableName 2] Sample.A).
  - left.
  - intros L ->%list_elem_of_singleton _. by split.
  - by intros L ->%list_elem_of_singleton _.
Defined.

(** ** C9: no passive edge *)

(** C9: every category in the map [GetSortedLinks] returns has the
    [LinkEndActive] bit, so it is neither named nor coloured as passive, and
    in the graph [RebuildGraph] returns every dependency pin that is linked
    carries a name other than [Passive], and the wire from it is not drawn in
    the passive colour whatever the pin at its other end. *)
Theorem classified_edges_active {E : Engine} {M : FMath} (AR : IAssetRegistry)
    (impl : Implementation) (fuel : nat) (G : UEdGraph_RefExplorer)
    (links : TMap FAssetIdentifier EDependencyPinCategory)
    (t : FAssetIdentifier) (c : EDependencyPinCategory) :
  GetSortedLinks AR fuel (CurrentGraphRootIdentifier G) = Done links →
  (t, c) ∈ links →
  Z.land c LinkEndActive = LinkEndActive ∧
  GetName c ≠ NamePassive ∧
  GetColor c ≠ ColorPassive ∧
  (∀ InputPinCategory, DetermineWiringStyle (GetName c) InputPinCategory ≠ ColorPassive) ∧
  (∀ G' r n, RebuildGraph AR impl fuel G = Done (G', r) → n ∈ Nodes G' →
     LinkedTo (DependencyPin n) ≠ [] →
     PinCategory (DependencyPin n) ≠ NamePassive ∧
     ∀ InputPinCategory,
       DetermineWiringStyle (PinCategory (DependencyPin n)) InputPinCategory ≠ ColorPassive).
Proof.
  intros Hlinks Hin.
  pose proof (GetSortedLinks_active _ _ _ _ _ _ Hlinks Hin) as Hc.
  split_and!.
  - exact Hc.
  - by apply GetName_active.
  - by apply GetColor_active.
  - intros ?. by apply DetermineWiringStyle_active.
  - intros G' r n Hrun Hn Hlinked.
    pose proof (RebuildGraph_EdgeNamed _ _ _ _ _ _ Hrun) as HNodes.
    rewrite Forall_forall in HNodes. destruct (HNodes n Hn Hlinked) as [Hact Hname].
    split; [done|]. intros InputPinCategory. unfold DetermineWiringStyle.
    unfold IsActive in Hact. rewrite Hact. simpl. by apply GetColor_active.
Qed.

(** A witness for [classified_edges_active]: the edge to [A] in
    [Sample.Repeated]. *)
Lemma classified_edges_active_witness :
  Z.land 5 LinkEndActive = LinkEndActive ∧
  GetName 5 ≠ NamePassive ∧
  GetColor 5 ≠ ColorPassive.
Proof.
  destruct (classified_edges_active (M := ExactMath) Sample.Repeated RefExplorer 10
              Sample.EmptyGraph [(Sample.A, 5); (Sample.B, 3)] Sample.A 5)
    as (H1 & H2 & H3 & _).
  - exact GetSortedLinks_Repeated.
  - left.
  - split_and!; [exact H1|exact H2|exact H3].
Defined.

(** ** C10: one level below the root *)

(** What [RebuildGraph] returns when the root is not among its own
    referencers: in the table only the root has children, every other entry
    has the root as its only parent, and the graph is the root followed by
    one node per link, each linked to the root and to nothing below it. *)
Lemma RebuildGraph_one_level {E : Engine} {M : FMath} (AR : IAssetRegistry)
    (impl : Implementation) (fuel : nat) (G : UEdGraph_RefExplorer)
    (links : TMap FAssetIdentifier EDependencyPinCategory) :
  let Root := CurrentGraphRootIdentifier G in
  GetSortedLinks AR (S (S fuel)) Root = Done links →
  Root ∉ links.*1 →
  ∃ G' RootNode,
    RebuildGraph AR impl (S (S fuel)) G = Done (G', Some 0%nat) ∧
    (∀ t Info, RefExplorerNodeInfos G' !! t = Some Info → t ≠ Root →
       Children Info = [] ∧ Parents Info = {[Root]}) ∧
    (∃ Info, RefExplorerNodeInfos G' !! Root = Some Info ∧ Children Info = links) ∧
    length (Nodes G') = S (length links) ∧
    Nodes G' !! 0%nat = Some RootNode ∧ Identifier RootNode = Root ∧
    (∀ i n, Nodes G' !! S i = Some n →
       LinkedTo (DependencyPin n) = [0%nat] ∧ LinkedTo (ReferencerPin n) = [] ∧
       ∃ c, links !! i = Some (Identifier n, c)).
Proof.
  intros Root Hlinks Hroot.
  destruct (RebuildGraph_returns AR impl fuel G links Hlinks Hroot) as (F & HF & Hrun).
  eexists _, _. split; [exact Hrun|]. simpl.
  pose proof (GetSortedLinks_NoDup _ _ _ _ Hlinks) as Hnd.
  split_and!.
  - intros t Info Ht Hne. rewrite BuildNodeInfos_other in Ht by done.
    case_bool_decide; by simplify_eq.
  - eexists. split; [apply BuildNodeInfos_root|]. simpl.
    by rewrite (FirstPerTarget_NoDup links []).
  - by rewrite length_imap.
  - done.
  - by destruct (HF (RootNodeOf AR G links)) as (_ & _ & -> & _).
  - intros i n Hn. rewrite list_lookup_imap in Hn.
    apply fmap_Some in Hn as ([t c] & Hi & ->).
    simpl. split_and!; [done..|by exists c].
Qed.

(** C10, at the failing input: the index names the root as a referencer of
    itself.  The root passes the post-filter, the table lists the root
    among its own children, and [RebuildGraph] returns for no amount of
    fuel. *)
Theorem self_reference_never_returns :
  GetSortedLinks Sample.SelfReferencing 2 Sample.Root = Done [(Sample.Root, 5)] ∧
  (∃ Info,
     BuildNodeInfos Sample.SelfReferencing Sample.Root [(Sample.Root, 5)] !! Sample.Root
       = Some Info ∧
     Children Info = [(Sample.Root, 5)] ∧ Parents Info = {[Sample.Root]}) ∧
  ∀ (M : FMath) (impl : Implementation) (fuel : nat),
    RebuildGraph Sample.SelfReferencing impl fuel Sample.EmptyGraph = OutOfFuel.
Proof.
  split_and!.
  - vm_compute. reflexivity.
  - eexists. split; [apply BuildNodeInfos_root|]. by split.
  - intros M impl fuel.
    destruct fuel as [|[|fuel]]; [reflexivity..|].
    assert (GetSortedLinks Sample.SelfReferencing (S (S fuel)) Sample.Root
            = Done [(Sample.Root, 5)]) as Hlinks.
    { rewrite (GetSortedLinks_returns Sample.SelfReferencing (λ _, 0%nat)).
      - reflexivity.
      - intros x r Hx Hr _. unfold Refs in Hr. simpl in Hr.
        destruct (List.find _ _); by apply elem_of_nil in Hr.
      - vm_compute. lia. }
    rewrite (RebuildGraph_unfold Sample.SelfReferencing impl (S (S fuel))
               Sample.EmptyGraph [(Sample.Root, 5)] Hlinks).
    erewrite RecursivelyCreateNodes_own_first_child; [done| |].
    + apply BuildNodeInfos_root.
    + reflexivity.
Qed.

(** ** C7: a rebuild requested while the registry is loading *)

Section WidgetFacts.
Context {E : Engine} {M : FMath} (impl : Implementation) (this : nat).
Implicit Types (ARM : FAssetRegistryModule) (W : SRefExplorer) (Bound : list nat).

(** How often [this] is bound to a delegate. *)
Definition Bindings Bound : nat := length (filter (λ o, o = this) Bound).

(** [if (!IsBoundToObject(this)) AddSP(this, ...)] *)
Definition BindOnce Bound : list nat :=
  if bool_decide (this ∈ Bound) then Bound else Bound ++ [this].

Lemma Bindings_0 Bound : this ∉ Bound → Bindings Bound = 0%nat.
Proof.
  unfold Bindings. induction Bound as [|o Bound IH]; intros Hn; [done|].
  rewrite filter_cons. case_decide; [set_solver|]. apply IH. set_solver.
Qed.

Lemma Bindings_pos Bound : this ∈ Bound → (1 ≤ Bindings Bound)%nat.
Proof.
  unfold Bindings. induction Bound as [|o Bound IH]; intros Hin; [by apply elem_of_nil in Hin|].
  rewrite filter_cons. case_decide; simpl; [lia|]. apply IH. set_solver.
Qed.

Lemma Bindings_BindOnce Bound : Bindings (BindOnce Bound) = Nat.max 1 (Bindings Bound).
Proof.
  unfold BindOnce. case_bool_decide as Hin.
  - pose proof (Bindings_pos Bound Hin). lia.
  - rewrite (Bindings_0 Bound Hin). unfold Bindings.
    rewrite filter_app, length_app. fold (Bindings Bound). rewrite (Bindings_0 Bound Hin).
    rewrite filter_cons, decide_True by done. done.
Qed.

Lemma BindOnce_idemp Bound : BindOnce (BindOnce Bound) = BindOnce Bound.
Proof.
  unfold BindOnce. destruct (decide (this ∈ Bound)) as [Hin|Hin].
  - by rewrite !(bool_decide_eq_true_2 (this ∈ Bound)).
  - rewrite !(bool_decide_eq_false_2 (this ∈ Bound)) by done.
    rewrite bool_decide_eq_true_2; [done|set_solver].
Qed.

(** The module after a request that found the registry loading. *)
Definition Deferred ARM : FAssetRegistryModule :=
  mkModule (Registry ARM) (IsLoadingAssets ARM) (BindOnce (OnFilesLoaded ARM))
    (OnAssetUpdated ARM) (OnAssetAdded ARM) (OnAssetRemoved ARM).

Lemma SRefExplorer_RebuildGraph_loading fuel ARM W :
  IsLoadingAssets ARM = true →
  SRefExplorer_RebuildGraph impl this fuel (ARM, W) = Done (Deferred ARM, W).
Proof.
  intros Hload. unfold SRefExplorer_RebuildGraph, Deferred, BindOnce. rewrite Hload.
  case_bool_decide; simpl; [destruct ARM; simpl in *; by subst|done].
Qed.

Lemma Deferred_idemp ARM : Deferred (Deferred ARM) = Deferred ARM.
Proof. unfold Deferred. simpl. by rewrite BindOnce_idemp. Qed.

(** The graph after a sequence of requests that all found the registry
    loading: only the root that [SetGraphRoot] stores has changed. *)
Fixpoint RootAfter (rs : list RebuildRequest) (G : UEdGraph_RefExplorer)
    : UEdGraph_RefExplorer :=
  match rs with
  | [] => G
  | ReqSetGraphRootIdentifier Id :: rs => RootAfter rs (SetGraphRoot Id (0, 0) G)
  | ReqRefreshClicked :: rs => RootAfter rs G
  end.

Lemma RootAfter_table rs : ∀ G,
  RefExplorerNodeInfos (RootAfter rs G) = RefExplorerNodeInfos G ∧
  Nodes (RootAfter rs G) = Nodes G.
Proof.
  induction rs as [|[Id|] rs IH]; intros G; simpl; [done| |apply IH].
  destruct (IH (SetGraphRoot Id (0, 0) G)) as [-> ->]. done.
Qed.

Lemma Requests_loading fuel rs : ∀ ARM G dirty valid,
  IsLoadingAssets ARM = true → rs ≠ [] →
  Requests impl this fuel rs (ARM, mkWidget (Some G) dirty valid) =
  Done (Deferred ARM, mkWidget (Some (RootAfter rs G)) dirty valid).
Proof.
  induction rs as [|r rs IH]; intros ARM G dirty valid Hload Hne; [done|].
  cbn [Requests].
  assert (∃ G1, Request impl this fuel r (ARM, mkWidget (Some G) dirty valid) =
                Done (Deferred ARM, mkWidget (Some G1) dirty valid) ∧
                RootAfter (r :: rs) G = RootAfter rs G1) as (G1 & -> & ->).
  { destruct r as [Id|]; unfold Request, SetGraphRootIdentifier, RefreshClicked;
      cbn [GraphObj bDirtyResults AssetRefreshHandle_IsValid RootAfter];
      eexists; by rewrite SRefExplorer_RebuildGraph_loading. }
  cbn [mbind Outcome_bind].
  destruct rs as [|r' rs]; [done|].
  rewrite IH by done. by rewrite Deferred_idemp.
Qed.

Lemma Broadcast_unbound fuel Bound s :
  this ∉ Bound → Broadcast impl this fuel Bound s = Done s.
Proof.
  revert s. induction Bound as [|o Bound IH]; intros s Hn; [done|].
  cbn [Broadcast]. rewrite bool_decide_eq_false_2 by set_solver.
  cbn [mbind Outcome_bind mret Outcome_ret]. apply IH. set_solver.
Qed.

Lemma Broadcast_bound_last fuel Bound s :
  this ∉ Bound →
  Broadcast impl this fuel (Bound ++ [this]) s =
  OnInitialAssetRegistrySearchComplete impl fuel s.
Proof.
  revert s. induction Bound as [|o Bound IH]; intros s Hn.
  - simpl. rewrite bool_decide_eq_true_2 by done.
    by destruct (OnInitialAssetRegistrySearchComplete impl fuel s).
  - cbn [app Broadcast]. rewrite bool_decide_eq_false_2 by set_solver.
    cbn [mbind Outcome_bind mret Outcome_ret]. apply IH. set_solver.
Qed.

End WidgetFacts.

(** The part of C7 the code keeps, for the requests that reach
    [SRefExplorer::RebuildGraph]: while the registry reports that it is
    loading, any sequence of such requests ([SetGraphRootIdentifier],
    [RefreshClicked]) returns without building: node table and visual nodes
    are those from before, whatever the fuel.  The widget is bound to
    [OnFilesLoaded] after the first request and no request binds it again:
    the number of its bindings is the larger of 1 and the number before.  For a widget that was not
    bound, the broadcast at the end of the scan runs
    [OnInitialAssetRegistrySearchComplete], that is one [RebuildGraph]. *)
Lemma rebuild_deferred_while_loading {E : Engine} {M : FMath} (impl : Implementation)
    (this fuel : nat) (rs : list RebuildRequest) (ARM : FAssetRegistryModule)
    (W : SRefExplorer) (G : UEdGraph_RefExplorer) :
  IsLoadingAssets ARM = true → GraphObj W = Some G → rs ≠ [] →
  ∃ ARM' G',
    Requests impl this fuel rs (ARM, W) =
      Done (ARM', mkWidget (Some G') (bDirtyResults W) (AssetRefreshHandle_IsValid W)) ∧
    RefExplorerNodeInfos G' = RefExplorerNodeInfos G ∧
    Nodes G' = Nodes G ∧
    IsLoadingAssets ARM' = true ∧
    this ∈ OnFilesLoaded ARM' ∧
    Bindings this (OnFilesLoaded ARM') = Nat.max 1 (Bindings this (OnFilesLoaded ARM)) ∧
    OnAssetUpdated ARM' = OnAssetUpdated ARM ∧
    OnAssetAdded ARM' = OnAssetAdded ARM ∧
    OnAssetRemoved ARM' = OnAssetRemoved ARM ∧
    (this ∉ OnFilesLoaded ARM →
     ∀ fuel', FilesLoaded impl this fuel' (ARM', mkWidget (Some G') (bDirtyResults W)
                                              (AssetRefreshHandle_IsValid W)) =
       (r ← RebuildGraph (Registry ARM) impl fuel' G';
        mret (mkModule (Registry ARM) false (OnFilesLoaded ARM') (OnAssetUpdated ARM)
                (OnAssetAdded ARM) (OnAssetRemoved ARM),
              mkWidget (Some r.1) (bDirtyResults W) (AssetRefreshHandle_IsValid W)))).
Proof.
  intros Hload HG Hrs. destruct W as [GO dirty valid]. simpl in HG. subst GO.
  exists (Deferred this ARM), (RootAfter rs G).
  destruct (RootAfter_table rs G) as [HT HN].
  split_and!; try done.
  - by apply Requests_loading.
  - simpl. unfold BindOnce. case_bool_decide; set_solver.
  - simpl. apply Bindings_BindOnce.
  - intros Hfresh fuel'. unfold FilesLoaded, Deferred, BindOnce. simpl.
    rewrite bool_decide_eq_false_2 by done.
    rewrite Broadcast_bound_last by done. done.
Qed.

(** A module that is still loading, and a widget that has built nothing. *)
Definition LoadingModule : FAssetRegistryModule :=
  mkModule Sample.Repeated true [] [] [] [].
Definition FreshWidget : SRefExplorer := mkWidget (Some Sample.EmptyGraph) false false.

(** [rebuild_deferred_while_loading] for a new root and two refreshes while
    loading. *)
Lemma rebuild_deferred_witness :
  ∃ ARM' G',
    Requests (M := ExactMath) RefExplorer 7 0
      [ReqSetGraphRootIdentifier Sample.A; ReqRefreshClicked; ReqRefreshClicked]
      (LoadingModule, FreshWidget) = Done (ARM', mkWidget (Some G') false false) ∧
    RefExplorerNodeInfos G' = ∅ ∧ Nodes G' = [] ∧
    Bindings 7 (OnFilesLoaded ARM') = 1%nat.
Proof.
  destruct (rebuild_deferred_while_loading (M := ExactMath) RefExplorer 7 0
              [ReqSetGraphRootIdentifier Sample.A; ReqRefreshClicked; ReqRefreshClicked]
              LoadingModule FreshWidget Sample.EmptyGraph)
    as (ARM' & G' & Hrun & HT & HN & _ & _ & HB & _); [reflexivity|reflexivity|done|].
  exists ARM', G'. split_and!; [exact Hrun|exact HT|exact HN|exact HB].
Defined.

(** C7, at the failing input: the registry is loading and nothing is bound
    to [OnFilesLoaded].  [RefreshClicked] defers: it binds the continuation
    and leaves the graph alone.  A double click on the root node, the
    selection of the root's asset in the find-path picker, and Enter in the
    picker do not: each of them builds the whole graph at once (a table
    with entries for [A] and [B], three nodes) from the registry as far as
    it is loaded, and binds no continuation. *)
Theorem navigation_rebuilds_while_loading :
  IsLoadingAssets LoadingModule = true ∧ OnFilesLoaded LoadingModule = [] ∧
  Trigger (M := ExactMath) RefExplorer 7 10 (ByRequest ReqRefreshClicked)
    (LoadingModule, FreshWidget) =
    Done (mkModule Sample.Repeated true [7%nat] [] [] [], FreshWidget) ∧
  ∃ G',
    length (Nodes G') = 3%nat ∧
    is_Some (RefExplorerNodeInfos G' !! Sample.A) ∧
    is_Some (RefExplorerNodeInfos G' !! Sample.B) ∧
    Trigger (M := ExactMath) RefExplorer 7 10
      (ByNodeDoubleClicked
         (mkNode 0 0 Sample.Root FAssetData_default AllocateDefaultPins AllocateDefaultPins))
      (LoadingModule, FreshWidget) =
      Done (LoadingModule, mkWidget (Some G') false false) ∧
    Trigger (M := ExactMath) RefExplorer 7 10
      (ByFindPathAssetSelected (mkAssetData "/Game/Root" "Root" "/Script/Engine.Blueprint" false))
      (LoadingModule, FreshWidget) =
      Done (LoadingModule, mkWidget (Some G') false false) ∧
    Trigger (M := ExactMath) RefExplorer 7 10
      (ByFindPathAssetEnterPressed
         [mkAssetData "/Game/Root" "Root" "/Script/Engine.Blueprint" false])
      (LoadingModule, FreshWidget) =
      Done (LoadingModule, mkWidget (Some G') false false).
Proof.
  split; [reflexivity|]. split; [reflexivity|]. split; [reflexivity|].
  destruct (RebuildGraph_returns (M := ExactMath) Sample.Repeated RefExplorer 8
              Sample.EmptyGraph [(Sample.A, 5); (Sample.B, 3)] GetSortedLinks_Repeated)
    as (F & _ & Hrun).
  { simpl. intros [Hin|[Hin|Hin]%elem_of_cons]%elem_of_cons; [done|done|].
    by apply elem_of_nil in Hin. }
  cbv zeta in Hrun. eexists. split_and!.
  4-6: cbn [Trigger OnNodeDoubleClicked OnFindPathAssetSelected OnFindPathAssetEnterPressed
            FreshWidget LoadingModule GraphObj Registry Identifier Asset_PackageName];
       change (SetGraphRoot _ (0, 0) Sample.EmptyGraph) with Sample.EmptyGraph;
       rewrite Hrun; reflexivity.
  - reflexivity.
  - cbn [RefExplorerNodeInfos fst]. by rewrite BuildNodeInfos_other.
  - cbn [RefExplorerNodeInfos fst]. by rewrite BuildNodeInfos_other.
Qed.

(** ** C8: asset-registry change notifications *)

(** C8: a notification ([OnAssetUpdated], [OnAssetAdded] and [OnAssetRemoved]
    all call [OnAssetRegistryChanged]) sets [bDirtyResults] and leaves the
    registry module, the graph with its node table and visual nodes, and the
    refresh handle as they were; after any number of notifications the
    graph is still the one that was built.  The next [RefreshClicked], with
    the registry no longer loading, rebuilds the whole graph and clears the
    flag. *)
Theorem registry_change_only_marks_dirty {E : Engine} {M : FMath} (impl : Implementation)
    (this fuel : nat) (d : FAssetData) (ds : list FAssetData)
    (ARM : FAssetRegistryModule) (W : SRefExplorer) :
  OnAssetRegistryChanged d (ARM, W) =
    (ARM, mkWidget (GraphObj W) true (AssetRefreshHandle_IsValid W)) ∧
  foldl (λ s d, OnAssetRegistryChanged d s) (ARM, W) (d :: ds) =
    (ARM, mkWidget (GraphObj W) true (AssetRefreshHandle_IsValid W)) ∧
  (∀ G G' r,
     IsLoadingAssets ARM = false → AssetRefreshHandle_IsValid W = true →
     GraphObj W = Some G →
     RebuildGraph (Registry ARM) impl fuel G = Done (G', r) →
     RefreshClicked impl this fuel
       (foldl (λ s d, OnAssetRegistryChanged d s) (ARM, W) (d :: ds)) =
     Done (ARM, mkWidget (Some G') false true)).
Proof.
  assert (foldl (λ s d, OnAssetRegistryChanged d s) (ARM, W) (d :: ds) =
          (ARM, mkWidget (GraphObj W) true (AssetRefreshHandle_IsValid W))) as Hfold.
  { simpl. generalize (AssetRefreshHandle_IsValid W) as valid.
    generalize (GraphObj W) as GO. clear.
    induction ds as [|d' ds IH]; intros GO valid; [done|]. simpl. apply IH. }
  split_and!; [done|exact Hfold|].
  intros G G' r Hload Hvalid HG Hrun. rewrite Hfold.
  unfold RefreshClicked, SRefExplorer_RebuildGraph. rewrite Hload. simpl.
  rewrite HG, Hrun, Hvalid. simpl. done.
Qed.

(** A module whose scan is over. *)
Definition LoadedModule : FAssetRegistryModule :=
  mkModule Sample.Repeated false [] [7%nat] [7%nat] [7%nat].

(** A witness for [registry_change_only_marks_dirty]: the graph of
    [Sample.Repeated], marked stale and refreshed. *)
Lemma registry_change_witness :
  ∃ G',
    RefreshClicked (M := ExactMath) RefExplorer 7 10
      (foldl (λ s d, OnAssetRegistryChanged d s)
         (LoadedModule, mkWidget (Some Sample.EmptyGraph) false true)
         [FAssetData_default; FAssetData_default]) =
    Done (LoadedModule, mkWidget (Some G') false true).
Proof.
  destruct (RebuildGraph_returns (M := ExactMath) Sample.Repeated RefExplorer 8
              Sample.EmptyGraph [(Sample.A, 5); (Sample.B, 3)])
    as (F & _ & Hrun); [exact GetSortedLinks_Repeated|by vm_compute; set_solver|].
  eexists.
  apply (proj2 (proj2 (registry_change_only_marks_dirty (M := ExactMath) RefExplorer 7 10
           FAssetData_default [FAssetData_default] LoadedModule
           (mkWidget (Some Sample.EmptyGraph) false true)))
           Sample.EmptyGraph _ _ eq_refl eq_refl eq_refl Hrun).
Defined.

(** Navigation by a double click calls [GraphObj->RebuildGraph()] itself:
    what it does is the same whether or not the registry is loading. *)
Remark OnNodeDoubleClicked_ignores_loading {E : Engine} {M : FMath}
    (impl : Implementation) (fuel : nat) (Node : UEdGraphNode_RefExplorer)
    (R : IAssetRegistry) (b1 b2 : bool) (W : SRefExplorer) (G : UEdGraph_RefExplorer) :
  GraphObj W = Some G →
  (s ← OnNodeDoubleClicked impl fuel Node (mkModule R b1 [] [] [] [], W); mret s.2) =
  (s ← OnNodeDoubleClicked impl fuel Node (mkModule R b2 [] [] [] [], W); mret s.2) ∧
  (s ← OnNodeDoubleClicked impl fuel Node (mkModule R b1 [] [] [] [], W); mret (GraphObj s.2)) =
  (r ← RebuildGraph R impl fuel (SetGraphRoot (Identifier Node) (0, 0) G); mret (Some r.1)).
Proof.
  intros HG. unfold OnNodeDoubleClicked. rewrite HG. simpl.
  split; by destruct (RebuildGraph _ _ _ _).
Qed.

(** * Further properties of the code *)

(** ** Pin categories, their names and their colours *)

(** [URefExplorerSchema::GetPinTypeColor] *)
Definition GetPinTypeColor (PinCategory : FName) : FLinearColor :=
  GetColor (ParseDependencyPinCategory PinCategory).

Lemma land_LinkEndMask c :
  Z.land c LinkEndMask = 0 ∨ Z.land c LinkEndMask = 1.
Proof.
  change LinkEndMask with (Z.ones 1). rewrite Z.land_ones by lia.
  change (2 ^ 1) with 2. pose proof (Z.mod_pos_bound c 2). lia.
Qed.

Lemma land_LinkTypeMask c :
  Z.land c LinkTypeMask = 0 ∨ Z.land c LinkTypeMask = 2 ∨
  Z.land c LinkTypeMask = 4 ∨ Z.land c LinkTypeMask = 6.
Proof.
  change LinkTypeMask with 6.
  assert (Z.land c 6 = Z.land (c mod 8) 6) as ->.
  { change 8 with (2 ^ 3). rewrite <- Z.land_ones by lia.
    rewrite <- Z.land_assoc. reflexivity. }
  pose proof (Z.mod_pos_bound c 8).
  assert (c mod 8 = 0 ∨ c mod 8 = 1 ∨ c mod 8 = 2 ∨ c mod 8 = 3 ∨ c mod 8 = 4 ∨
          c mod 8 = 5 ∨ c mod 8 = 6 ∨ c mod 8 = 7) as Hc by lia.
  destruct Hc as [->|[->|[->|[->|[->|[->|[->| ->]]]]]]]; simpl; tauto.
Qed.

Ltac category_cases c :=
  let He := fresh "He" in let Ht := fresh "Ht" in
  destruct (land_LinkEndMask c) as [He|He],
           (land_LinkTypeMask c) as [Ht|[Ht|[Ht|Ht]]];
  rewrite ?He, ?Ht.

(** X1: reading back the name [GetName] gives a category yields
    [LinkEndPassive] when the category is passive (its type bits are lost),
    and otherwise [LinkEndActive] together with the type bits of the
    category: the bits outside [LinkEndMask] and [LinkTypeMask] do not
    survive, the others do. *)
Theorem Parse_GetName c :
  ParseDependencyPinCategory (GetName c) =
  if Z.land c LinkEndMask =? LinkEndPassive then LinkEndPassive
  else Z.lor LinkEndActive (Z.land c LinkTypeMask).
Proof. unfold GetName. category_cases c; reflexivity. Qed.

Lemma FName_eqb_sym (A B : FName) : FName_eqb A B = FName_eqb B A.
Proof. unfold FName_eqb. apply String.eqb_sym. Qed.

(** X2: naming the category a pin name parses to gives the same name back
    (equal as [FName]s, that is up to case, and in the plugin's spelling)
    when the name is one of the four names of active categories, and
    [Passive] for every other name. *)
Theorem GetName_Parse (PinCategory : FName) :
  if existsb (FName_eqb PinCategory)
       [NameHardUsedInGame; NameHardEditorOnly; NameSoftUsedInGame; NameSoftEditorOnly]
  then FName_eqb (GetName (ParseDependencyPinCategory PinCategory)) PinCategory = true
  else GetName (ParseDependencyPinCategory PinCategory) = NamePassive.
Proof.
  unfold ParseDependencyPinCategory. cbn [existsb].
  destruct (FName_eqb PinCategory NameHardUsedInGame) eqn:H1;
    [by rewrite FName_eqb_sym in H1|].
  destruct (FName_eqb PinCategory NameHardEditorOnly) eqn:H2;
    [by rewrite FName_eqb_sym in H2|].
  destruct (FName_eqb PinCategory NameSoftUsedInGame) eqn:H3;
    [by rewrite FName_eqb_sym in H3|].
  destruct (FName_eqb PinCategory NameSoftEditorOnly) eqn:H4;
    [by rewrite FName_eqb_sym in H4|].
  reflexivity.
Qed.

(** The name of a hard edge in another spelling is the same name to the
    parser. *)
Example Parse_ignores_case :
  ParseDependencyPinCategory "hard" = ParseDependencyPinCategory NameHardUsedInGame ∧
  ParseDependencyPinCategory "SOFTEDITORONLY" = LinkEndActive ∧
  ParseDependencyPinCategory "Hard " = LinkEndPassive.
Proof. split_and!; reflexivity. Qed.

(** X3: a pin that stores its category as the name [GetName] gives it is
    coloured by the schema as [GetColor] colours the category itself; two
    categories have the same name exactly when they have the same colour. *)
Theorem pin_colour_of_name c :
  GetPinTypeColor (GetName c) = GetColor c ∧
  ∀ c', GetName c = GetName c' ↔ GetColor c = GetColor c'.
Proof.
  split.
  - unfold GetPinTypeColor, GetName, GetColor. category_cases c; reflexivity.
  - intros c'. unfold GetName, GetColor.
    category_cases c; category_cases c'; simpl; split; (done || reflexivity).
Qed.

(** X4: the wire between two pins named by [GetName] takes the colour of the
    output pin's category when that category is active, and the colour of
    the input pin's category otherwise. *)
Theorem wire_colour_of_names (OutputCategory InputCategory : EDependencyPinCategory) :
  DetermineWiringStyle (GetName OutputCategory) (GetName InputCategory) =
  if Z.land OutputCategory LinkEndMask =? LinkEndPassive then GetColor InputCategory
  else GetColor OutputCategory.
Proof.
  unfold DetermineWiringStyle, GetName, GetColor.
  category_cases OutputCategory; category_cases InputCategory; reflexivity.
Qed.

(** ** The category of a classified target *)

Section ClassifierFacts.
Context {E : Engine}.
Implicit Types (L : FAssetDependency) (t : FAssetIdentifier).

(** [bIsUsedInGame] of the accumulation loop. *)
Definition IsUsedInGame L : bool :=
  negb (bool_decide (Category L = Package))
  || negb (Z.land (Properties L) EDependencyProperty_Game =? EDependencyProperty_None).

(** Some record of the list is a record of [t] with the flag [flag]. *)
Definition AnyRecord (flag : FAssetDependency → bool) t (l : list FAssetDependency) : bool :=
  existsb (λ L, bool_decide (AssetId L = t) && flag L) l.

Ltac lor_bits :=
  unfold Datatypes.id; apply Z.bits_inj'; intros ? _; rewrite ?Z.lor_spec, ?Z.bits_0;
  repeat match goal with
         | |- context [Z.testbit ?a ?n] => destruct (Z.testbit a n)
         end; reflexivity.

Lemma AnyRecord_none flag t l :
  AnyRecord (λ _, true) t l = false → AnyRecord flag t l = false.
Proof.
  unfold AnyRecord. induction l as [|L l IH]; [done|].
  cbn [existsb]. rewrite andb_true_r.
  intros [-> Hl]%orb_false_elim. by rewrite IH.
Qed.

Lemma foldl_MergeStep_bits t l : ∀ o,
  foldl (MergeStep t) o l =
  if AnyRecord (λ _, true) t l then
    Some (Z.lor (Z.lor (Z.lor (default LinkEndActive o) LinkEndActive)
                   (if AnyRecord (λ L, IsHard (Properties L)) t l
                    then LinkTypeHard else LinkTypeNone))
            (if AnyRecord IsUsedInGame t l then LinkTypeUsedInGame else LinkTypeNone))
  else o.
Proof.
  induction l as [|L l IH]; intros o; [done|].
  cbn [foldl]. rewrite IH. unfold AnyRecord at 4 5 6. cbn [existsb].
  fold (AnyRecord (λ _, true) t l) (AnyRecord (λ L, IsHard (Properties L)) t l)
    (AnyRecord IsUsedInGame t l).
  pose proof (AnyRecord_none (λ L, IsHard (Properties L)) t l) as Hh.
  pose proof (AnyRecord_none IsUsedInGame t l) as Hg.
  unfold MergeStep, LinkBits. fold (IsUsedInGame L).
  destruct (decide (AssetId L = t)) as [Ht|Ht].
  - rewrite (bool_decide_eq_true_2 _ Ht). cbn [andb orb default].
    destruct (AnyRecord (λ _, true) t l).
    + f_equal. destruct (IsHard (Properties L)), (IsUsedInGame L),
        (AnyRecord (λ L, IsHard (Properties L)) t l), (AnyRecord IsUsedInGame t l);
        cbn [orb]; unfold LinkTypeNone; lor_bits.
    + rewrite Hh, Hg by done. rewrite !orb_false_r. f_equal.
      destruct (IsHard (Properties L)), (IsUsedInGame L); unfold LinkTypeNone; lor_bits.
  - rewrite (bool_decide_eq_false_2 _ Ht). cbn [andb orb]. reflexivity.
Qed.

Lemma AnyRecord_elem_of t l :
  AnyRecord (λ _, true) t l = bool_decide (t ∈ AssetId <$> l).
Proof.
  unfold AnyRecord. induction l as [|L l IH]; [done|].
  cbn [existsb]. rewrite IH, fmap_cons, andb_true_r.
  destruct (decide (AssetId L = t)) as [Ht|Ht].
  - rewrite (bool_decide_eq_true_2 _ Ht). symmetry. apply bool_decide_eq_true_2.
    rewrite Ht. left.
  - rewrite (bool_decide_eq_false_2 _ Ht). apply bool_decide_ext.
    rewrite elem_of_cons. naive_solver.
Qed.

(** X5: the classifier gives a target an entry exactly when the list has a
    record of that target, and the entry's category is [LinkEndActive],
    with [LinkTypeHard] exactly when one of the target's records is hard
    (flag Hard or Direct) and [LinkTypeUsedInGame] exactly when one of them
    is used in game (a category other than Package, or the flag Game). *)
Theorem classified_category `{!EngineLaws E} (l : list FAssetDependency) t :
  Find t (ClassifyLinks l) =
  if bool_decide (t ∈ AssetId <$> l) then
    Some (Z.lor (Z.lor LinkEndActive
                   (if AnyRecord (λ L, IsHard (Properties L)) t l
                    then LinkTypeHard else LinkTypeNone))
            (if AnyRecord IsUsedInGame t l then LinkTypeUsedInGame else LinkTypeNone))
  else None.
Proof.
  unfold ClassifyLinks.
  rewrite (AccumulateLinks_Permutation t _ l)
    by apply Algo_Sort_Permutation, LinkLess_swo, LexicalLess_swo.
  rewrite Find_AccumulateLinks. cbn [Find].
  rewrite foldl_MergeStep_bits, AnyRecord_elem_of. reflexivity.
Qed.

End ClassifierFacts.

(** A witness for [classified_category]: the records of [Sample.Repeated]
    give [A] the category Active | Hard. *)
Lemma classified_category_witness :
  Find Sample.A
    (ClassifyLinks [mkDep Sample.A Package Sample.Hard; mkDep Sample.B Manage Sample.Soft;
                    mkDep Sample.A Package Sample.Hard; mkDep Sample.A Package Sample.Soft])
  = Some 5.
Proof.
  exact (classified_category
           [mkDep Sample.A Package Sample.Hard; mkDep Sample.B Manage Sample.Soft;
            mkDep Sample.A Package Sample.Hard; mkDep Sample.A Package Sample.Soft]
           Sample.A).
Defined.

(** ** The order of the classified targets *)

(** [a] comes before [b] in the list. *)
Definition ListedBefore {A} (l : list A) (a b : A) : Prop :=
  ∃ l1 l2 l3, l = l1 ++ a :: l2 ++ b :: l3.

Section OrderFacts.
Context {E : Engine}.
Implicit Types (L H S : FAssetDependency) (t : FAssetIdentifier)
  (m : TMap FAssetIdentifier EDependencyPinCategory).

(** The loop only ever appends keys. *)
Lemma keys_AccumulateLinks_prefix l : ∀ m,
  ∃ ext, (AccumulateLinks m l).*1 = m.*1 ++ ext.
Proof.
  unfold AccumulateLinks. induction l as [|L l IH]; intros m; simpl.
  - exists []. by rewrite app_nil_r.
  - destruct (IH (AccumulateLink m L)) as [ext ->]. rewrite keys_AccumulateLink.
    case_bool_decide; [by exists ext|].
    exists (AssetId L :: ext). by rewrite <- (assoc_L (++)).
Qed.

Lemma elem_of_keys_filter {A B} (f : A * B → bool) (l : list (A * B)) k :
  k ∈ (List.filter f l).*1 → k ∈ l.*1.
Proof.
  rewrite !list_elem_of_fmap. intros (p & -> & Hp). exists p. split; [done|].
  apply list_elem_of_In, List.filter_In in Hp as [Hp _]. by apply list_elem_of_In.
Qed.

(** Filtering a map keeps its keys in their order. *)
Lemma ListedBefore_filter {A B} (f : A * B → bool) (l : list (A * B)) K1 K2 a b :
  l.*1 = K1 ++ K2 → NoDup l.*1 → a ∈ K1 → b ∉ K1 →
  a ∈ (List.filter f l).*1 → b ∈ (List.filter f l).*1 →
  ListedBefore (List.filter f l).*1 a b.
Proof.
  intros Hkeys Hnd Ha Hb Hfa Hfb.
  assert ((take (length K1) l).*1 = K1) as H1
    by (by rewrite fmap_take, Hkeys, take_app_length).
  assert ((drop (length K1) l).*1 = K2) as H2
    by (by rewrite fmap_drop, Hkeys, drop_app_length).
  rewrite Hkeys in Hnd. apply NoDup_app in Hnd as (_ & Hdisj & _).
  rewrite <- (take_drop (length K1) l), List.filter_app, fmap_app in Hfa, Hfb |- *.
  apply elem_of_app in Hfa as [Hfa|Hfa].
  2:{ apply elem_of_keys_filter in Hfa. rewrite H2 in Hfa. by destruct (Hdisj a). }
  apply elem_of_app in Hfb as [Hfb|Hfb].
  { apply elem_of_keys_filter in Hfb. rewrite H1 in Hfb. done. }
  apply list_elem_of_split in Hfa as (a1 & a2 & ->).
  apply list_elem_of_split in Hfb as (b1 & b2 & ->).
  exists a1, (a2 ++ b1), b2. by rewrite <- !(assoc_L (++)).
Qed.

(** A hard Package record is less than every record that is not one. *)
Lemma LinkLess_hard_package H S :
  Category H = Package → IsHard (Properties H) = true →
  (Category S = Package → IsHard (Properties S) = false) →
  LinkLess H S = true.
Proof.
  intros HP HH HS. unfold LinkLess. rewrite HP.
  destruct (decide (Package = Category S)) as [Hc|Hc].
  - rewrite (bool_decide_eq_true_2 _ Hc). cbn [negb].
    rewrite HH, (HS (eq_sym Hc)).
    destruct (Z.eqb_spec (Properties H) (Properties S)) as [Heq|Hne]; [|done].
    rewrite Heq, (HS (eq_sym Hc)) in HH. done.
  - rewrite (bool_decide_eq_false_2 _ Hc). cbn [negb].
    by destruct (Category S).
Qed.

Lemma Classified_hard_first `{!EngineLaws E} (l : list FAssetDependency) H t :
  H ∈ l → Category H = Package → IsHard (Properties H) = true →
  (∀ S, S ∈ l → AssetId S = t → Category S = Package → IsHard (Properties S) = false) →
  ∃ K1 K2, (ClassifyLinks l).*1 = K1 ++ K2 ∧ AssetId H ∈ K1 ∧ t ∉ K1.
Proof.
  intros HH HP Hhard Ht. unfold ClassifyLinks.
  pose proof (Algo_Sort_Permutation _ LinkLess l (LinkLess_swo LexicalLess_swo)) as Hperm.
  pose proof (Algo_Sort_Sorted _ LinkLess l (LinkLess_swo LexicalLess_swo)) as Hsorted.
  rewrite <- Hperm in HH.
  apply list_elem_of_split in HH as (s1 & s2 & Hs).
  rewrite Hs in Hsorted |- *.
  rewrite (cons_middle H s1 s2), (assoc_L (++)).
  unfold AccumulateLinks. rewrite foldl_app. fold (AccumulateLinks [] (s1 ++ [H])).
  fold (AccumulateLinks (AccumulateLinks [] (s1 ++ [H])) s2).
  destruct (keys_AccumulateLinks_prefix s2 (AccumulateLinks [] (s1 ++ [H]))) as [ext ->].
  exists (AccumulateLinks [] (s1 ++ [H])).*1, ext. split; [done|].
  rewrite !elem_of_keys_AccumulateLinks, fmap_app. split.
  - right. apply elem_of_app. right. simpl. left.
  - intros [Hin|Hin]; [by apply elem_of_nil in Hin|].
    apply elem_of_app in Hin as [Hin|Hin].
    + apply list_elem_of_fmap in Hin as (S & HtS & HS).
      pose proof (StronglySorted_app_1_elem_of _ s1 (H :: s2) S H Hsorted HS
                    (list_elem_of_here _ _)) as Hle. simpl in Hle.
      rewrite LinkLess_hard_package in Hle; [done..|].
      apply Ht; [|done]. rewrite <- Hperm, Hs. apply elem_of_app. by left.
    + apply list_elem_of_singleton in Hin.
      assert (H ∈ l) as HHl by (rewrite <- Hperm, Hs; set_solver).
      specialize (Ht H HHl (eq_sym Hin) HP). congruence.
Qed.

End OrderFacts.

(** X6: in what [GetSortedLinks] returns, a target that has a hard record of
    category Package is listed before every target that has none (hard
    Package edges come first among the root's children). *)
Theorem hard_package_targets_first {E : Engine} `{!EngineLaws E} (AR : IAssetRegistry)
    (fuel : nat) (root : FAssetIdentifier)
    (links : TMap FAssetIdentifier EDependencyPinCategory)
    (H : FAssetDependency) (t : FAssetIdentifier) :
  GetSortedLinks AR fuel root = Done links →
  H ∈ GetReferencers AR root Categories →
  Category H = Package → IsHard (Properties H) = true →
  (∀ S, S ∈ GetReferencers AR root Categories → AssetId S = t →
        Category S = Package → IsHard (Properties S) = false) →
  AssetId H ∈ links.*1 → t ∈ links.*1 →
  ListedBefore links.*1 (AssetId H) t.
Proof.
  intros Hlinks HH HP Hhard Ht Hin1 Hin2.
  rewrite (GetSortedLinks_Done _ _ _ _ Hlinks) in Hin1, Hin2 |- *.
  destruct (Classified_hard_first _ H t HH HP Hhard Ht) as (K1 & K2 & Hkeys & H1 & H2).
  apply (ListedBefore_filter _ _ K1 K2); try done.
  apply NoDup_keys_Classified.
Qed.

(** The index reports a soft referencer [B] before a hard referencer [A]. *)
Definition HardAfterSoft : IAssetRegistry :=
  Sample.RegistryOf
    (λ Id, if decide (Id = Sample.Root)
           then [mkDep Sample.B Package Sample.Soft; mkDep Sample.A Package Sample.Hard]
           else [])
    (λ _, []).

(** A witness for [hard_package_targets_first]: [A] is listed before [B]. *)
Lemma hard_package_targets_first_witness :
  GetSortedLinks HardAfterSoft 10 Sample.Root = Done [(Sample.A, 5); (Sample.B, 1)] ∧
  ListedBefore [Sample.A; Sample.B] Sample.A Sample.B.
Proof.
  assert (GetSortedLinks HardAfterSoft 10 Sample.Root = Done [(Sample.A, 5); (Sample.B, 1)])
    as Hrun by (vm_compute; reflexivity).
  split; [exact Hrun|].
  apply (hard_package_targets_first HardAfterSoft 10 Sample.Root
           [(Sample.A, 5); (Sample.B, 1)] (mkDep Sample.A Package Sample.Hard) Sample.B Hrun).
  - simpl. right. left.
  - reflexivity.
  - reflexivity.
  - simpl. intros S HS HId.
    apply elem_of_cons in HS as [->|HS]; [reflexivity|].
    apply elem_of_cons in HS as [->|HS]; [discriminate HId|].
    by apply elem_of_nil in HS.
  - simpl. left.
  - simpl. right. left.
Defined.

(** ** Redirectors that refer to each other *)

Section Cycles.
Context {E : Engine} (AR : IAssetRegistry).

(** While the part of [ReferenceIds] that is still to be examined holds an
    identifier of a set in which every identifier is removed and replaced by
    references of which one is in the set again, the loop goes on. *)
Lemma FilterLoop_cycle (Looping : FAssetIdentifier → Prop) :
  (∀ x, Looping x → Passes AR x = false ∧ ∃ r, r ∈ Refs AR x ∧ Looping r) →
  ∀ fuel kept todo, (∃ x, x ∈ todo ∧ Looping x) →
  FilterLoop AR fuel (kept ++ todo) (Z.of_nat (length kept)) = OutOfFuel.
Proof.
  intros Hloop. induction fuel as [|fuel IH]; intros kept todo (x & Hx & HL); [done|].
  destruct todo as [|y todo]; [by apply elem_of_nil in Hx|].
  rewrite FilterLoop_step. destruct (Passes AR y) eqn:Hy.
  - apply IH. exists x. split; [|done].
    apply elem_of_cons in Hx as [->|Hx]; [|done].
    destruct (Hloop _ HL) as [Hp _]. congruence.
  - apply IH. apply elem_of_cons in Hx as [->|Hx].
    + destruct (Hloop _ HL) as [_ (r & Hr & HLr)]. exists r. split; [|done].
      apply elem_of_app. by left.
    + exists x. split; [|done]. apply elem_of_app. by right.
Qed.

End Cycles.

(** X7: when a classified referencer of the root belongs to a set of
    identifiers each of which fails the package-data check and is a
    redirector with a referencer in the set again (redirectors that refer to
    each other in a cycle), the post-filter never ends: [GetSortedLinks] and
    with it [RebuildGraph] do not return, whatever the fuel. *)
Theorem redirector_cycle_never_returns {E : Engine} {M : FMath} (AR : IAssetRegistry)
    (impl : Implementation) (Looping : FAssetIdentifier → Prop)
    (G : UEdGraph_RefExplorer) (x : FAssetIdentifier) (fuel : nat) :
  (∀ x, Looping x → Passes AR x = false ∧ ∃ r, r ∈ Refs AR x ∧ Looping r) →
  Looping x → x ∈ (Classified AR (CurrentGraphRootIdentifier G)).*1 →
  GetSortedLinks AR fuel (CurrentGraphRootIdentifier G) = OutOfFuel ∧
  RebuildGraph AR impl fuel G = OutOfFuel.
Proof.
  intros Hloop HL Hx.
  assert (GetSortedLinks AR fuel (CurrentGraphRootIdentifier G) = OutOfFuel) as Hrun.
  { unfold GetSortedLinks. fold (Classified AR (CurrentGraphRootIdentifier G)).
    pose proof (FilterLoop_cycle AR Looping Hloop fuel []
                  (GenerateKeyArray (Classified AR (CurrentGraphRootIdentifier G)))
                  (ex_intro _ x (conj Hx HL))) as Hstuck.
    change (FilterLoop AR fuel (GenerateKeyArray (Classified AR (CurrentGraphRootIdentifier G))) 0
            = OutOfFuel) in Hstuck.
    by rewrite Hstuck. }
  split; [done|]. unfold RebuildGraph. by rewrite Hrun.
Qed.

(** The root is referenced by [T], whose package is not on disk and holds a
    redirector that [T] itself references. *)
Definition SelfRedirecting : IAssetRegistry :=
  Sample.RegistryOf
    (λ Id, if decide (Id = Sample.Root) then [mkDep Sample.T Package Sample.Hard] else [])
    (λ Id, if decide (Id = Sample.T) then [Sample.T] else []).

(** A witness for [redirector_cycle_never_returns]. *)
Lemma redirector_cycle_witness :
  GetSortedLinks SelfRedirecting 1000 Sample.Root = OutOfFuel ∧
  RebuildGraph (M := ExactMath) SelfRedirecting RefExplorer 1000 Sample.EmptyGraph = OutOfFuel.
Proof.
  apply (redirector_cycle_never_returns (M := ExactMath) SelfRedirecting RefExplorer
           (λ x, x = Sample.T) Sample.EmptyGraph Sample.T 1000).
  - intros x ->. split; [reflexivity|]. exists Sample.T. split; [|reflexivity].
    simpl. left.
  - reflexivity.
  - simpl. left.
Defined.

(** ** A root without referencers *)

(** X8: when the registry reports no referencer of the root, [GetSortedLinks]
    returns no link and [RebuildGraph] returns, with any fuel but none, a
    table that holds the root only, without children and parents, and a
    graph of one node: the root at the origin, both pins hidden and
    unlinked, with the asset data the registry has for the root's package
    (default data when it has none). *)
Theorem no_referencers {E : Engine} `{!EngineLaws E} {M : FMath} (AR : IAssetRegistry)
    (impl : Implementation) (fuel : nat) (G : UEdGraph_RefExplorer) :
  GetReferencers AR (CurrentGraphRootIdentifier G) Categories = [] →
  let Root := CurrentGraphRootIdentifier G in
  let Origin := CurrentGraphRootOrigin G in
  let Data :=
    default FAssetData_default
      (GetAssetForPackages AR (AllPackageNames (<[Root := NewNodeInfo Root]> ∅))
       !! PackageName Root) in
  GetSortedLinks AR (S fuel) Root = Done [] ∧
  RebuildGraph AR impl (S fuel) G =
  Done (mkGraph Root Origin (<[Root := mkNodeInfo Root Data [] ∅]> ∅)
          [mkNode Origin.1 Origin.2 Root Data AllocateDefaultPins AllocateDefaultPins],
        Some 0%nat).
Proof.
  intros Hnone Root Origin Data.
  assert (GetSortedLinks AR (S fuel) Root = Done []) as Hlinks.
  { unfold GetSortedLinks, ClassifyLinks. fold Root in Hnone. rewrite Hnone.
    pose proof (Algo_Sort_Permutation _ LinkLess [] (LinkLess_swo LexicalLess_swo)) as Hp.
    apply Permutation_nil_r in Hp. rewrite Hp. reflexivity. }
  split; [exact Hlinks|].
  rewrite (RebuildGraph_unfold AR impl (S fuel) G [] Hlinks). fold Root Origin.
  assert (BuildNodeInfos AR Root [] = <[Root := mkNodeInfo Root Data [] ∅]> ∅) as ->.
  { apply map_eq. intros t. destruct (decide (t = Root)) as [->|Hne].
    - by rewrite BuildNodeInfos_root, lookup_insert_eq.
    - by rewrite BuildNodeInfos_other, lookup_insert_ne. }
  rewrite RecursivelyCreateNodes_S, lookup_insert_eq. reflexivity.
Qed.

(** A witness for [no_referencers]: [Sample.Redirected] reports no referencer
    of [A]. *)
Lemma no_referencers_witness :
  GetSortedLinks Sample.Redirected 1 Sample.A = Done [] ∧
  RebuildGraph (M := ExactMath) Sample.Redirected RefExplorer 1
    (mkGraph Sample.A (0, 0) ∅ []) =
  Done (mkGraph Sample.A (0, 0)
          (<[Sample.A := mkNodeInfo Sample.A FAssetData_default [] ∅]> ∅)
          [mkNode 0 0 Sample.A FAssetData_default AllocateDefaultPins AllocateDefaultPins],
        Some 0%nat).
Proof.
  apply (no_referencers (M := ExactMath) Sample.Redirected RefExplorer 0
           (mkGraph Sample.A (0, 0) ∅ [])).
  reflexivity.
Defined.

(** ** The graph [RebuildGraph] returns *)

Section Wiring.
Context {E : Engine} {M : FMath} (impl : Implementation).
Implicit Types (Infos : gmap FAssetIdentifier FRefExplorerNodeInfo)
  (Nodes : list UEdGraphNode_RefExplorer)
  (Rest : list (FAssetIdentifier * EDependencyPinCategory)).

(** The parent once [AddReferencer] has run for the [Count] nodes created
    from index [First] on. *)
Definition LinkChildren (First Count : nat) (n : UEdGraphNode_RefExplorer)
    : UEdGraphNode_RefExplorer :=
  mkNode (NodePosX n) (NodePosY n) (Identifier n) (SetupAssetData n) (DependencyPin n)
    (foldl (λ p k, MakeLinkTo k (Unhide p)) (ReferencerPin n) (seq First Count)).

Lemma LinkChildren_0 First n : LinkChildren First 0 n = n.
Proof. by destruct n. Qed.

Lemma foldl_MakeLinkTo Count : ∀ First c h l,
  (∀ k, k ∈ l → (k < First)%nat) →
  foldl (λ p k, MakeLinkTo k (Unhide p)) (mkPin c h l) (seq First Count) =
  mkPin c (match Count with O => h | S _ => false end) (l ++ seq First Count).
Proof.
  induction Count as [|Count IH]; intros First c h l Hl.
  - simpl. by rewrite app_nil_r.
  - cbn [seq foldl]. unfold MakeLinkTo at 2, Unhide at 2. cbn [PinCategory bHidden LinkedTo].
    rewrite bool_decide_eq_false_2 by (intros Hin; apply Hl in Hin; lia).
    rewrite IH.
    + rewrite <- (assoc_L (++)). by destruct Count.
    + intros k [Hk| ->%list_elem_of_singleton]%elem_of_app; [apply Hl in Hk|]; lia.
Qed.

Lemma CreateChildren_leaves_links fuel Infos (loc : Z → Z * Z) NewNode Rest :
  ∀ ChildIdx Nodes,
  (NewNode < length Nodes)%nat →
  Forall (λ Pair, IsLeaf Infos Pair.1) Rest →
  CreateChildren
    (λ ChildId ChildLoc Nodes,
       RecursivelyCreateNodes impl (S fuel) ChildId ChildLoc NewNode Infos false Nodes)
    loc NewNode Rest ChildIdx Nodes =
  Done (alter (LinkChildren (length Nodes) (length Rest)) NewNode Nodes ++
        imap (λ i Pair, LeafNode NewNode (loc (ChildIdx + Z.of_nat i)) Pair
                          (InfoData Infos Pair.1)) Rest).
Proof.
  induction Rest as [|Pair Rest IH]; intros ChildIdx Nodes HNew Hleaves.
  - simpl. rewrite app_nil_r, list_alter_id; [done|]. intros n. apply LinkChildren_0.
  - apply Forall_cons in Hleaves as [Hleaf Hleaves].
    cbn [CreateChildren]. rewrite RecursivelyCreateNodes_leaf by done.
    cbn [mbind Outcome_bind fst snd].
    assert (AddReferencer NewNode (length Nodes)
              (alter (SetDependencyPinCategory (GetName Pair.2)) (length Nodes)
                 (Nodes ++ [mkNode (loc ChildIdx).1 (loc ChildIdx).2 Pair.1
                              (InfoData Infos Pair.1)
                              AllocateDefaultPins AllocateDefaultPins])) =
            alter (LinkChildren (length Nodes) 1) NewNode Nodes ++
            [LeafNode NewNode (loc ChildIdx) Pair (InfoData Infos Pair.1)]) as ->.
    { unfold AddReferencer.
      rewrite <- (Nat.add_0_r (length Nodes)) at 1 2.
      rewrite !alter_app_r. simpl. by rewrite alter_app_l. }
    rewrite IH; [|rewrite length_app, length_alter; lia|done].
    f_equal. rewrite alter_app_l by (by rewrite length_alter).
    rewrite list_alter_alter_eq, <- (assoc_L (++)).
    rewrite length_app, length_alter. cbn [length].
    rewrite Nat.add_1_r. f_equal.
    rewrite imap_cons. simpl. rewrite Z.add_0_r. f_equal.
    apply imap_ext. intros i x _. simpl. do 2 f_equal. lia.
Qed.

End Wiring.

(** X9: the graph [RebuildGraph] returns when the root is not among its own
    referencers.  Node 0 is the root at the origin; its dependency pin stays
    hidden and unlinked, its referencer pin is linked to the nodes 1 .. n in
    this order and is hidden only when there is no link.  Node i + 1 is the
    target of link i at its [ChildLoc]; its dependency pin is shown, named
    after the link's category and linked to node 0 only, its referencer pin
    stays hidden and unlinked. *)
Theorem RebuildGraph_wiring {E : Engine} {M : FMath} (AR : IAssetRegistry)
    (impl : Implementation) (fuel : nat) (G : UEdGraph_RefExplorer)
    (links : TMap FAssetIdentifier EDependencyPinCategory) :
  GetSortedLinks AR (S (S fuel)) (CurrentGraphRootIdentifier G) = Done links →
  CurrentGraphRootIdentifier G ∉ links.*1 →
  let Root := CurrentGraphRootIdentifier G in
  let Origin := CurrentGraphRootOrigin G in
  let Infos := BuildNodeInfos AR Root links in
  RebuildGraph AR impl (S (S fuel)) G =
  Done (mkGraph Root Origin Infos
          (mkNode Origin.1 Origin.2 Root (InfoData Infos Root)
             (mkPin NamePassive true [])
             (mkPin NamePassive (bool_decide (links = [])) (seq 1 (length links))) ::
           imap (λ i Pair,
                   mkNode (ChildLoc impl Origin (Z.of_nat (length links)) (Z.of_nat i)).1
                          (ChildLoc impl Origin (Z.of_nat (length links)) (Z.of_nat i)).2
                          Pair.1 (InfoData Infos Pair.1)
                          (mkPin (GetName Pair.2) false [0%nat])
                          (mkPin NamePassive true []))
                links),
        Some 0%nat).
Proof.
  intros Hlinks Hroot Root Origin Infos.
  pose proof (GetSortedLinks_NoDup _ _ _ _ Hlinks) as Hnd.
  pose proof (BuildNodeInfos_root AR Root links) as HInfo.
  rewrite (FirstPerTarget_NoDup links []) in HInfo by done. simpl in HInfo.
  rewrite (RebuildGraph_unfold AR impl _ G links Hlinks). fold Root Origin Infos.
  rewrite RecursivelyCreateNodes_S. fold Infos in HInfo. rewrite HInfo.
  cbn [Children].
  rewrite (CreateChildren_leaves_links impl fuel Infos); cycle 1.
  { simpl. lia. }
  { apply Forall_forall. intros [t c] Hin. simpl.
    assert (t ∈ links.*1) as Ht by (apply list_elem_of_fmap; by exists (t, c)).
    assert (t ≠ Root) as Hne by (intros ->; done).
    eexists. split.
    - unfold Infos. rewrite (BuildNodeInfos_other AR Root links t Hne).
      by rewrite bool_decide_eq_true_2.
    - done. }
  cbn [mbind Outcome_bind mret Outcome_ret fst snd alter list_alter app length].
  do 3 f_equal.
  unfold LinkChildren, RootNodeOf. cbn [NodePosX NodePosY Identifier SetupAssetData
    DependencyPin ReferencerPin]. fold Root Origin.
  unfold AllocateDefaultPins at 2.
  rewrite foldl_MakeLinkTo by (intros k Hk; by apply elem_of_nil in Hk).
  unfold InfoData. rewrite HInfo. cbn [NodeInfo_AssetData app].
  f_equal. f_equal. by destruct links.
Qed.

(** A witness for [RebuildGraph_wiring]: [Sample.Repeated], whose root has the
    referencers [A] and [B]. *)
Lemma RebuildGraph_wiring_witness :
  ∃ Root A B,
    RebuildGraph (M := ExactMath) Sample.Repeated RefExplorer 10 Sample.EmptyGraph =
    Done (mkGraph Sample.Root (0, 0)
            (BuildNodeInfos Sample.Repeated Sample.Root [(Sample.A, 5); (Sample.B, 3)])
            [Root; A; B], Some 0%nat) ∧
    ReferencerPin Root = mkPin NamePassive false [1%nat; 2%nat] ∧
    DependencyPin A = mkPin NameHardEditorOnly false [0%nat] ∧
    DependencyPin B = mkPin NameSoftUsedInGame false [0%nat].
Proof.
  pose proof (RebuildGraph_wiring (M := ExactMath) Sample.Repeated RefExplorer 8
                Sample.EmptyGraph [(Sample.A, 5); (Sample.B, 3)]
                GetSortedLinks_Repeated) as Hrun.
  cbv zeta in Hrun. cbn [imap length seq] in Hrun.
  eexists _, _, _. split; [apply Hrun|].
  - simpl. intros [Hin|[Hin|Hin]%elem_of_cons]%elem_of_cons; [done|done|].
    by apply elem_of_nil in Hin.
  - split_and!; reflexivity.
Defined.

(** ** The checks of [RebuildGraph] *)

Section Checks.
Context {E : Engine} {M : FMath} (AR : IAssetRegistry) (impl : Implementation).
Implicit Types (Infos : gmap FAssetIdentifier FRefExplorerNodeInfo)
  (Nodes : list UEdGraphNode_RefExplorer)
  (Rest : list (FAssetIdentifier * EDependencyPinCategory)).

(** Returning or running on, but not stopping at a [check]. *)
Definition NoCheckFailed {A} (o : Outcome A) : Prop :=
  o = OutOfFuel ∨ ∃ a, o = Done a.

Lemma NoCheckFailed_bind {A B} (o : Outcome A) (k : A → Outcome B) :
  NoCheckFailed o → (∀ a, o = Done a → NoCheckFailed (k a)) → NoCheckFailed (o ≫= k).
Proof. intros [->|[a ->]] Hk; [by left|]. by apply Hk. Qed.

(** [Index] stays within [ReferenceIds]. *)
Lemma FilterLoop_NoCheckFailed fuel : ∀ kept todo,
  NoCheckFailed (FilterLoop AR fuel (kept ++ todo) (Z.of_nat (length kept))).
Proof.
  induction fuel as [|fuel IH]; intros kept todo; [by left|].
  destruct todo as [|x todo].
  - rewrite app_nil_r, FilterLoop_end. right. by eexists.
  - rewrite FilterLoop_step. destruct (Passes AR x); apply IH.
Qed.

Lemma GetSortedLinks_NoCheckFailed fuel root :
  NoCheckFailed (GetSortedLinks AR fuel root).
Proof.
  unfold GetSortedLinks. apply NoCheckFailed_bind.
  - apply (FilterLoop_NoCheckFailed fuel []).
  - intros a _. right. by eexists.
Qed.

(** Every child a table lists has an entry of its own. *)
Definition TableClosed Infos : Prop :=
  ∀ Id Info Pair, Infos !! Id = Some Info → Pair ∈ Children Info →
    is_Some (Infos !! Pair.1).

Lemma CreateChildren_NoCheckFailed recurse loc NewNode Rest :
  (∀ Pair Loc Nodes, Pair ∈ Rest → NoCheckFailed (recurse Pair.1 Loc Nodes)) →
  ∀ ChildIdx Nodes, NoCheckFailed (CreateChildren recurse loc NewNode Rest ChildIdx Nodes).
Proof.
  induction Rest as [|Pair Rest IH]; intros Hrec ChildIdx Nodes.
  - right. by eexists.
  - cbn [CreateChildren]. apply NoCheckFailed_bind.
    + apply Hrec. left.
    + intros r _. apply IH. intros Pair' Loc Nodes' Hin. apply Hrec. by right.
Qed.

Lemma RecursivelyCreateNodes_NoCheckFailed Infos :
  TableClosed Infos →
  ∀ fuel Id Loc Parent bIsRoot Nodes, is_Some (Infos !! Id) →
    NoCheckFailed (RecursivelyCreateNodes impl fuel Id Loc Parent Infos bIsRoot Nodes).
Proof.
  intros Hclosed. induction fuel as [|fuel IH]; intros Id Loc Parent bIsRoot Nodes [Info HInfo];
    [by left|].
  rewrite RecursivelyCreateNodes_S, HInfo.
  destruct (if bIsRoot then _ else _) as [Nodes0 NewNode]. cbv zeta.
  apply NoCheckFailed_bind.
  - apply CreateChildren_NoCheckFailed. intros Pair Loc' Nodes' Hin.
    apply IH. by apply (Hclosed Id Info).
  - intros a _. right. by eexists.
Qed.

Lemma BuildNodeInfos_TableClosed Root links : TableClosed (BuildNodeInfos AR Root links).
Proof.
  intros Id Info Pair HInfo Hin.
  destruct (decide (Id = Root)) as [->|Hne].
  - rewrite BuildNodeInfos_root in HInfo. simplify_eq. simpl in Hin.
    destruct (decide (Pair.1 = Root)) as [->|Hne]; [by rewrite BuildNodeInfos_root|].
    rewrite BuildNodeInfos_other by done.
    rewrite bool_decide_eq_true_2; [done|].
    assert (Pair.1 ∈ (FirstPerTarget [] links).*1) as Hk
      by (apply list_elem_of_fmap; by exists Pair).
    apply keys_FirstPerTarget in Hk as [Hk|Hk]; [by apply elem_of_nil in Hk|done].
  - rewrite BuildNodeInfos_other in HInfo by done.
    case_bool_decide; simplify_eq. by apply elem_of_nil in Hin.
Qed.

End Checks.

Lemma RebuildGraph_NoCheckFailed {E : Engine} {M : FMath} (AR : IAssetRegistry)
    (impl : Implementation) (fuel : nat) (G : UEdGraph_RefExplorer) :
  NoCheckFailed (RebuildGraph AR impl fuel G).
Proof.
  destruct (GetSortedLinks_NoCheckFailed AR fuel (CurrentGraphRootIdentifier G))
    as [Hrun|[links Hlinks]].
  { left. unfold RebuildGraph. by rewrite Hrun. }
  rewrite (RebuildGraph_unfold AR impl fuel G links Hlinks).
  apply NoCheckFailed_bind.
  - apply RecursivelyCreateNodes_NoCheckFailed; [apply BuildNodeInfos_TableClosed|].
    by rewrite BuildNodeInfos_root.
  - intros a _. right. by eexists.
Qed.

(** ** The comparator on every value of the flag enum *)

Section CheckedComparatorFacts.
Context {E : Engine} (ValueOf : EDependencyCategory → Z).

Lemma CategoryOrder_checked_enumerator :
  (∀ c1 c2, ValueOf c1 = ValueOf c2 → c1 = c2) →
  ∀ c, CategoryOrder_checked ValueOf (ValueOf c) = Done (CategoryOrder c).
Proof.
  intros Hinj c. unfold CategoryOrder_checked.
  destruct c; rewrite ?Z.eqb_refl; try done.
  - destruct (Z.eqb_spec (ValueOf Manage) (ValueOf Package)) as [H%Hinj|]; done.
  - destruct (Z.eqb_spec (ValueOf SearchableName) (ValueOf Package)) as [H%Hinj|]; [done|].
    destruct (Z.eqb_spec (ValueOf SearchableName) (ValueOf Manage)) as [H%Hinj|]; done.
Qed.

Lemma CategoryOrder_checked_fails v :
  CategoryOrder_checked ValueOf v = CheckFailed ↔ IsEnumerator ValueOf v = false.
Proof.
  unfold CategoryOrder_checked, IsEnumerator.
  destruct (v =? ValueOf Package), (v =? ValueOf Manage), (v =? ValueOf SearchableName);
    simpl; split; done.
Qed.

Lemma CategoryOrder_checked_cases v :
  CategoryOrder_checked ValueOf v = CheckFailed ∨ ∃ n, CategoryOrder_checked ValueOf v = Done n.
Proof.
  unfold CategoryOrder_checked.
  destruct (v =? ValueOf Package), (v =? ValueOf Manage), (v =? ValueOf SearchableName);
    simpl; (by left) || (right; by eexists).
Qed.

End CheckedComparatorFacts.

(** X10: the one [check] [RebuildGraph] can fail is [check(false)] in
    [CategoryOrder].  The comparator stops there exactly when the sort hands
    it two records with different category values of which one is not the
    value of [Package], [Manage] or [SearchableName]; on records that carry
    these enumerators it is the comparator of the embedding.  For a registry
    whose records carry them, [RebuildGraph] stops at no failed [check]: the
    index of the post-filter stays within [ReferenceIds], the root has an
    entry in the table, and every identifier [RecursivelyCreateNodes] is
    called with has one; it returns, or it runs on for ever. *)
Theorem RebuildGraph_no_failed_check {E : Engine} {M : FMath}
    (ValueOf : EDependencyCategory → Z) (AR : IAssetRegistry)
    (impl : Implementation) (fuel : nat) (G : UEdGraph_RefExplorer) :
  (∀ c1 c2, ValueOf c1 = ValueOf c2 → c1 = c2) →
  (∀ A B, LinkLess_checked ValueOf A B = CheckFailed ↔
          Raw_Category A ≠ Raw_Category B ∧
          (IsEnumerator ValueOf (Raw_Category A) = false ∨
           IsEnumerator ValueOf (Raw_Category B) = false)) ∧
  (∀ A B, LinkLess_checked ValueOf (Raw ValueOf A) (Raw ValueOf B) = Done (LinkLess A B)) ∧
  (RebuildGraph AR impl fuel G = OutOfFuel ∨ ∃ r, RebuildGraph AR impl fuel G = Done r).
Proof.
  intros Hinj. split_and!.
  - intros A B. unfold LinkLess_checked.
    destruct (Z.eqb_spec (Raw_Category A) (Raw_Category B)) as [Heq|Hne]; cbn [negb].
    + split; [|by intros [? _]].
      destruct (negb (Raw_Properties A =? Raw_Properties B)); [|done].
      by destruct (negb (eqb _ _)).
    + rewrite <- !CategoryOrder_checked_fails.
      destruct (CategoryOrder_checked_cases ValueOf (Raw_Category A)) as [HA|[a HA]],
               (CategoryOrder_checked_cases ValueOf (Raw_Category B)) as [HB|[b HB]];
        rewrite HA, HB; cbn [mbind Outcome_bind mret Outcome_ret]; split;
        try done; try (intros _; split; [done|]; by auto).
      intros [_ [?|?]]; done.
  - intros A B. unfold LinkLess_checked, LinkLess, Raw.
    cbn [Raw_Category Raw_Properties Raw_AssetId].
    destruct (decide (Category A = Category B)) as [Heq|Hne].
    + rewrite Heq, Z.eqb_refl, (bool_decide_eq_true_2 _ eq_refl). cbn [negb].
      destruct (negb (Properties A =? Properties B)); [|done].
      by destruct (negb (eqb _ _)).
    + rewrite (bool_decide_eq_false_2 _ Hne).
      destruct (Z.eqb_spec (ValueOf (Category A)) (ValueOf (Category B))) as [H%Hinj|_];
        [done|]. cbn [negb].
      by rewrite !CategoryOrder_checked_enumerator.
  - exact (RebuildGraph_NoCheckFailed AR impl fuel G).
Qed.

(** The values of the enumerators in the engine's header. *)
Definition EngineCategoryValue (c : EDependencyCategory) : Z :=
  match c with
  | Package => 1
  | Manage => 2
  | SearchableName => 4
  end.

(** A witness for [RebuildGraph_no_failed_check]: a record of category 3
    (Package | Manage) against a record of category 1 (Package) stops the
    comparator; two records of category 3 do not. *)
Lemma RebuildGraph_no_failed_check_witness :
  LinkLess_checked (E := StdEngine) EngineCategoryValue
    (mkRaw Sample.A 3 0) (mkRaw Sample.B 1 0) = CheckFailed ∧
  LinkLess_checked (E := StdEngine) EngineCategoryValue
    (mkRaw Sample.A 3 0) (mkRaw Sample.B 3 0) = Done true.
Proof.
  destruct (RebuildGraph_no_failed_check (E := StdEngine) (M := ExactMath)
              EngineCategoryValue Sample.Repeated RefExplorer 0 Sample.EmptyGraph)
    as (Hfail & _ & _).
  { by intros [] []. }
  split; [|reflexivity].
  apply Hfail. split; [done|]. by left.
Defined.

(** ** The columns of [UEdGraph_RefExplorer] *)

(** X12: in [UEdGraph_RefExplorer] the children of a node are placed in
    columns to its left, mirrored about the middle child: child [ChildIdx]
    and child [Num - 1 - ChildIdx] share their x.  When the leftmost column,
    (Num + 1) / 2 steps of [WidthStep] left of the parent, is still an
    [int32] (and so is the parent's x), no operation wraps and x lies at
    least one and at most (Num + 1) / 2 steps left of the parent. *)
Theorem RefExplorer_columns {M : FMath} (InNodeLoc : Z * Z) (Num ChildIdx : Z) :
  0 ≤ ChildIdx < Num →
  -2147483648 ≤ InNodeLoc.1 - (Num + 1) / 2 * WidthStep → InNodeLoc.1 ≤ 2147483647 →
  (ChildLoc RefExplorer InNodeLoc Num ChildIdx).1 =
    (ChildLoc RefExplorer InNodeLoc Num (Num - 1 - ChildIdx)).1 ∧
  InNodeLoc.1 - (Num + 1) / 2 * WidthStep ≤ (ChildLoc RefExplorer InNodeLoc Num ChildIdx).1 ∧
  (ChildLoc RefExplorer InNodeLoc Num ChildIdx).1 ≤ InNodeLoc.1 - WidthStep.
Proof.
  intros Hidx Hleft Hright. cbn [ChildLoc]. unfold WidthStep in *.
  destruct InNodeLoc as [X Y]. cbn [fst] in *.
  pose proof (Z.div_mod (Num + 1) 2). pose proof (Z.mod_pos_bound (Num + 1) 2).
  rewrite !Int32_sub_Int32.
  rewrite (Int32_in_range (X - (Z.min ChildIdx (Num - ChildIdx - 1) + 1) * 256)) by lia.
  rewrite (Int32_in_range
             (X - (Z.min (Num - 1 - ChildIdx) (Num - (Num - 1 - ChildIdx) - 1) + 1) * 256))
    by lia.
  split_and!; lia.
Qed.

(** A witness for [RefExplorer_columns]: the first of three children of a
    parent at (0, 0) shares x = -256 with the last; the middle one is at
    most two steps to the left. *)
Lemma RefExplorer_columns_witness :
  (ChildLoc (M := ExactMath) RefExplorer (0, 0) 3 0).1 =
    (ChildLoc (M := ExactMath) RefExplorer (0, 0) 3 2).1 ∧
  -512 ≤ (ChildLoc (M := ExactMath) RefExplorer (0, 0) 3 0).1 ∧
  (ChildLoc (M := ExactMath) RefExplorer (0, 0) 3 0).1 ≤ -256.
Proof.
  apply (RefExplorer_columns (M := ExactMath) (0, 0) 3 0); [lia|done|done].
Defined.

(** Outside that range the difference wraps: the only child of a parent at
    x = -2^31 + 100 lands far to the right of it. *)
Example RefExplorer_column_wraps :
  (ChildLoc (M := ExactMath) RefExplorer (-2147483548, 0) 1 0).1 = 2147483492.
Proof. reflexivity. Qed.

(** ** The widget's change handlers *)

Section ChangeHandlers.
Context {E : Engine} {M : FMath} (impl : Implementation) (this : nat).

(** The module once the widget has bound [OnAssetRegistryChanged] to the
    three change delegates. *)
Definition Tracked (ARM : FAssetRegistryModule) : FAssetRegistryModule :=
  mkModule (Registry ARM) (IsLoadingAssets ARM) (OnFilesLoaded ARM)
    (OnAssetUpdated ARM ++ [this]) (OnAssetAdded ARM ++ [this]) (OnAssetRemoved ARM ++ [this]).

Lemma SRefExplorer_RebuildGraph_loaded fuel ARM W ARM' W' :
  IsLoadingAssets ARM = false →
  SRefExplorer_RebuildGraph impl this fuel (ARM, W) = Done (ARM', W') →
  ARM' = (if AssetRefreshHandle_IsValid W then ARM else Tracked ARM) ∧
  bDirtyResults W' = false ∧ AssetRefreshHandle_IsValid W' = true.
Proof.
  intros Hload. unfold SRefExplorer_RebuildGraph. rewrite Hload.
  destruct (GraphObj W) as [G|]; cbn [mbind Outcome_bind mret Outcome_ret].
  - destruct (RebuildGraph _ _ _ _) as [r| |]; cbn [mbind Outcome_bind mret Outcome_ret];
      [|done..].
    destruct (AssetRefreshHandle_IsValid W) eqn:Hv; cbn [negb]; rewrite ?Hv;
      unfold mret, Outcome_ret, Tracked; rewrite ?Hload; intros [= <- <-]; done.
  - destruct (AssetRefreshHandle_IsValid W) eqn:Hv; cbn [negb]; rewrite ?Hv;
      unfold mret, Outcome_ret, Tracked; rewrite ?Hload; intros [= <- <-]; done.
Qed.

Lemma Request_loaded fuel r ARM W ARM' W' :
  IsLoadingAssets ARM = false →
  Request impl this fuel r (ARM, W) = Done (ARM', W') →
  ARM' = (if AssetRefreshHandle_IsValid W then ARM else Tracked ARM) ∧
  bDirtyResults W' = false ∧ AssetRefreshHandle_IsValid W' = true.
Proof.
  intros Hload. destruct r as [Id|]; cbn [Request].
  - unfold SetGraphRootIdentifier. destruct (GraphObj W) as [G|]; [|done].
    intros Hrun. by apply SRefExplorer_RebuildGraph_loaded in Hrun.
  - by apply SRefExplorer_RebuildGraph_loaded.
Qed.

Lemma Requests_loaded fuel rs : ∀ ARM W ARM' W',
  IsLoadingAssets ARM = false → rs ≠ [] →
  Requests impl this fuel rs (ARM, W) = Done (ARM', W') →
  ARM' = (if AssetRefreshHandle_IsValid W then ARM else Tracked ARM) ∧
  bDirtyResults W' = false ∧ AssetRefreshHandle_IsValid W' = true.
Proof.
  induction rs as [|r rs IH]; intros ARM W ARM' W' Hload Hrs; [done|].
  cbn [Requests].
  destruct (Request impl this fuel r (ARM, W)) as [[ARM1 W1]| |] eqn:Hr;
    cbn [mbind Outcome_bind]; [|done..].
  destruct (Request_loaded _ _ _ _ _ _ Hload Hr) as (HARM & Hdirty & Hvalid).
  destruct rs as [|r' rs].
  { cbn [Requests]. by intros [= <- <-]. }
  intros Hrun. apply IH in Hrun as (HARM' & Hdirty' & Hvalid'); [|by subst; destruct
    (AssetRefreshHandle_IsValid W)|done].
  rewrite Hvalid in HARM'. by subst.
Qed.

End ChangeHandlers.

(** X13: once the registry has finished loading, any sequence of rebuild
    requests ([SetGraphRootIdentifier], [RefreshClicked]) that returns
    leaves the widget with a valid refresh handle and [bDirtyResults]
    cleared, and has bound [OnAssetRegistryChanged] to [OnAssetUpdated],
    [OnAssetAdded] and [OnAssetRemoved] exactly once if the handle was not
    valid before and not at all if it was; nothing else of the registry
    module changes. *)
Theorem change_handlers_bound_once {E : Engine} {M : FMath} (impl : Implementation)
    (this fuel : nat) (rs : list RebuildRequest) (ARM ARM' : FAssetRegistryModule)
    (W W' : SRefExplorer) :
  IsLoadingAssets ARM = false → rs ≠ [] →
  Requests impl this fuel rs (ARM, W) = Done (ARM', W') →
  ARM' = (if AssetRefreshHandle_IsValid W then ARM
          else mkModule (Registry ARM) false (OnFilesLoaded ARM)
                 (OnAssetUpdated ARM ++ [this]) (OnAssetAdded ARM ++ [this])
                 (OnAssetRemoved ARM ++ [this])) ∧
  bDirtyResults W' = false ∧ AssetRefreshHandle_IsValid W' = true.
Proof.
  intros Hload Hrs Hrun.
  destruct (Requests_loaded impl this fuel rs ARM W ARM' W' Hload Hrs Hrun) as (-> & ? & ?).
  split; [|done]. unfold Tracked. by rewrite Hload.
Qed.

(** A module whose scan is over and to which nothing is bound. *)
Definition UnboundModule : FAssetRegistryModule :=
  mkModule Sample.Redirected false [] [] [] [].

(** A witness for [change_handlers_bound_once]: a fresh widget is given the
    root [A] and refreshed twice; each change delegate holds it once. *)
Lemma change_handlers_witness :
  ∃ G',
    Requests (M := ExactMath) RefExplorer 7 1
      [ReqSetGraphRootIdentifier Sample.A; ReqRefreshClicked; ReqRefreshClicked]
      (UnboundModule, FreshWidget) =
    Done (mkModule Sample.Redirected false [] [7%nat] [7%nat] [7%nat],
          mkWidget (Some G') false true).
Proof.
  assert (∃ s, Requests (M := ExactMath) RefExplorer 7 1
                 [ReqSetGraphRootIdentifier Sample.A; ReqRefreshClicked; ReqRefreshClicked]
                 (UnboundModule, FreshWidget) = Done s) as [[ARM' [GO dirty valid]] Hrun]
    by (eexists; reflexivity).
  destruct (change_handlers_bound_once (M := ExactMath) RefExplorer 7 1
              [ReqSetGraphRootIdentifier Sample.A; ReqRefreshClicked; ReqRefreshClicked]
              UnboundModule ARM' FreshWidget (mkWidget GO dirty valid)
              eq_refl ltac:(done) Hrun) as (HARM & Hdirty & Hvalid).
  simpl in HARM, Hdirty, Hvalid. subst ARM' dirty valid.
  destruct GO as [G'|].
  - by exists G'.
  - exfalso. revert Hrun. vm_compute. discriminate.
Defined.

(** ** [UEdGraph_RefExplorer::GatherAssetData] *)

(** [GatherAssetData]: the package names of the keys that are no values and
    have a package, one registry query, and the answer written into every
    entry. *)
Definition GatherAssetData (AssetRegistry : IAssetRegistry)
    (InNodeInfos : gmap FAssetIdentifier FRefExplorerNodeInfo)
    : gmap FAssetIdentifier FRefExplorerNodeInfo :=
  let PackageNames := AllPackageNames InNodeInfos in
  let PackagesToAssetDataMap := GetAssetForPackages AssetRegistry PackageNames in
  AttachAssetData PackagesToAssetDataMap InNodeInfos.

Lemma lookup_AttachAssetData Data Infos t :
  AttachAssetData Data Infos !! t =
  SetAssetData (default FAssetData_default (Data !! PackageName t)) <$> Infos !! t.
Proof. unfold AttachAssetData. rewrite map_lookup_imap. by destruct (Infos !! t). Qed.

Lemma dom_AttachAssetData Data Infos : dom (AttachAssetData Data Infos) = dom Infos.
Proof.
  apply set_eq. intros t. rewrite !elem_of_dom, lookup_AttachAssetData.
  by rewrite fmap_is_Some.
Qed.

(** X14: [GatherAssetData] keeps the keys of the table and, in every entry,
    the identifier, the children and the parents; the asset data of the
    entry of [t] becomes what the registry answered for the package name of
    [t] (the default [FAssetData] when it answered nothing); the registry is
    asked for the package names of the keys that are no values and have a
    package name, so gathering a second time changes nothing.  The table
    [RebuildGraph] works with is the populated table after this step. *)
Theorem GatherAssetData_spec (AR : IAssetRegistry)
    (Infos : gmap FAssetIdentifier FRefExplorerNodeInfo) :
  dom (GatherAssetData AR Infos) = dom Infos ∧
  (∀ t, GatherAssetData AR Infos !! t =
        (λ Info, mkNodeInfo (NodeInfo_AssetId Info)
                   (default FAssetData_default
                      (GetAssetForPackages AR
                         (set_map PackageName
                            (filter (λ Key, IsValue Key = false ∧ PackageName Key ≠ NAME_None)
                               (dom Infos)))
                       !! PackageName t))
                   (Children Info) (Parents Info)) <$> Infos !! t) ∧
  GatherAssetData AR (GatherAssetData AR Infos) = GatherAssetData AR Infos ∧
  (∀ Root links,
     BuildNodeInfos AR Root links =
     GatherAssetData AR (foldl (PopulateLink Root) (<[Root := NewNodeInfo Root]> ∅) links)).
Proof.
  split_and!.
  - apply dom_AttachAssetData.
  - intros t. unfold GatherAssetData. by rewrite lookup_AttachAssetData.
  - unfold GatherAssetData at 1. unfold AllPackageNames at 1.
    unfold GatherAssetData at 1. rewrite dom_AttachAssetData.
    fold (AllPackageNames Infos).
    apply map_eq. intros t. unfold GatherAssetData.
    rewrite !lookup_AttachAssetData. by destruct (Infos !! t).
  - done.
Qed.

(** ** The comparator of the sort *)

(** X15: the comparator [GetSortedLinks] hands to [Algo::Sort] is a strict
    weak ordering whenever [FName::LexicalLess] is one: irreflexive,
    transitive, and with a transitive incomparability. *)
Theorem comparator_strict_weak_order {E : Engine} :
  StrictWeakOrder LexicalLess →
  (∀ A, LinkLess A A = false) ∧
  (∀ A B C, LinkLess A B = true → LinkLess B C = true → LinkLess A C = true) ∧
  (∀ A B C, LinkLess A B = false → LinkLess B A = false →
            LinkLess B C = false → LinkLess C B = false →
            LinkLess A C = false ∧ LinkLess C A = false).
Proof.
  intros Hlex. destruct (LinkLess_swo Hlex) as [Hirr Htrans Hinc].
  split_and!; [done|done|].
  intros A B C HAB HBA HBC HCB. split.
  - destruct (LinkLess A C) eqn:HAC; [|done].
    destruct (Hinc A B C HAC) as [H|H]; congruence.
  - destruct (LinkLess C A) eqn:HCA; [|done].
    destruct (Hinc C B A HCA) as [H|H]; congruence.
Qed.

(** A witness for [comparator_strict_weak_order]: the lexical order of
    strings. *)
Lemma comparator_strict_weak_order_witness :
  (∀ A, LinkLess (E := StdEngine) A A = false) ∧
  (∀ A B C, LinkLess (E := StdEngine) A B = true → LinkLess (E := StdEngine) B C = true →
            LinkLess (E := StdEngine) A C = true) ∧
  (∀ A B C, LinkLess (E := StdEngine) A B = false → LinkLess (E := StdEngine) B A = false →
            LinkLess (E := StdEngine) B C = false → LinkLess (E := StdEngine) C B = false →
            LinkLess (E := StdEngine) A C = false ∧ LinkLess (E := StdEngine) C A = false).
Proof. apply (comparator_strict_weak_order (E := StdEngine)). exact String_ltb_swo. Defined.

(** ** Navigation and the status line *)


Section StatusText.
(** [FAssetIdentifier::IsPackage], [FindPackage] followed by
    [UPackage::IsDirty], and [FPackageName::GetShortName] are the engine's. *)
Context (IsPackage : FAssetIdentifier → bool) (IsDirtyInMemory : FName → bool)
  (GetShortName : string → string).

Definition ModifiedWarning (DirtyPackages : string) : string :=
  ("Showing old saved references for edited asset " ++ DirtyPackages)%string.
Definition DirtyWarning : string := "Saved references changed, refresh for update".

(** [SRefExplorer::GetStatusText]; an [FText] is kept as its string, the
    empty [FText()] as the empty string. *)
Definition GetStatusText (W : SRefExplorer) : string :=
  let DirtyPackages :=
    match GraphObj W with
    | Some G =>
        if IsPackage (CurrentGraphRootIdentifier G) then
          let PackageString := PackageName (CurrentGraphRootIdentifier G) in
          if IsDirtyInMemory PackageString then GetShortName PackageString else ""%string
        else ""%string
    | None => ""%string
    end in
  if (0 <? String.length DirtyPackages)%nat then ModifiedWarning DirtyPackages
  else if bDirtyResults W then DirtyWarning
  else ""%string.

Lemma GetStatusText_clean W :
  (∀ Name, IsDirtyInMemory Name = false) →
  GetStatusText W = if bDirtyResults W then DirtyWarning else ""%string.
Proof.
  intros Hclean. unfold GetStatusText.
  destruct (GraphObj W) as [G|]; [|done].
  destruct (IsPackage _); [|done]. by rewrite Hclean.
Qed.

End StatusText.

(** X16: with no package edited in memory, the status line after a change
    notification is the warning that the saved references changed.  A
    double click on a node and the selection of an asset in the find-path
    picker rebuild the graph at the new root from the registry as it is
    now, and the warning stays.  The requests that reach
    [SRefExplorer::RebuildGraph], that is [SetGraphRootIdentifier] and
    [RefreshClicked], empty the status line when they return with the
    registry no longer loading.  Enter in the picker does what the selection
    of the first asset does. *)
Theorem stale_warning_survives_navigation {E : Engine} {M : FMath} (impl : Implementation)
    (IsPackage : FAssetIdentifier → bool) (IsDirtyInMemory : FName → bool)
    (GetShortName : string → string)
    (this fuel : nat) (d : FAssetData) (Node : UEdGraphNode_RefExplorer)
    (AssetData : FAssetData) (ARM : FAssetRegistryModule) (W : SRefExplorer)
    (G : UEdGraph_RefExplorer) :
  (∀ Name, IsDirtyInMemory Name = false) → GraphObj W = Some G →
  let Status := GetStatusText IsPackage IsDirtyInMemory GetShortName in
  let Stale := OnAssetRegistryChanged d (ARM, W) in
  Status Stale.2 = DirtyWarning ∧
  (∀ s', OnNodeDoubleClicked impl fuel Node Stale = Done s' →
     Status s'.2 = DirtyWarning ∧
     ∃ r, RebuildGraph (Registry ARM) impl fuel (SetGraphRoot (Identifier Node) (0, 0) G)
          = Done r ∧ GraphObj s'.2 = Some r.1) ∧
  (∀ s', OnFindPathAssetSelected impl fuel AssetData Stale = Done s' →
     Status s'.2 = DirtyWarning ∧
     ∃ r, RebuildGraph (Registry ARM) impl fuel
            (SetGraphRoot (AssetId_of_package (Asset_PackageName AssetData)) (0, 0) G)
          = Done r ∧ GraphObj s'.2 = Some r.1) ∧
  (∀ ds, OnFindPathAssetEnterPressed impl fuel (AssetData :: ds) Stale =
         OnFindPathAssetSelected impl fuel AssetData Stale) ∧
  (∀ r s', IsLoadingAssets ARM = false → Request impl this fuel r Stale = Done s' →
     Status s'.2 = ""%string).
Proof.
  intros Hclean HG Status Stale. subst Status Stale. cbn [OnAssetRegistryChanged snd].
  split_and!.
  - by rewrite GetStatusText_clean.
  - intros s'. unfold OnNodeDoubleClicked. cbn [GraphObj bDirtyResults]. rewrite HG.
    destruct (RebuildGraph _ _ _ _) as [r| |]; [|done..].
    intros [= <-]. split; [by rewrite GetStatusText_clean|]. by exists r.
  - intros s'. unfold OnFindPathAssetSelected. cbn [GraphObj bDirtyResults]. rewrite HG.
    destruct (RebuildGraph _ _ _ _) as [r| |]; [|done..].
    intros [= <-]. split; [by rewrite GetStatusText_clean|]. by exists r.
  - done.
  - intros r [ARM' W'] Hload Hrun.
    apply Request_loaded in Hrun as (_ & Hdirty & _); [|done].
    rewrite GetStatusText_clean by done. cbn [snd]. by rewrite Hdirty.
Qed.

(** A witness for [stale_warning_survives_navigation]: no package is edited
    in memory. *)
Lemma stale_warning_witness :
  GetStatusText (λ _, true) (λ _, false) (λ Name, Name)
    (OnAssetRegistryChanged FAssetData_default
       (LoadedModule, mkWidget (Some Sample.EmptyGraph) false true)).2
  = DirtyWarning.
Proof.
  exact (proj1 (stale_warning_survives_navigation (M := ExactMath) RefExplorer
           (λ _, true) (λ _, false) (λ Name, Name) 7 10 FAssetData_default
           (mkNode 0 0 Sample.A FAssetData_default AllocateDefaultPins AllocateDefaultPins)
           FAssetData_default LoadedModule
           (mkWidget (Some Sample.EmptyGraph) false true) Sample.EmptyGraph
           (λ _, eq_refl) eq_refl)).
Defined.

(** ** A root that references itself, in general *)

(** X18: whenever the registry reports the root among its own referencers
    and the root passes the package-data check (its package is on disk, or
    it has no package name), [RebuildGraph] returns for no amount of fuel:
    the root is listed among its own children and
    [RecursivelyCreateNodes] descends into it again and again. *)
Theorem self_referencing_root_never_returns {E : Engine} `{!EngineLaws E} {M : FMath}
    (AR : IAssetRegistry) (impl : Implementation) (G : UEdGraph_RefExplorer)
    (L : FAssetDependency) (fuel : nat) :
  L ∈ GetReferencers AR (CurrentGraphRootIdentifier G) Categories →
  AssetId L = CurrentGraphRootIdentifier G →
  Passes AR (CurrentGraphRootIdentifier G) = true →
  RebuildGraph AR impl fuel G = OutOfFuel.
Proof.
  intros HL HId Hpass.
  destruct (RebuildGraph AR impl fuel G) as [r| |] eqn:Hrun; [|done|].
  - exfalso. destruct (RebuildGraph_links AR impl fuel G r Hrun) as [links Hlinks].
    apply (RebuildGraph_self_reference AR impl fuel G links Hlinks).
    + rewrite (GetSortedLinks_Done _ _ _ _ Hlinks).
      pose proof (Classified_keys AR _ L HL) as Hk. rewrite HId in Hk.
      apply list_elem_of_fmap in Hk as ([k c] & Hk & Hkc). simpl in Hk. subst k.
      apply list_elem_of_fmap. exists (CurrentGraphRootIdentifier G, c). split; [done|].
      apply list_elem_of_In, List.filter_In. split; [by apply list_elem_of_In|done].
    + by exists r.
  - exfalso. destruct (RebuildGraph_NoCheckFailed AR impl fuel G) as [H|[r H]]; congruence.
Qed.

(** A witness for [self_referencing_root_never_returns]:
    [Sample.SelfReferencing]. *)
Lemma self_referencing_root_witness :
  RebuildGraph (M := ExactMath) Sample.SelfReferencing RefExplorer 1000 Sample.EmptyGraph
  = OutOfFuel.
Proof.
  apply (self_referencing_root_never_returns (M := ExactMath) Sample.SelfReferencing
           RefExplorer Sample.EmptyGraph (mkDep Sample.Root Package Sample.Hard) 1000).
  - simpl. left.
  - reflexivity.
  - reflexivity.
Defined.

(** ** The selection and the guards of the commands *)

(** An object of the selection: a node of this graph or something else. *)
Inductive UObject : Type :=
  | Object_RefExplorerNode (Node : UEdGraphNode_RefExplorer)
  | Object_Other.

Section Selection.
(** [FAssetIdentifier::GetPrimaryAssetId] followed by [IsValid], and
    [FAssetIdentifier::IsPackage], are the engine's. *)
Context (HasPrimaryAssetId : FAssetIdentifier → bool) (IsPackage : FAssetIdentifier → bool).
(** [GraphEditorPtr.IsValid()] and [GraphEditorPtr->GetSelectedNodes()]. *)
Context (GraphEditorPtr_IsValid : bool) (SelectedNodes : list UObject).

(** [bIsPackage] as [SetupRefExplorerNode] leaves it. *)
Definition bIsPackage (Node : UEdGraphNode_RefExplorer) : bool :=
  if HasPrimaryAssetId (Identifier Node) then false
  else if IsValue (Identifier Node) then false
  else true.

Definition HasExactlyOneNodeSelected : bool :=
  if GraphEditorPtr_IsValid then (length SelectedNodes =? 1)%nat else false.

(** The loop returns in its first round. *)
Definition HasExactlyOnePackageNodeSelected : bool :=
  if GraphEditorPtr_IsValid then
    if negb (length SelectedNodes =? 1)%nat then false
    else
      match SelectedNodes with
      | Object_RefExplorerNode RefExplorerNode :: _ =>
          if bIsPackage RefExplorerNode then true else false
      | Object_Other :: _ => false
      | [] => false
      end
  else false.

Definition HasAtLeastOnePackageNodeSelected : bool :=
  if GraphEditorPtr_IsValid then
    existsb (λ Node, match Node with
                     | Object_RefExplorerNode RefExplorerNode => bIsPackage RefExplorerNode
                     | Object_Other => false
                     end) SelectedNodes
  else false.

Definition HasAtLeastOneRealNodeSelected : bool :=
  if GraphEditorPtr_IsValid then
    existsb (λ Node, match Node with
                     | Object_RefExplorerNode _ => true
                     | Object_Other => false
                     end) SelectedNodes
  else false.

(** [GetPackageNamesFromSelectedNodes]: the set in the order of insertion. *)
Definition GetPackageNamesFromSelectedNodes : list FName :=
  foldl (λ OutNames Node,
           match Node with
           | Object_RefExplorerNode RefExplorerNode =>
               if IsPackage (Identifier RefExplorerNode) then
                 if bool_decide (PackageName (Identifier RefExplorerNode) ∈ OutNames)
                 then OutNames
                 else OutNames ++ [PackageName (Identifier RefExplorerNode)]
               else OutNames
           | Object_Other => OutNames
           end) [] SelectedNodes.

End Selection.

(** X17: the guards of the commands agree with each other: exactly one
    package node is selected exactly when exactly one node is selected and
    at least one package node is; a selected package node is a selected real
    node; a node is a package node unless its identifier is a primary asset
    or a value; with an invalid graph editor or nothing selected every guard
    is false. *)
Theorem selection_guards (HasPrimaryAssetId : FAssetIdentifier → bool)
    (GraphEditorPtr_IsValid : bool) (SelectedNodes : list UObject) :
  HasExactlyOnePackageNodeSelected HasPrimaryAssetId GraphEditorPtr_IsValid SelectedNodes =
    HasExactlyOneNodeSelected GraphEditorPtr_IsValid SelectedNodes
    && HasAtLeastOnePackageNodeSelected HasPrimaryAssetId GraphEditorPtr_IsValid SelectedNodes ∧
  implb (HasAtLeastOnePackageNodeSelected HasPrimaryAssetId GraphEditorPtr_IsValid SelectedNodes)
        (HasAtLeastOneRealNodeSelected GraphEditorPtr_IsValid SelectedNodes) = true ∧
  HasAtLeastOneRealNodeSelected GraphEditorPtr_IsValid [] = false ∧
  HasAtLeastOneRealNodeSelected false SelectedNodes = false ∧
  HasExactlyOneNodeSelected false SelectedNodes = false.
Proof.
  unfold HasExactlyOnePackageNodeSelected, HasExactlyOneNodeSelected,
    HasAtLeastOnePackageNodeSelected, HasAtLeastOneRealNodeSelected.
  destruct GraphEditorPtr_IsValid; [|done].
  split_and!; try done.
  - destruct SelectedNodes as [|[Node|] [|Node' Rest]]; try done.
  - induction SelectedNodes as [|[Node|] Rest IH]; [done|..]; cbn [existsb orb].
    + destruct (bIsPackage _ _); cbn [orb implb]; [done|]. by destruct (existsb _ Rest).
    + exact IH.
Qed.

Lemma GetPackageNames_foldl (IsPackage : FAssetIdentifier → bool) (SelectedNodes : list UObject) :
  ∀ OutNames : list FName, NoDup OutNames →
  let Result :=
    foldl (λ OutNames Node,
             match Node with
             | Object_RefExplorerNode RefExplorerNode =>
                 if IsPackage (Identifier RefExplorerNode) then
                   if bool_decide (PackageName (Identifier RefExplorerNode) ∈ OutNames)
                   then OutNames
                   else OutNames ++ [PackageName (Identifier RefExplorerNode)]
                 else OutNames
             | Object_Other => OutNames
             end) OutNames SelectedNodes in
  NoDup Result ∧
  ∀ Name, Name ∈ Result ↔
    Name ∈ OutNames ∨
    ∃ Node, Object_RefExplorerNode Node ∈ SelectedNodes ∧
            IsPackage (Identifier Node) = true ∧ PackageName (Identifier Node) = Name.
Proof.
  induction SelectedNodes as [|[Node|] Rest IH]; intros OutNames Hnd; cbn [foldl].
  - split; [done|]. intros Name. split; [by left|].
    intros [H|(Node & H & _)]; [done|by apply elem_of_nil in H].
  - destruct (IsPackage (Identifier Node)) eqn:HP; [case_bool_decide as Hin|].
    + destruct (IH OutNames Hnd) as [Hnd' Hiff]. split; [done|].
      intros Name. rewrite Hiff. split.
      * intros [H|(Node' & H & H1 & H2)]; [by left|]. right. exists Node'.
        split_and!; [by right|done..].
      * intros [H|(Node' & H & H1 & H2)]; [by left|].
        apply elem_of_cons in H as [[= ->]|H]; [left; by subst|].
        right. by exists Node'.
    + destruct (IH (OutNames ++ [PackageName (Identifier Node)])) as [Hnd' Hiff].
      { apply NoDup_app. split_and!; [done| |apply NoDup_singleton].
        intros x Hx ->%list_elem_of_singleton. done. }
      split; [done|]. intros Name. rewrite Hiff, elem_of_app, list_elem_of_singleton. split.
      * intros [[H| ->]|(Node' & H & H1 & H2)]; [by left| |].
        -- right. exists Node. split_and!; [left|done..].
        -- right. exists Node'. split_and!; [by right|done..].
      * intros [H|(Node' & H & H1 & H2)]; [by left; left|].
        apply elem_of_cons in H as [[= ->]|H]; [left; right; by subst|].
        right. by exists Node'.
    + destruct (IH OutNames Hnd) as [Hnd' Hiff]. split; [done|].
      intros Name. rewrite Hiff. split.
      * intros [H|(Node' & H & H1 & H2)]; [by left|]. right. exists Node'.
        split_and!; [by right|done..].
      * intros [H|(Node' & H & H1 & H2)]; [by left|].
        apply elem_of_cons in H as [[= ->]|H]; [congruence|].
        right. by exists Node'.
  - destruct (IH OutNames Hnd) as [Hnd' Hiff]. split; [done|].
    intros Name. rewrite Hiff. split.
    + intros [H|(Node' & H & H1 & H2)]; [by left|]. right. exists Node'.
      split_and!; [by right|done..].
    + intros [H|(Node' & H & H1 & H2)]; [by left|].
      apply elem_of_cons in H as [[=]|H]. right. by exists Node'.
Qed.

(** X19: [GetPackageNamesFromSelectedNodes] collects each package name once,
    and exactly the package names of the selected nodes of this graph whose
    identifier [IsPackage]; other objects and nodes of values or primary
    assets add nothing. *)
Theorem selected_package_names (IsPackage : FAssetIdentifier → bool)
    (SelectedNodes : list UObject) :
  NoDup (GetPackageNamesFromSelectedNodes IsPackage SelectedNodes) ∧
  ∀ Name, Name ∈ GetPackageNamesFromSelectedNodes IsPackage SelectedNodes ↔
    ∃ Node, Object_RefExplorerNode Node ∈ SelectedNodes ∧
            IsPackage (Identifier Node) = true ∧ PackageName (Identifier Node) = Name.
Proof.
  destruct (GetPackageNames_foldl IsPackage SelectedNodes [] (NoDup_nil_2 (A := FName))) as [Hnd Hiff].
  split; [exact Hnd|]. intros Name. unfold GetPackageNamesFromSelectedNodes.
  rewrite Hiff. split; [|by right]. intros [H|H]; [by apply elem_of_nil in H|done].
Qed.

(** ** The two implementations of the graph *)

Section TwoImplementations.
Context {E : Engine} {M : FMath}.
Implicit Types (Infos : gmap FAssetIdentifier FRefExplorerNodeInfo)
  (Nodes : list UEdGraphNode_RefExplorer)
  (Rest : list (FAssetIdentifier * EDependencyPinCategory)).

(** Two nodes that differ in [NodePosX] at most. *)
Definition SameButX (n1 n2 : UEdGraphNode_RefExplorer) : Prop :=
  NodePosY n1 = NodePosY n2 ∧ Identifier n1 = Identifier n2 ∧
  SetupAssetData n1 = SetupAssetData n2 ∧
  DependencyPin n1 = DependencyPin n2 ∧ ReferencerPin n1 = ReferencerPin n2.

(** Two runs that end in the same way, with related results when they
    return. *)
Definition Agree {A B} (R : A → B → Prop) (o1 : Outcome A) (o2 : Outcome B) : Prop :=
  match o1, o2 with
  | Done a, Done b => R a b
  | OutOfFuel, OutOfFuel => True
  | CheckFailed, CheckFailed => True
  | _, _ => False
  end.

Lemma SameButX_link This ReferencerNode c Nodes1 Nodes2 :
  Forall2 SameButX Nodes1 Nodes2 →
  Forall2 SameButX
    (AddReferencer This ReferencerNode
       (alter (SetDependencyPinCategory c) ReferencerNode Nodes1))
    (AddReferencer This ReferencerNode
       (alter (SetDependencyPinCategory c) ReferencerNode Nodes2)).
Proof.
  intros HN. unfold AddReferencer.
  repeat (apply Forall2_alter; [|intros n1 n2 _ _ (H1 & H2 & H3 & H4 & H5);
                                 repeat split; simpl; congruence]).
  done.
Qed.

Lemma CreateChildren_Agree recurse1 recurse2 (loc1 loc2 : Z → Z * Z) NewNode Rest :
  (∀ i, (loc1 i).2 = (loc2 i).2) →
  (∀ Id L1 L2 Nodes1 Nodes2, L1.2 = L2.2 → Forall2 SameButX Nodes1 Nodes2 →
     Agree (λ r1 r2, Forall2 SameButX r1.1 r2.1 ∧ r1.2 = r2.2)
       (recurse1 Id L1 Nodes1) (recurse2 Id L2 Nodes2)) →
  ∀ ChildIdx Nodes1 Nodes2, Forall2 SameButX Nodes1 Nodes2 →
    Agree (Forall2 SameButX)
      (CreateChildren recurse1 loc1 NewNode Rest ChildIdx Nodes1)
      (CreateChildren recurse2 loc2 NewNode Rest ChildIdx Nodes2).
Proof.
  intros Hloc Hrec. induction Rest as [|Pair Rest IH]; intros ChildIdx Nodes1 Nodes2 HN.
  - done.
  - cbn [CreateChildren].
    pose proof (Hrec Pair.1 (loc1 ChildIdx) (loc2 ChildIdx) Nodes1 Nodes2 (Hloc ChildIdx) HN)
      as Hr.
    destruct (recurse1 _ _ _) as [r1| |], (recurse2 _ _ _) as [r2| |]; try done.
    destruct Hr as [Hr Hk]. cbn [mbind Outcome_bind]. rewrite Hk.
    apply IH. by apply SameButX_link.
Qed.

Lemma RecursivelyCreateNodes_Agree Infos fuel :
  ∀ Id L1 L2 Parent bIsRoot Nodes1 Nodes2,
  L1.2 = L2.2 → Forall2 SameButX Nodes1 Nodes2 →
  Agree (λ r1 r2, Forall2 SameButX r1.1 r2.1 ∧ r1.2 = r2.2)
    (RecursivelyCreateNodes RefExplorer fuel Id L1 Parent Infos bIsRoot Nodes1)
    (RecursivelyCreateNodes ReferenceExplorer fuel Id L2 Parent Infos bIsRoot Nodes2).
Proof.
  induction fuel as [|fuel IH]; intros Id L1 L2 Parent bIsRoot Nodes1 Nodes2 HL HN; [done|].
  rewrite !RecursivelyCreateNodes_S.
  destruct (Infos !! Id) as [Info|]; [|done].
  assert (Forall2 SameButX
            (if bIsRoot then (Nodes1, Parent)
             else CreateAndSetupNode L1 Id (NodeInfo_AssetData Info) Nodes1).1
            (if bIsRoot then (Nodes2, Parent)
             else CreateAndSetupNode L2 Id (NodeInfo_AssetData Info) Nodes2).1 ∧
          (if bIsRoot then (Nodes1, Parent)
           else CreateAndSetupNode L1 Id (NodeInfo_AssetData Info) Nodes1).2 =
          (if bIsRoot then (Nodes2, Parent)
           else CreateAndSetupNode L2 Id (NodeInfo_AssetData Info) Nodes2).2) as [HB Hk].
  { destruct bIsRoot; [done|]. simpl. split.
    - apply Forall2_app; [done|]. by repeat constructor.
    - by apply Forall2_length in HN. }
  destruct (if bIsRoot then (Nodes1, Parent) else _) as [B1 k1].
  destruct (if bIsRoot then (Nodes2, Parent) else _) as [B2 k2].
  simpl in HB, Hk. subst k2. cbv zeta.
  pose proof (CreateChildren_Agree
                (λ ChildId ChildLoc Nodes,
                   RecursivelyCreateNodes RefExplorer fuel ChildId ChildLoc k1 Infos false Nodes)
                (λ ChildId ChildLoc Nodes,
                   RecursivelyCreateNodes ReferenceExplorer fuel ChildId ChildLoc k1 Infos false
                     Nodes)
                (ChildLoc RefExplorer L1 (Z.of_nat (length (Children Info))))
                (ChildLoc ReferenceExplorer L2 (Z.of_nat (length (Children Info))))
                k1 (Children Info)) as Hc.
  specialize (Hc ltac:(intros i; simpl; by rewrite HL)
                 ltac:(intros; by apply IH) 0 B1 B2 HB).
  destruct (CreateChildren _ _ _ _ _ B1) as [N1| |],
           (CreateChildren _ _ _ _ _ B2) as [N2| |]; done.
Qed.

End TwoImplementations.

(** X20: the two implementations of the graph, [UEdGraph_RefExplorer] and
    [UEdGraph_ReferenceExplorer], end in the same way on the same registry
    and graph; when they return, they return the same root node, the same
    table, and node by node the same identifier, asset data, pins, links
    and y: the nodes differ in their x at most. *)
Theorem implementations_differ_in_x_only {E : Engine} {M : FMath} (AR : IAssetRegistry)
    (fuel : nat) (G : UEdGraph_RefExplorer) :
  Agree (λ r1 r2,
           r1.2 = r2.2 ∧
           CurrentGraphRootIdentifier r1.1 = CurrentGraphRootIdentifier r2.1 ∧
           CurrentGraphRootOrigin r1.1 = CurrentGraphRootOrigin r2.1 ∧
           RefExplorerNodeInfos r1.1 = RefExplorerNodeInfos r2.1 ∧
           Forall2 SameButX (Nodes r1.1) (Nodes r2.1))
    (RebuildGraph AR RefExplorer fuel G) (RebuildGraph AR ReferenceExplorer fuel G).
Proof.
  destruct (GetSortedLinks AR fuel (CurrentGraphRootIdentifier G)) as [links| |] eqn:Hlinks.
  - rewrite !(RebuildGraph_unfold AR _ fuel G links Hlinks).
    pose proof (RecursivelyCreateNodes_Agree
                  (BuildNodeInfos AR (CurrentGraphRootIdentifier G) links) fuel
                  (CurrentGraphRootIdentifier G) (CurrentGraphRootOrigin G)
                  (CurrentGraphRootOrigin G) 0%nat true
                  [RootNodeOf AR G links] [RootNodeOf AR G links] eq_refl) as Hr.
    destruct (RecursivelyCreateNodes RefExplorer _ _ _ _ _ _ _) as [r1| |],
             (RecursivelyCreateNodes ReferenceExplorer _ _ _ _ _ _ _) as [r2| |];
      try (by apply Hr; repeat constructor).
    simpl. split_and!; try done. apply Hr. by repeat constructor.
  - unfold RebuildGraph. by rewrite Hlinks.
  - unfold RebuildGraph. by rewrite Hlinks.
Qed.

(** ** One node per asset *)

(** X21: in the graph [RebuildGraph] returns when the root is not among its
    own referencers, the identifiers of the nodes are the root followed by
    the targets of the links in their order, no identifier occurs twice,
    the keys of the table are exactly these identifiers, and every node
    carries the asset data of its table entry. *)
Theorem one_node_per_asset {E : Engine} {M : FMath} (AR : IAssetRegistry)
    (impl : Implementation) (fuel : nat) (G : UEdGraph_RefExplorer)
    (links : TMap FAssetIdentifier EDependencyPinCategory) :
  GetSortedLinks AR (S (S fuel)) (CurrentGraphRootIdentifier G) = Done links →
  CurrentGraphRootIdentifier G ∉ links.*1 →
  ∃ G',
    RebuildGraph AR impl (S (S fuel)) G = Done (G', Some 0%nat) ∧
    Identifier <$> Nodes G' = CurrentGraphRootIdentifier G :: links.*1 ∧
    NoDup (Identifier <$> Nodes G') ∧
    dom (RefExplorerNodeInfos G') = list_to_set (Identifier <$> Nodes G') ∧
    Forall (λ n, ∃ Info, RefExplorerNodeInfos G' !! Identifier n = Some Info ∧
                         NodeInfo_AssetId Info = Identifier n ∧
                         NodeInfo_AssetData Info = SetupAssetData n) (Nodes G').
Proof.
  intros Hlinks Hroot.
  destruct (RebuildGraph_returns AR impl fuel G links Hlinks Hroot) as (F & HF & Hrun).
  cbv zeta in Hrun. eexists. split; [exact Hrun|]. cbn [Nodes RefExplorerNodeInfos].
  set (Root := CurrentGraphRootIdentifier G) in *.
  set (Infos := BuildNodeInfos AR Root links) in *.
  pose proof (GetSortedLinks_NoDup _ _ _ _ Hlinks) as Hnd.
  destruct (HF (RootNodeOf AR G links)) as (_ & _ & HId & HData & _).
  assert (Identifier <$>
            imap (λ i Pair, LeafNode 0 (ChildLoc impl (CurrentGraphRootOrigin G)
                                          (Z.of_nat (length links)) (Z.of_nat i)) Pair
                              (InfoData Infos Pair.1)) links = links.*1) as Hids.
  { apply list_eq. intros i. rewrite !list_lookup_fmap, list_lookup_imap.
    destruct (_ !! i) as [[t c]|]; reflexivity. }
  assert (Identifier <$> F (RootNodeOf AR G links) ::
            imap (λ i Pair, LeafNode 0 (ChildLoc impl (CurrentGraphRootOrigin G)
                                          (Z.of_nat (length links)) (Z.of_nat i)) Pair
                              (InfoData Infos Pair.1)) links = Root :: links.*1) as Hall.
  { rewrite fmap_cons, Hids, HId. done. }
  split_and!.
  - exact Hall.
  - rewrite Hall. by apply NoDup_cons.
  - rewrite Hall. apply set_eq. intros t.
    rewrite elem_of_dom, elem_of_list_to_set, elem_of_cons.
    destruct (decide (t = Root)) as [->|Hne].
    + unfold Infos. rewrite BuildNodeInfos_root. naive_solver.
    + unfold Infos. rewrite BuildNodeInfos_other by done.
      case_bool_decide; [naive_solver|]. split; [by intros [? ?]|naive_solver].
  - apply Forall_cons. split.
    + rewrite HId, HData. unfold Infos. rewrite BuildNodeInfos_root. by eexists.
    + apply Forall_forall. intros n Hn.
      apply list_elem_of_lookup in Hn as [i Hn]. rewrite list_lookup_imap in Hn.
      apply fmap_Some in Hn as ([t c] & Hi & ->). simpl.
      assert (t ∈ links.*1) as Ht.
      { apply list_elem_of_fmap. exists (t, c). split; [done|].
        by apply list_elem_of_lookup_2 in Hi. }
      assert (t ≠ Root) as Hne by (intros ->; done).
      unfold InfoData, Infos. rewrite BuildNodeInfos_other by done.
      rewrite bool_decide_eq_true_2 by done. by eexists.
Qed.

(** A witness for [one_node_per_asset]: the graph of [Sample.Repeated] has
    the nodes of the root, of [A] and of [B]. *)
Lemma one_node_per_asset_witness :
  ∃ G',
    RebuildGraph (M := ExactMath) Sample.Repeated RefExplorer 10 Sample.EmptyGraph
    = Done (G', Some 0%nat) ∧
    Identifier <$> Nodes G' = [Sample.Root; Sample.A; Sample.B].
Proof.
  destruct (one_node_per_asset (M := ExactMath) Sample.Repeated RefExplorer 8
              Sample.EmptyGraph [(Sample.A, 5); (Sample.B, 3)] GetSortedLinks_Repeated)
    as (G' & Hrun & Hids & _).
  { simpl. intros [Hin|[Hin|Hin]%elem_of_cons]%elem_of_cons; [done|done|].
    by apply elem_of_nil in Hin. }
  exists G'. split; [exact Hrun|exact Hids].
Defined.
